(** * dataanalyzer-pro: the statistical and text routines, embedded and verified

    The repository is a React single-page application.  This development
    embeds the few routines that compute something: the mean / median /
    standard-deviation helpers that exist in three independent copies
    (DataAnalyzer.tsx, AnalysisEngine, StatsSummary.tsx), the Pearson
    correlation of AnalysisEngine, [formatNumber], the correlation map of
    CorrelationMatrix.tsx, the error handling of NLQuerySection.tsx and the
    sentence selection of TextSummarization.tsx.

    Conventions of the embedding.
    - A JavaScript [number] is an IEEE-754 binary64 value: Rocq's primitive
      [float], whose operations round exactly as the JavaScript ones do.
    - Array lengths and indices are natural numbers (they are integers below
      2^32 in JavaScript, so the float arithmetic the source performs on them
      is exact); [Js.of_nat] converts them where the source mixes them with
      other numbers.
    - A JavaScript string is a Rocq [string], one character per code unit;
      code units above 255 are outside the model.
    - [throw] is a [Throw] completion; [try]/[catch]/[finally] are
      combinators on completions. *)

From Stdlib Require Import Floats ZArith QArith List String Ascii Bool Lia.
From Stdlib Require Import Permutation Sorted.
From stdpp Require Import gmap strings pretty.
Import ListNotations.

Set Warnings "-inexact-float,-register-all".

(** ** The JavaScript runtime, as far as the sources use it *)

Module Js.

(** Values that a field record can hold at run time. *)
Inductive JsVal : Type :=
| JUndefined
| JNull
| JBoolean (b : bool)
| JNumber (n : float)
| JString (s : string)
| JArray (elems : list JsVal).

(** Completion of a statement or call: a value, or a thrown value. *)
Inductive Completion (E A : Type) : Type :=
| Normal (a : A)
| Throw (e : E).
Arguments Normal {E A} a.
Arguments Throw {E A} e.

Definition bind {E A B} (c : Completion E A) (k : A -> Completion E B)
  : Completion E B :=
  match c with
  | Normal a => k a
  | Throw e => Throw e
  end.

(** Conversion of a length or an index to a number. *)
Definition of_nat (n : nat) : float :=
  PrimFloat.of_uint63 (Uint63.of_Z (Z.of_nat n)).

(** [isNaN(v)] and [isFinite(v)] on a number. *)
Definition isNaN (v : float) : bool := PrimFloat.is_nan v.
Definition isFinite (v : float) : bool := PrimFloat.is_finite v.

(** [!v]: the falsy values are undefined, null, false, 0, NaN and the
    empty string. *)
Definition truthy (v : JsVal) : bool :=
  match v with
  | JUndefined | JNull => false
  | JBoolean b => b
  | JNumber n => negb (PrimFloat.is_zero n || PrimFloat.is_nan n)
  | JString s => negb (String.eqb s EmptyString)
  | JArray _ => true
  end.

(** A string-typed property that may be absent: [!p] holds when it is
    absent or empty. *)
Definition truthy_str (p : option string) : bool :=
  match p with
  | None => false
  | Some s => negb (String.eqb s EmptyString)
  end.

Definition Array_isArray (v : JsVal) : bool :=
  match v with
  | JArray _ => true
  | _ => false
  end.

(** [arr[i]] on an array of numbers; an index out of range reads
    [undefined], which every arithmetic use turns into NaN. *)
Definition index (arr : list float) (i : nat) : float :=
  nth i arr PrimFloat.nan.

(** [arr.reduce((acc, x, i) => f(acc, x, i), init)]. *)
Fixpoint reduce_from {A B : Type} (f : B -> A -> nat -> B) (i : nat)
  (arr : list A) (acc : B) : B :=
  match arr with
  | [] => acc
  | x :: rest => reduce_from f (S i) rest (f acc x i)
  end.

Definition reduce {A B : Type} (f : B -> A -> nat -> B) (arr : list A)
  (init : B) : B :=
  reduce_from f 0 arr init.

(** [arr.join(sep)] on an array of optional strings: an undefined element
    is joined as the empty string. *)
Fixpoint join (sep : string) (arr : list (option string)) : string :=
  match arr with
  | [] => EmptyString
  | [x] => default EmptyString x
  | x :: rest => default EmptyString x +:+ sep +:+ join sep rest
  end.

(** A template literal's rendering of an optional string property. *)
Definition template (p : option string) : string :=
  default "undefined"%string p.

(** [arr.every(p)]. *)
Definition every {A : Type} (p : A -> bool) (arr : list A) : bool :=
  forallb p arr.

(** [Array.prototype.sort(comparefn)].  The comparator's answer [v] is
    used through its sign only, and a NaN answer counts as 0; [after x y]
    says that the comparator puts [x] after [y] ([v > 0]).  The sort is
    stable (ECMAScript 2019), so for a consistent comparator its result is
    determined; it is written here as insertion from the right, which
    inserts an element before the first element that is not strictly
    before it.  A comparator such as [(a, b) => a - b] is consistent on
    numbers other than NaN only: with NaN among the elements the order is
    left to the engine and need not be this one. *)
Section Sort.
Context {A : Type} (after : A -> A -> bool).

Fixpoint insertSorted (x : A) (sorted : list A) : list A :=
  match sorted with
  | [] => [x]
  | y :: rest => if after x y then y :: insertSorted x rest else x :: sorted
  end.

Fixpoint sort_after (arr : list A) : list A :=
  match arr with
  | [] => []
  | x :: rest => insertSorted x (sort_after rest)
  end.
End Sort.

(** A comparator that returns a number, as in [(a, b) => a - b]. *)
Definition sort {A : Type} (comparefn : A -> A -> float) (arr : list A)
  : list A :=
  sort_after (fun x y => PrimFloat.ltb 0 (comparefn x y)) arr.

(** A comparator that returns an integer (a difference of indices). *)
Definition sortZ {A : Type} (comparefn : A -> A -> Z) (arr : list A)
  : list A :=
  sort_after (fun x y => Z.ltb 0 (comparefn x y)) arr.

(** [arr.slice(0, end)] for an integer [end]: a negative [end] counts
    from the end of the array. *)
Definition slice0 {A : Type} (arr : list A) (end_ : Z) : list A :=
  let len := Z.of_nat (length arr) in
  let final := if (end_ <? 0)%Z then Z.max (len + end_) 0
               else Z.min end_ len in
  firstn (Z.to_nat final) arr.

(** [Math.min(...values)] and [Math.max(...values)]: NaN if any argument
    is NaN, and -0 is below +0. *)
Definition min2 (a b : float) : float :=
  if PrimFloat.is_nan a || PrimFloat.is_nan b then PrimFloat.nan
  else if PrimFloat.ltb a b then a
  else if PrimFloat.ltb b a then b
  else if PrimFloat.get_sign a then a else b.

Definition max2 (a b : float) : float :=
  if PrimFloat.is_nan a || PrimFloat.is_nan b then PrimFloat.nan
  else if PrimFloat.ltb a b then b
  else if PrimFloat.ltb b a then a
  else if PrimFloat.get_sign a then b else a.

Definition Math_min (values : list float) : float :=
  fold_left min2 values PrimFloat.infinity.

Definition Math_max (values : list float) : float :=
  fold_left max2 values PrimFloat.neg_infinity.

(** [record[key] = v] for a number [v], on a record created as the object
    literal [{}] and seen as the map of its own properties that hold a
    number.  The key '__proto__' names the prototype accessor that the
    record inherits, whose setter ignores a number: the assignment creates
    no property. *)
Definition setNumber (key : string) (v : float) (record : gmap string float)
  : gmap string float :=
  if String.eqb key "__proto__" then record else <[key := v]> record.

End Js.

(** The field record [{ name, type, value }] of the data model.  [name] and
    [type] are strings when present; [value] is any run-time value. *)
Record DataField : Type := mkField {
  name : option string;
  type : option string;
  value : Js.JsVal
}.

(** ** DataAnalyzer.tsx: the utility functions for calculations *)

Module DataAnalyzer.
Import Js.
Section WithPow.
(** [Math.pow], which ECMAScript leaves implementation-approximated. *)
Variable Math_pow : float -> float -> float.

Definition calculateMean (values : list float) : float :=
  if Nat.eqb (length values) 0 then 0%float
  else
    (reduce (fun sum val _ => sum + val) values 0 / of_nat (length values))%float.

Definition calculateMedian (values : list float) : float :=
  if Nat.eqb (length values) 0 then 0%float
  else
    let sorted := sort (fun a b => a - b)%float values in
    let middle := Nat.div (length sorted) 2 in
    if Nat.eqb (Nat.modulo (length sorted) 2) 0
    then ((index sorted (middle - 1) + index sorted middle) / 2)%float
    else index sorted middle.

Definition calculateStdDev (values : list float) : float :=
  if Nat.eqb (length values) 0 then 0%float
  else
    let mean := calculateMean values in
    let squaredDiffs := map (fun val => Math_pow (val - mean) 2)%float values in
    PrimFloat.sqrt (calculateMean squaredDiffs).
End WithPow.
End DataAnalyzer.





(** ** AnalysisEngine: validation, descriptive statistics, Pearson correlation *)

Module AnalysisEngine.
Import Js.

Record DescriptiveStats : Type := mkStats {
  mean : float;
  median : float;
  standardDeviation : float;
  min : float;
  max : float
}.

Section WithEnv.
(** [createError(code, message)] is imported from '@/utils/core/error',
    which is not part of the sources at hand: the type of the errors it
    builds and the function itself are parameters. *)
Variable E : Type.
Variable createError : string -> string -> E.
(** The native TypeError raised by calling [every] on a value that has no
    such method. *)
Variable typeError : E.
Variable Math_pow : float -> float -> float.

Definition validateFields (fields : list DataField) : Completion E unit :=
  if Nat.eqb (length fields) 0
  then Throw (createError "VALIDATION_ERROR" "No fields provided for analysis")
  else
    let invalidFields :=
      List.filter (fun field => negb (truthy_str (name field))
                           || negb (truthy_str (type field))
                           || negb (Array_isArray (value field))) fields in
    if Nat.ltb 0 (length invalidFields)
    then Throw (createError "VALIDATION_ERROR"
                  ("Invalid fields found: "
                   +:+ join ", " (map name invalidFields)))
    else Normal tt.

(** [typeof v === 'number' && !isNaN(v)]. *)
Definition isValidNumber (v : JsVal) : bool :=
  match v with
  | JNumber n => negb (isNaN n)
  | _ => false
  end.

(** [field.value as number[]], read after [isValidNumber] has held of
    every element. *)
Definition asNumber (v : JsVal) : float :=
  match v with
  | JNumber n => n
  | _ => PrimFloat.nan
  end.

(** The body of the [forEach] callback of [calculateDescriptiveStats]. *)
Definition describeField (field : DataField) : Completion E DescriptiveStats :=
  let noData :=
    Throw (createError "VALIDATION_ERROR"
             ("Field " +:+ template (name field) +:+ " has no valid data")) in
  match value field with
  | JArray elems =>
      if Nat.eqb (length elems) 0 then noData
      else if negb (every isValidNumber elems)
      then Throw (createError "VALIDATION_ERROR"
                    ("Field " +:+ template (name field)
                     +:+ " contains non-numeric values"))
      else
        let values := map asNumber elems in
        let sum := reduce (fun a b _ => a + b)%float values 0%float in
        let mean := (sum / of_nat (length values))%float in
        let sorted := sort (fun a b => a - b)%float values in
        let median := index sorted (Nat.div (length sorted) 2) in
        let squaredDiffs := map (fun x => Math_pow (x - mean) 2)%float values in
        let variance :=
          (reduce (fun a b _ => a + b) squaredDiffs 0 / of_nat (length values))%float in
        let stdDev := PrimFloat.sqrt variance in
        Normal (mkStats mean median stdDev (Math_min values) (Math_max values))
  | other =>
      (* a falsy value has no data; a truthy value that is no array has no
         length equal to 0 and no method [every] *)
      if negb (truthy other) then noData else Throw typeError
  end.

(** [calculateDescriptiveStats]: the record [stats] is filled field by
    field, and the first throwing field ends the loop. *)
Definition calculateDescriptiveStats (fields : list DataField)
  : Completion E (gmap string DescriptiveStats) :=
  fold_left
    (fun acc field =>
       bind acc (fun stats =>
       bind (describeField field) (fun s =>
       Normal (<[template (name field) := s]> stats))))
    fields (Normal ∅).

Definition calculatePearsonCorrelation (x y : list float) : float :=
  let n := of_nat (length x) in
  let sumX := reduce (fun a b _ => a + b)%float x 0%float in
  let sumY := reduce (fun a b _ => a + b)%float y 0%float in
  let sumXY := reduce (fun sum xi i => sum + xi * index y i)%float x 0%float in
  let sumX2 := reduce (fun sum xi _ => sum + xi * xi)%float x 0%float in
  let sumY2 := reduce (fun sum yi _ => sum + yi * yi)%float y 0%float in
  let numerator := (n * sumXY - sumX * sumY)%float in
  let denominator :=
    PrimFloat.sqrt ((n * sumX2 - sumX * sumX) * (n * sumY2 - sumY * sumY))%float in
  if PrimFloat.eqb denominator 0 then 0%float
  else (numerator / denominator)%float.

End WithEnv.
End AnalysisEngine.

(** ** StatsSummary.tsx: the statistics of one field *)

Module StatsSummary.
Import Js.

(** The statistics that [calculateFieldStats] adds for a field of type
    'number'; the optional properties stay undefined ([None]) when no
    value is left after the NaN filter. *)
Record FieldStats : Type := mkFieldStats {
  count : nat;
  missing : nat;
  mean : option float;
  median : option float;
  min : option float;
  max : option float;
  stdDev : option float
}.

Section WithPow.
Variable Math_pow : float -> float -> float.

(** The branch [field.type === 'number'] of the [map] callback of
    [calculateFieldStats], for a field whose value is the number array
    [values]. *)
Definition calculateFieldStats (values : list float) : FieldStats :=
  let numericValues := List.filter (fun v => negb (isNaN v)) values in
  let missing := length values - length numericValues in
  if Nat.ltb 0 (length numericValues) then
    let sorted := sort (fun a b => a - b)%float numericValues in
    let mean :=
      (reduce (fun a b _ => a + b) numericValues 0
       / of_nat (length numericValues))%float in
    mkFieldStats (length values) missing
      (Some mean)
      (Some (index sorted (Nat.div (length sorted) 2)))
      (Some (index sorted 0))
      (Some (index sorted (length sorted - 1)))
      (Some (PrimFloat.sqrt
               (reduce (fun a b _ => a + Math_pow (b - mean) 2) numericValues 0
                / of_nat (length numericValues))%float))
  else mkFieldStats (length values) missing None None None None None.

End WithPow.
End StatsSummary.

(** ** Number.prototype.toFixed, as formatting.ts calls it *)

Module Number.

(** The character of a decimal digit. *)
Definition digit (d : Z) : ascii := ascii_of_nat (48 + Z.to_nat d).

(** The decimal digits of a non-negative integer, most significant first,
    and "0" for 0.  The fuel given by [decimal] is enough: a number has no
    more decimal digits than binary ones. *)
Fixpoint digitsFrom (fuel : nat) (n : Z) (acc : list ascii) : list ascii :=
  match fuel with
  | O => acc
  | S fuel' =>
      if (n <? 10)%Z then digit n :: acc
      else digitsFrom fuel' (n / 10)%Z (digit (n mod 10)%Z :: acc)
  end.

Definition decimal (n : Z) : list ascii :=
  digitsFrom (S (Z.to_nat (Z.log2 n))) n [].

(** [toFixed], the fixed notation: the digits of [n], padded with zeros
    to [f + 1] digits when they are at most [f], with the point before
    the last [f] of them. *)
Definition fixedDigits (n : Z) (f : nat) : list ascii :=
  let m := decimal n in
  let m := if Nat.leb (length m) f
           then repeat "0"%char (f + 1 - length m) ++ m else m in
  let k := length m in
  if Nat.eqb f 0 then m
  else firstn (k - f) m ++ "."%char :: skipn (k - f) m.

(** [toFixed]: "let n be an integer for which n / 10^f - x is as close to
    zero as possible; if there are two such n, pick the larger", for the
    magnitude x = m * 2^e. *)
Definition nearest (m : positive) (e : Z) (f : nat) : Z :=
  let scale := (10 ^ Z.of_nat f)%Z in
  if (0 <=? e)%Z then (Z.pos m * 2 ^ e * scale)%Z
  else ((2 * Z.pos m * scale + 2 ^ (- e)) / 2 ^ (1 - e))%Z.

(** Whether the integer [c] is a real number that binary64 rounds to
    m * 2^e (to nearest, ties to even), for an exponent [e] of at least 2,
    as every number from 10^21 on has: the numbers next to m * 2^e are
    2^e away, but the one below a power of two is 2^(e - 1) away. *)
Definition roundsHere (m : positive) (e : Z) (c : Z) : bool :=
  let v := (Z.pos m * 2 ^ e)%Z in
  let up := (2 ^ (e - 1))%Z in
  let down :=
    if (Z.pos m =? 2 ^ 52)%Z then (2 ^ (e - 2))%Z else (2 ^ (e - 1))%Z in
  if Z.even (Z.pos m)
  then (v - down <=? c)%Z && (c <=? v + up)%Z
  else (v - down <? c)%Z && (c <? v + up)%Z.

(** Number::toString: integers [s] and [n] with [k] digits in [s], for
    which s * 10^(n - k) rounds to the number and [k] is as small as
    possible; of two candidates with the same [k], the one nearer to the
    number.  [k] runs from 1; seventeen digits always suffice. *)
Fixpoint shortestFrom (fuel : nat) (m : positive) (e : Z) (n k : Z) : Z * Z :=
  let v := (Z.pos m * 2 ^ e)%Z in
  let p := (10 ^ (n - k))%Z in
  let below := (v / p)%Z in
  let above := (below + 1)%Z in
  let pick (s : Z) := if (s =? 10 ^ k)%Z then (1, n + 1)%Z else (s, n) in
  match fuel with
  | O => pick below
  | S fuel' =>
      match roundsHere m e (below * p), roundsHere m e (above * p) with
      | true, true =>
          match (v - below * p ?= above * p - v)%Z with
          | Lt => pick below
          | Gt => pick above
          | Eq => if Z.even below then pick below else pick above
          end
      | true, false => pick below
      | false, true => pick above
      | false, false => shortestFrom fuel' m e n (k + 1)%Z
      end
  end.

(** Number::toString of m * 2^e >= 10^21: the exponent notation, as in
    1e+21 and 1.5e+300. *)
Definition exponential (m : positive) (e : Z) : string :=
  let v := (Z.pos m * 2 ^ e)%Z in
  let '(s, n) := shortestFrom 16 m e (Z.of_nat (length (decimal v))) 1 in
  match decimal s with
  | [] => EmptyString
  | [d] =>
      string_of_list_ascii [d] +:+ "e+" +:+ string_of_list_ascii (decimal (n - 1))
  | d :: rest =>
      string_of_list_ascii (d :: "."%char :: rest) +:+ "e+"
      +:+ string_of_list_ascii (decimal (n - 1))
  end.

(** [x.toFixed(fractionDigits)] for 0 <= fractionDigits <= 100: a number
    that is not finite is rendered by Number::toString; a magnitude from
    10^21 on, too, in exponent notation; below, the fixed notation.  Both
    zeros are rendered without sign. *)
Definition toFixed (x : float) (fractionDigits : nat) : string :=
  match Prim2SF x with
  | S754_nan => "NaN"
  | S754_infinity negative => if negative then "-Infinity" else "Infinity"
  | S754_zero _ => string_of_list_ascii (fixedDigits 0 fractionDigits)
  | S754_finite negative m e =>
      (if negative then "-" else EmptyString)
      +:+ (if PrimFloat.leb 1e21 (PrimFloat.abs x) then exponential m e
           else string_of_list_ascii
                  (fixedDigits (nearest m e fractionDigits) fractionDigits))
  end%string.

End Number.

(** ** utils/analysis/formatting.ts *)

Module Formatting.
Import Js.

Definition formatNumber (value : JsVal) : string :=
  match value with
  | JNumber v =>
      if negb (isFinite v) then "0.00"
      else if PrimFloat.leb 1000000 (PrimFloat.abs v)
      then Number.toFixed (v / 1000000)%float 2 +:+ "M"
      else if PrimFloat.leb 1000 (PrimFloat.abs v)
      then Number.toFixed (v / 1000)%float 2 +:+ "K"
      else Number.toFixed v 2
  | _ => "0.00"
  end.

End Formatting.

(** ** NLQuerySection.tsx: handleQuery *)

Module NLQuerySection.
Import Js.

(** What a [catch] clause can receive: an instance of [Error], of which
    only the message is read, or any other value. *)
Inductive Thrown : Type :=
| ErrorInstance (message : string)
| NotAnError (v : JsVal).

Section WithProcessor.
(** [processNaturalLanguageQuery] is imported from
    '@/utils/analysis/nlp/queryProcessor', which is not part of the sources
    at hand.  Awaiting its promise either yields a result or throws the
    value the promise was rejected with. *)
Variable Result : Type.
Variable processNaturalLanguageQuery :
  string -> list DataField -> Completion Thrown Result.

(** The two state cells of the component. *)
Inductive Response : Type :=
| Answer (result : Result)
| ErrorResponse (error : string).

Record State : Type := mkState {
  isLoading : bool;
  response : option Response
}.

(** Statements of the handler: they update the component state and
    complete normally or abruptly. *)
Definition Stmt (A : Type) : Type := State -> State * Completion Thrown A.

Definition ret {A} (a : A) : Stmt A := fun st => (st, Normal a).

Definition seq_ {A B} (c : Stmt A) (k : A -> Stmt B) : Stmt B :=
  fun st =>
    match c st with
    | (st', Normal a) => k a st'
    | (st', Throw e) => (st', Throw e)
    end.

Definition await {A} (c : Completion Thrown A) : Stmt A := fun st => (st, c).

Definition setIsLoading (b : bool) : Stmt unit :=
  fun st => (mkState b (response st), Normal tt).

Definition setResponse (r : Response) : Stmt unit :=
  fun st => (mkState (isLoading st) (Some r), Normal tt).

(** [try { body } catch (error) { handler } finally { finalizer }]: the
    finalizer runs in every case, and its own abrupt completion replaces
    the one that was pending. *)
Definition try_catch_finally {A} (body : Stmt A) (handler : Thrown -> Stmt A)
  (finalizer : Stmt unit) : Stmt A :=
  fun st =>
    let '(st1, c1) :=
      match body st with
      | (st', Normal a) => (st', Normal a)
      | (st', Throw e) => handler e st'
      end in
    match finalizer st1 with
    | (st2, Normal _) => (st2, c1)
    | (st2, Throw e) => (st2, Throw e)
    end.

(** [error instanceof Error ? error.message : 'Failed to process query']. *)
Definition errorMessage (error : Thrown) : string :=
  match error with
  | ErrorInstance message => message
  | NotAnError _ => "Failed to process query"
  end.

Definition handleQuery (fields : list DataField) (query : string) : Stmt unit :=
  seq_ (setIsLoading true) (fun _ =>
  try_catch_finally
    (seq_ (await (processNaturalLanguageQuery query fields)) (fun result =>
     setResponse (Answer result)))
    (fun error => setResponse (ErrorResponse (errorMessage error)))
    (setIsLoading false)).

End WithProcessor.
End NLQuerySection.

(** ** CorrelationMatrix.tsx: the memoised [correlations] map *)

Module CorrelationMatrix.
Import Js.

(** [!!values?.length]: the value has a length, and it is not 0. *)
Definition hasLength (values : JsVal) : bool :=
  match values with
  | JArray elems => negb (Nat.eqb (length elems) 0)
  | JString s => negb (Nat.eqb (String.length s) 0)
  | _ => false
  end.

(** [`${field1.name}_${field2.name}`]. *)
Definition key (field1 field2 : DataField) : string :=
  template (name field1) +:+ "_" +:+ template (name field2).

Section WithCorrelation.
(** [calculateCorrelation] is imported from
    '@/utils/analysis/statistics/correlation', which is not part of the
    sources at hand; the call sits in a [try], so it may throw. *)
Variable E : Type.
Variable calculateCorrelation : JsVal -> JsVal -> Completion E float.

Definition numericFields (fields : list DataField) : list DataField :=
  List.filter (fun f => bool_decide (type f = Some "number"%string)) fields.

(** The body of the inner loop, at indices [i] and [j]. *)
Definition cell (numeric : list DataField) (matrix : gmap string float)
  (i j : nat) : gmap string float :=
  match numeric !! i, numeric !! j with
  | Some field1, Some field2 =>
      let values1 := value field1 in
      let values2 := value field2 in
      if negb (hasLength values1) || negb (hasLength values2) then matrix
      else
        let key12 := key field1 field2 in
        if Nat.eqb i j then setNumber key12 1%float matrix
        else if Nat.ltb i j then
          match calculateCorrelation values1 values2 with
          | Normal c =>
              let matrix := setNumber key12 c matrix in
              (* [matrix[mirrored] = matrix[key]]: under '__proto__' the
                 record reads its prototype, an object, so the mirrored
                 property then holds no number *)
              match matrix !! key12 with
              | Some mirrored => setNumber (key field2 field1) mirrored matrix
              | None => delete (key field2 field1) matrix
              end
          | Throw _ =>
              setNumber (key field2 field1) 0%float
                (setNumber key12 0%float matrix)
          end
        else matrix
  | _, _ => matrix
  end.

Definition row (numeric : list DataField) (matrix : gmap string float)
  (i : nat) : gmap string float :=
  fold_left (fun m j => cell numeric m i j) (seq 0 (length numeric)) matrix.

Definition correlations (fields : list DataField) : gmap string float :=
  let numeric := numericFields fields in
  if Nat.ltb (length numeric) 2 then ∅
  else fold_left (row numeric) (seq 0 (length numeric)) ∅.

End WithCorrelation.

(** The three effects that one pass through the loop body can have on the
    map when no key is '__proto__': none, the diagonal entry of a field,
    or the two entries of a pair of fields. *)
Inductive CellEffect (numeric : list DataField) (m : gmap string float)
  (i j : nat) : gmap string float -> Prop :=
| Unchanged : CellEffect numeric m i j m
| Diagonal f :
    numeric !! i = Some f -> i = j -> hasLength (value f) = true ->
    CellEffect numeric m i j (<[key f f := 1%float]> m)
| Pair f1 f2 c :
    numeric !! i = Some f1 -> numeric !! j = Some f2 -> i < j ->
    hasLength (value f1) = true -> hasLength (value f2) = true ->
    CellEffect numeric m i j (<[key f2 f1 := c]> (<[key f1 f2 := c]> m)).

(** The keys of the fields [numeric] determine the two names they were
    built from: no two pairs of fields with different names share a key. *)
Definition keysDetermineNames (numeric : list DataField) : Prop :=
  forall f1 f2 g1 g2,
    In f1 numeric -> In f2 numeric -> In g1 numeric -> In g2 numeric ->
    key f1 f2 = key g1 g2 ->
    template (name f1) = template (name g1)
    /\ template (name f2) = template (name g2).

(** No key of two of the fields is the string '__proto__', under which an
    object literal stores no number ([setNumber]). *)
Definition noPrototypeKey (numeric : list DataField) : Prop :=
  forall f1 f2, In f1 numeric -> In f2 numeric -> key f1 f2 <> "__proto__"%string.

End CorrelationMatrix.

(** ** TextSummarization.tsx: sentence splitting, scoring and selection *)

Module TextSummarization.
Import Js.

(** *** Characters and the string methods the component calls *)

Definition code (c : ascii) : nat := nat_of_ascii c.

(** The line terminators, which [.] does not match. *)
Definition isLineTerminator (c : ascii) : bool :=
  Nat.eqb (code c) 10 || Nat.eqb (code c) 13.

(** [\s], and what [trim] removes: tab, line feed, vertical tab, form feed,
    carriage return, space and no-break space. *)
Definition isWhiteSpace (c : ascii) : bool :=
  (Nat.leb 9 (code c) && Nat.leb (code c) 13)
  || Nat.eqb (code c) 32 || Nat.eqb (code c) 160.

(** [\w]: letters, digits and the underscore. *)
Definition isWordChar (c : ascii) : bool :=
  (Nat.leb 65 (code c) && Nat.leb (code c) 90)
  || (Nat.leb 97 (code c) && Nat.leb (code c) 122)
  || (Nat.leb 48 (code c) && Nat.leb (code c) 57)
  || Nat.eqb (code c) 95.

Definition toLowerCaseChar (c : ascii) : ascii :=
  if (Nat.leb 65 (code c) && Nat.leb (code c) 90)
     || (Nat.leb 192 (code c) && Nat.leb (code c) 222
         && negb (Nat.eqb (code c) 215))
  then ascii_of_nat (code c + 32)
  else c.

Definition toLowerCase (s : string) : string :=
  string_of_list_ascii (map toLowerCaseChar (list_ascii_of_string s)).

Fixpoint dropWhile (p : ascii -> bool) (l : list ascii) : list ascii :=
  match l with
  | [] => []
  | c :: rest => if p c then dropWhile p rest else l
  end.

Definition trimChars (l : list ascii) : list ascii :=
  rev (dropWhile isWhiteSpace (rev (dropWhile isWhiteSpace l))).

Definition trim (s : string) : string :=
  string_of_list_ascii (trimChars (list_ascii_of_string s)).

(** [new RegExp(source, 'g')] for the sources used here, which hold
    ordinary characters and the dot only. *)
Inductive Atom : Type :=
| Lit (c : ascii)
| Dot.

Definition regExp (source : string) : list Atom :=
  map (fun c => if Ascii.eqb c "."%char then Dot else Lit c)
      (list_ascii_of_string source).

Definition atomMatches (a : Atom) (c : ascii) : bool :=
  match a with
  | Lit d => Ascii.eqb c d
  | Dot => negb (isLineTerminator c)
  end.

Fixpoint matchesAt (pattern : list Atom) (s : list ascii) : bool :=
  match pattern, s with
  | [], _ => true
  | _ :: _, [] => false
  | a :: pattern', c :: s' => atomMatches a c && matchesAt pattern' s'
  end.

(** [s.replace(pattern, replacement)] with a global, non-empty pattern:
    matches are looked for from left to right and do not overlap; [skip]
    counts the characters of the current match still to be passed. *)
Fixpoint replaceFrom (pattern : list Atom) (replacement : list ascii)
  (skip : nat) (s : list ascii) : list ascii :=
  match s with
  | [] => []
  | c :: rest =>
      match skip with
      | S k => replaceFrom pattern replacement k rest
      | O =>
          if matchesAt pattern s
          then replacement ++ replaceFrom pattern replacement (length pattern - 1) rest
          else c :: replaceFrom pattern replacement 0 rest
      end
  end.

Definition replace (pattern : list Atom) (replacement : string) (s : string)
  : string :=
  string_of_list_ascii
    (replaceFrom pattern (list_ascii_of_string replacement) 0
       (list_ascii_of_string s)).

(** [s.replace(/[^\w\s']/g, '')]. *)
Definition removePunctuation (s : string) : string :=
  string_of_list_ascii
    (List.filter (fun c => isWordChar c || isWhiteSpace c || Ascii.eqb c "'"%char)
       (list_ascii_of_string s)).

(** [s.split(/\s+/)]: the pieces between maximal runs of white space,
    the empty pieces at both ends included. *)
Fixpoint splitFrom (s : list ascii) (piece : list ascii) (inSeparator : bool)
  : list string :=
  match s with
  | [] => [string_of_list_ascii (rev piece)]
  | c :: rest =>
      if isWhiteSpace c then
        if inSeparator then splitFrom rest piece true
        else string_of_list_ascii (rev piece) :: splitFrom rest [] true
      else splitFrom rest (c :: piece) false
  end.

Definition splitWhiteSpace (s : string) : list string :=
  splitFrom (list_ascii_of_string s) [] false.

(** [s.match(/[^.!?]+[.!?]+/g) || []]: a match is a maximal run of
    characters other than [.], [!], [?] followed by a maximal run of
    these; [body] and [marks] hold the two runs of the match in progress,
    last character first. *)
Definition isEndMark (c : ascii) : bool :=
  Ascii.eqb c "."%char || Ascii.eqb c "!"%char || Ascii.eqb c "?"%char.

Fixpoint matchFrom (s : list ascii) (body marks : list ascii) : list string :=
  match s with
  | [] =>
      match marks with
      | [] => []
      | _ :: _ => [string_of_list_ascii (rev body ++ rev marks)]
      end
  | c :: rest =>
      if isEndMark c then
        match body with
        | [] => matchFrom rest [] []
        | _ :: _ => matchFrom rest body (c :: marks)
        end
      else
        match marks with
        | [] => matchFrom rest (c :: body) []
        | _ :: _ =>
            string_of_list_ascii (rev body ++ rev marks) :: matchFrom rest [c] []
        end
  end.

Definition matchSentences (s : string) : list string :=
  matchFrom (list_ascii_of_string s) [] [].

(** *** splitSentences *)

Definition abbrev : list string :=
  ["Mr."; "Mrs."; "Dr."; "Prof."; "e.g."; "i.e."; "etc."; "vs."]%string.

Definition placeholders : list string :=
  imap (fun i _ => "ABBREV" +:+ pretty i) abbrev.

Definition splitSentences (text : string) : list string :=
  let processedText :=
    fold_left (fun processed '(abbr, placeholder) =>
                 replace (regExp abbr) placeholder processed)
      (combine abbrev placeholders) text in
  let sentences := matchSentences processedText in
  map (fun sentence =>
         let restored :=
           fold_left (fun restored '(abbr, placeholder) =>
                        replace (regExp placeholder) abbr restored)
             (combine abbrev placeholders) sentence in
         trim restored)
      sentences.

(** *** generateSummary *)

Record ScoredSentence : Type := mkScored {
  text : string;
  score : float;
  position : nat
}.

Definition stopWords : list string :=
  ["the"; "and"; "a"; "an"; "in"; "on"; "at"; "to"; "for"; "of"; "with";
   "is"; "are"; "was"; "were"]%string.

(** [s.toLowerCase().replace(/[^\w\s']/g, '').split(/\s+/)
      .filter(word => word.length > 2 && !stopWords.has(word))]. *)
Definition significantWords (s : string) : list string :=
  List.filter (fun word => Nat.ltb 2 (String.length word)
                      && negb (bool_decide (word ∈ stopWords)))
    (splitWhiteSpace (removePunctuation (toLowerCase s))).

(** The [Map] of word frequencies. *)
Definition countWords (words : list string) : gmap string nat :=
  fold_left (fun wordFreq word => <[word := default 0 (wordFreq !! word) + 1]> wordFreq)
    words ∅.

Definition scoreSentence (wordFreq : gmap string nat) (sentenceCount : nat)
  (idx : nat) (sentence : string) : ScoredSentence :=
  let sentenceWords := significantWords sentence in
  let frequencyScore :=
    (reduce (fun sum word _ => sum + of_nat (default 0%nat (wordFreq !! word)))
       sentenceWords 0
     / of_nat (Nat.max 1 (length sentenceWords)))%float in
  let lengthScore :=
    (1 - PrimFloat.abs (of_nat (length sentenceWords) - 15) / 15)%float in
  let positionScore :=
    if Nat.eqb idx 0 || Nat.eqb idx (sentenceCount - 1) then 1.25%float
    else (0.8 + 0.4 * (of_nat idx / of_nat sentenceCount))%float in
  let totalScore :=
    (frequencyScore * 0.6 + lengthScore * 0.2 + positionScore * 0.2)%float in
  mkScored (trim sentence) totalScore idx.

(** The part of [generateSummary] up to [setSummary(topSentences)]; the
    statistics computed in between cannot throw.  [texts] is the string
    array [field.value]; [Throw message] stands for the [catch] clause
    running [setError(message)]. *)
Definition generateSummary (texts : list string) (maxSentences : Z)
  : Completion string (list ScoredSentence) :=
  let fullText := join " " (map Some texts) in
  if Nat.eqb (String.length (trim fullText)) 0
  then Throw "Input text is empty"%string
  else
    let sentences := splitSentences fullText in
    if Nat.eqb (length sentences) 0
    then Throw "No valid sentences found in text"%string
    else
      let wordFreq := countWords (significantWords fullText) in
      let scoredSentences :=
        imap (scoreSentence wordFreq (length sentences)) sentences in
      let topSentences :=
        sortZ (fun a b => Z.of_nat (position a) - Z.of_nat (position b))%Z
          (slice0 (sort (fun a b => score b - score a)%float scoredSentences)
             maxSentences) in
      Normal topSentences.

End TextSummarization.

(** ** Reference calculations, written from the specification's words *)

Module Reference.
Import Js.

(** The sum of a list of numbers, taken from left to right. *)
Fixpoint sumFrom (acc : float) (values : list float) : float :=
  match values with
  | [] => acc
  | v :: rest => sumFrom (acc + v)%float rest
  end.

Definition sum (values : list float) : float := sumFrom 0%float values.

(** The mean: the sum of the values divided by their count. *)
Definition mean (values : list float) : float :=
  (sum values / of_nat (length values))%float.

(** The values in ascending order. *)
Definition ascending (values : list float) : list float :=
  sort (fun a b => a - b)%float values.

(** The median: the middle element of the sorted values when the count is
    odd, the average of the two middle elements when it is even. *)
Definition median (values : list float) : float :=
  let sorted := ascending values in
  let half := Nat.div (length values) 2 in
  if Nat.odd (length values) then index sorted half
  else ((index sorted (half - 1) + index sorted half) / 2)%float.

(** The products and the squares that the Pearson formula sums. *)
Fixpoint products (x y : list float) : list float :=
  match x, y with
  | xi :: x', yi :: y' => (xi * yi)%float :: products x' y'
  | _, _ => []
  end.

Definition squares (x : list float) : list float :=
  map (fun xi => xi * xi)%float x.

(** (n Σxy − Σx Σy) / sqrt((n Σx² − (Σx)²) (n Σy² − (Σy)²)). *)
Definition pearsonNumerator (x y : list float) : float :=
  (of_nat (length x) * sum (products x y) - sum x * sum y)%float.

Definition pearsonDenominator (x y : list float) : float :=
  PrimFloat.sqrt
    ((of_nat (length x) * sum (squares x) - sum x * sum x)
     * (of_nat (length x) * sum (squares y) - sum y * sum y))%float.

Definition pearson (x y : list float) : float :=
  (pearsonNumerator x y / pearsonDenominator x y)%float.

(** The exact value of a finite number, as a rational: m * 2^e with its
    sign, and 0 for the zeros (and for what is not finite). *)
Definition exact (v : float) : Q :=
  match Prim2SF v with
  | S754_finite s m e =>
      ((if s then -1 else 1) * inject_Z (Z.pos m) * Qpower 2 e)%Q
  | _ => 0%Q
  end.

Definition exactSum (values : list Q) : Q := fold_right Qplus 0%Q values.

(** The product under the square root of the formula's denominator,
    (n Σx² − (Σx)²) (n Σy² − (Σy)²), in exact arithmetic. *)
Definition exactRadicand (x y : list float) : Q :=
  let n := inject_Z (Z.of_nat (length x)) in
  let xs := map exact x in
  let ys := map exact y in
  ((n * exactSum (map (fun a => a * a) xs) - exactSum xs * exactSum xs)
   * (n * exactSum (map (fun a => a * a) ys) - exactSum ys * exactSum ys))%Q.

(** [n / 10^digits] is a decimal number with [digits] decimals nearest to
    the magnitude of [x], which is m * 2^e exactly:
    |n / 10^digits - m * 2^e| <= 1 / (2 * 10^digits). *)
Definition nearestDecimal (n : Z) (digits : nat) (x : float) : Prop :=
  match Prim2SF x with
  | S754_zero _ => n = 0%Z
  | S754_finite _ m e =>
      if (0 <=? e)%Z then n = (Z.pos m * 2 ^ e * 10 ^ Z.of_nat digits)%Z
      else (2 * Z.abs (n * 2 ^ (- e) - Z.pos m * 10 ^ Z.of_nat digits)
            <= 2 ^ (- e))%Z
  | _ => False
  end.

(** [n] hundredths written with two decimals: the sign, the digits of the
    integer part n / 100, the point, and the two digits of n mod 100. *)
Definition twoDecimals (negative : bool) (n : Z) : string :=
  (if negative then "-" else EmptyString)
  +:+ string_of_list_ascii
        (Number.decimal (n / 100)
         ++ "."%char
            :: [Number.digit (n / 10 mod 10); Number.digit (n mod 10)]).

(** The number that a string of decimal digits denotes. *)
Definition valueOf (digits : list ascii) : Z :=
  fold_left (fun acc c => (10 * acc + (Z.of_nat (nat_of_ascii c) - 48))%Z)
    digits 0%Z.

End Reference.

(** A field of type 'number' that holds the given numbers. *)
Definition numberField (fieldName : string) (values : list float) : DataField :=
  mkField (Some fieldName) (Some "number"%string)
    (Js.JArray (map Js.JNumber values)).

(** A concrete runtime, for evaluating the definitions above: errors are
    the pairs of a code and a message, and [Math.pow(x, 2)] is the rounded
    product [x * x]. *)
Module Sample.
Definition createError (code message : string) : string * string :=
  (code, message).
Definition typeError : string * string :=
  ("TypeError", "values.every is not a function")%string.
Definition Math_pow (base exponent : float) : float := (base * base)%float.

(** A possible [calculateCorrelation]: the Pearson correlation of two
    arrays of numbers, and a TypeError on anything else. *)
Definition calculateCorrelation (values1 values2 : Js.JsVal)
  : Js.Completion (string * string) float :=
  match values1, values2 with
  | Js.JArray x, Js.JArray y =>
      Js.Normal (AnalysisEngine.calculatePearsonCorrelation
                   (map AnalysisEngine.asNumber x) (map AnalysisEngine.asNumber y))
  | _, _ => Js.Throw typeError
  end.

End Sample.

(** The three copies of the statistical routines return equal mean, equal
    median and equal standard deviation on the list [values]. *)
Definition sameStatistics (E : Type) (createError : string -> string -> E)
  (typeError : E) (Math_pow : float -> float -> float) (values : list float)
  : Prop :=
  exists st,
    AnalysisEngine.describeField E createError typeError Math_pow
      (numberField "f" values) = Js.Normal st
    /\ AnalysisEngine.mean st = DataAnalyzer.calculateMean values
    /\ AnalysisEngine.median st = DataAnalyzer.calculateMedian values
    /\ AnalysisEngine.standardDeviation st
       = DataAnalyzer.calculateStdDev Math_pow values
    /\ StatsSummary.mean (StatsSummary.calculateFieldStats Math_pow values)
       = Some (DataAnalyzer.calculateMean values)
    /\ StatsSummary.median (StatsSummary.calculateFieldStats Math_pow values)
       = Some (DataAnalyzer.calculateMedian values)
    /\ StatsSummary.stdDev (StatsSummary.calculateFieldStats Math_pow values)
       = Some (DataAnalyzer.calculateStdDev Math_pow values).

(** The fields that [validateFields] lets pass: a non-empty name, a
    non-empty type and an array as value. *)
Definition wellFormed (field : DataField) : bool :=
  Js.truthy_str (name field) && Js.truthy_str (type field)
  && Js.Array_isArray (value field).

(** The string holds no underscore. *)
Fixpoint noUnderscore (s : string) : bool :=
  match s with
  | EmptyString => true
  | String c rest => negb (Ascii.eqb c "_"%char) && noUnderscore rest
  end.

(** ** Further routines of the files above *)

(** *** The selection of fields: [toggleFieldSelection] of
    CorrelationMatrix.tsx and [handleFieldSelection] of StatsSummary.tsx,
    which hold the same state update *)

Module Selection.

(** [prev => prev.includes(fieldName)
       ? prev.filter(f => f !== fieldName) : [...prev, fieldName]]. *)
Definition toggleFieldSelection (prev : list string) (fieldName : string)
  : list string :=
  if bool_decide (fieldName ∈ prev)
  then List.filter (fun f => negb (String.eqb f fieldName)) prev
  else prev ++ [fieldName].

(** The click handler of a cell of the correlation table: the two state
    updates are queued and applied one after the other. *)
Definition clickCell (prev : list string) (field1 field2 : string)
  : list string :=
  toggleFieldSelection (toggleFieldSelection prev field1) field2.

End Selection.

(** *** AnalysisEngine: correlations and hypothesis tests over pairs of
    fields *)

Module EnginePairs.
Import Js.

Record TTest : Type := mkTTest {
  statistic : float;
  pValue : float;
  significant : bool
}.

(** An element of the array that [performHypothesisTests] returns; its
    [type] is always 'ttest'. *)
Record HypothesisTest : Type := mkTest {
  testFields : option string * option string;
  result : TTest
}.

Section WithEnv.
Variable E : Type.
(** The native TypeError raised by reading a property of undefined or by
    calling [reduce] on a value that has no such method. *)
Variable typeError : E.
Variable Math_pow : float -> float -> float.
Variable Math_exp : float -> float.

(** [field.value as number[]], at the point where [reduce] is called on
    it: only an array has the method.  The cast converts nothing.  The
    elements are read here as the numbers they are; an element of another
    type, which JavaScript's arithmetic would coerce (null to 0, a string
    by concatenation), is outside this reading, and the properties of the
    functions below are stated for arrays of numbers ([isNumberArray]). *)
Definition asArray (values : JsVal) : Completion E (list float) :=
  match values with
  | JArray elems => Normal (map AnalysisEngine.asNumber elems)
  | _ => Throw typeError
  end.

Definition calculateCorrelations (fields : list DataField)
  : Completion E (gmap string float) :=
  fold_left
    (fun acc i =>
       fold_left
         (fun acc j =>
            bind acc (fun correlations =>
            match fields !! i, fields !! j with
            | Some field1, Some field2 =>
                bind (asArray (value field1)) (fun values1 =>
                bind (asArray (value field2)) (fun values2 =>
                let correlation :=
                  AnalysisEngine.calculatePearsonCorrelation values1 values2 in
                Normal (setNumber (CorrelationMatrix.key field1 field2)
                          correlation correlations)))
            | _, _ => Normal correlations
            end))
         (seq (S i) (length fields - S i)) acc)
    (seq 0 (length fields)) (Normal ∅).

Definition normalCDF (x : float) : float :=
  let t := (1 / (1 + 0.2316419 * PrimFloat.abs x))%float in
  let d := (0.3989423 * Math_exp (- x * x / 2))%float in
  let probability :=
    (d * t * (0.3193815 + t * (-0.3565638 + t * (1.781478
       + t * (-1.821256 + t * 1.330274)))))%float in
  if PrimFloat.ltb 0 x then (1 - probability)%float else probability.

Definition performTTest (sample1 sample2 : list float) : TTest :=
  let n1 := of_nat (length sample1) in
  let n2 := of_nat (length sample2) in
  let mean1 := (reduce (fun a b _ => a + b) sample1 0 / n1)%float in
  let mean2 := (reduce (fun a b _ => a + b) sample2 0 / n2)%float in
  let variance1 :=
    (reduce (fun sum x _ => sum + Math_pow (x - mean1) 2) sample1 0
     / (n1 - 1))%float in
  let variance2 :=
    (reduce (fun sum x _ => sum + Math_pow (x - mean2) 2) sample2 0
     / (n2 - 1))%float in
  let pooledVariance :=
    (((n1 - 1) * variance1 + (n2 - 1) * variance2) / (n1 + n2 - 2))%float in
  let standardError :=
    PrimFloat.sqrt (pooledVariance * (1 / n1 + 1 / n2))%float in
  let tStatistic := (PrimFloat.abs (mean1 - mean2) / standardError)%float in
  let pValue := (2 * (1 - normalCDF tStatistic))%float in
  mkTTest tStatistic pValue (PrimFloat.ltb pValue 0.05).

Definition performHypothesisTests (fields : list DataField)
  : Completion E (list HypothesisTest) :=
  if Nat.ltb (length fields) 2 then Normal []
  else
    fold_left
      (fun acc i =>
         fold_left
           (fun acc j =>
              bind acc (fun tests =>
              match fields !! i, fields !! j with
              | Some field1, Some field2 =>
                  bind (asArray (value field1)) (fun sample1 =>
                  bind (asArray (value field2)) (fun sample2 =>
                  Normal (tests ++ [mkTest (name field1, name field2)
                                      (performTTest sample1 sample2)])))
              | _, _ => Normal tests
              end))
           (seq (S i) (length fields - S i)) acc)
      (seq 0 (length fields)) (Normal []).

End WithEnv.
End EnginePairs.

(** *** DataAnalyzer.tsx: data completeness and the time-series helpers *)

Module Series.
Import Js.

Inductive Trend : Type :=
| increasing
| decreasing
| stable.

Record Forecast : Type := mkForecast {
  predicted : list float;
  trendComponent : list float;
  seasonalComponent : list float;
  residualComponent : list float
}.

Record TimeSeriesResult : Type := mkResult {
  field : option string;
  trend : Trend;
  seasonality : option nat;
  forecast : list float;
  confidence : float;
  components : list float * list float * list float
}.

(** [v || 0] on a number: 0, NaN and undefined give 0. *)
Definition orZero (v : float) : float :=
  if PrimFloat.is_nan v || PrimFloat.is_zero v then 0%float else v.

(** [values.slice(-m)]: the last [m] elements, and the whole array when
    [m] is 0. *)
Definition sliceLast (values : list float) (m : nat) : list float :=
  if Nat.eqb m 0 then values else skipn (length values - m) values.

Section WithEnv.
Variable E : Type.
Variable typeError : E.
Variable Math_pow : float -> float -> float.

(** [field.value.length] inside the first [reduce] of
    [calculateCompleteness]: undefined and null have no properties, a
    number or a boolean has no length. *)
Definition lengthOf (values : JsVal) : Completion E float :=
  match values with
  | JArray elems => Normal (of_nat (length elems))
  | JString s => Normal (of_nat (String.length s))
  | JUndefined | JNull => Throw typeError
  | JBoolean _ | JNumber _ => Normal PrimFloat.nan
  end.

(** [field.value.filter(v => v !== null && v !== undefined).length]: only
    an array has the method. *)
Definition nonNullCount (values : JsVal) : Completion E float :=
  match values with
  | JArray elems =>
      Normal (of_nat (length (List.filter
                            (fun v => match v with
                                      | JNull | JUndefined => false
                                      | _ => true
                                      end) elems)))
  | _ => Throw typeError
  end.

Definition calculateCompleteness (fields : list DataField)
  : Completion E float :=
  if Nat.eqb (length fields) 0 then Normal 0%float
  else
    bind (fold_left (fun acc field =>
                       bind acc (fun sum =>
                       bind (lengthOf (value field)) (fun len =>
                       Normal (sum + len)%float)))
            fields (Normal 0%float)) (fun totalValues =>
    bind (fold_left (fun acc field =>
                       bind acc (fun sum =>
                       bind (nonNullCount (value field)) (fun count =>
                       Normal (sum + count)%float)))
            fields (Normal 0%float)) (fun nonNullValues =>
    Normal (nonNullValues / totalValues)%float)).

Definition calculateSlope (values : list float) : float :=
  let n := length values in
  let xMean := ((of_nat n - 1) / 2)%float in
  let yMean := (reduce (fun sum val _ => sum + val) values 0 / of_nat n)%float in
  let '(numerator, denominator) :=
    fold_left
      (fun '(numerator, denominator) i =>
         ((numerator + (of_nat i - xMean) * (index values i - yMean))%float,
          (denominator + Math_pow (of_nat i - xMean) 2)%float))
      (seq 0 n) (0%float, 0%float) in
  (numerator / denominator)%float.

Definition calculateTrend (values : list float) : Trend :=
  let slope := calculateSlope values in
  if PrimFloat.ltb 0.1 slope then increasing
  else if PrimFloat.ltb slope (-0.1) then decreasing
  else stable.

(** The two loops shared by [calculateSeasonalStrength] and
    [calculateSeasonalComponent]: the sums and the counts per seasonal
    index over [data], then the division of each sum by its count.  The
    period is at least 1 at both call sites. *)
Definition seasonalMeans (data : list float) (period : nat) : list float :=
  let '(sums, counts) :=
    fold_left
      (fun '(sums, counts) i =>
         let seasonalIndex := Nat.modulo i period in
         (<[seasonalIndex := (index sums seasonalIndex + index data i)%float]> sums,
          <[seasonalIndex := (index counts seasonalIndex + 1)%float]> counts))
      (seq 0 (length data))
      (repeat 0%float period, repeat 0%float period) in
  imap (fun i s => (s / index counts i)%float) sums.

Definition calculateSeasonalStrength (values : list float) (period : nat)
  : float :=
  let n := length values in
  let seasonalIndices := seasonalMeans values period in
  let mean := (reduce (fun sum val _ => sum + val) values 0 / of_nat n)%float in
  let seasonalVariance :=
    (reduce (fun sum val _ => sum + Math_pow (val - mean) 2) seasonalIndices 0
     / of_nat period)%float in
  let totalVariance :=
    (reduce (fun sum val _ => sum + Math_pow (val - mean) 2) values 0
     / of_nat n)%float in
  (seasonalVariance / totalVariance)%float.

(** The loop runs over the periods 2, ..., min(12, floor(n / 2)) and
    returns the first one whose strength exceeds 0.5. *)
Definition detectSeasonality (values : list float) : option nat :=
  let n := length values in
  if Nat.ltb n 4 then None
  else
    List.find (fun period =>
                 PrimFloat.ltb 0.5 (calculateSeasonalStrength values period))
      (seq 2 (Nat.min 12 (Nat.div n 2) - 1)).

Definition calculateTrendComponent (values : list float) : list float :=
  let slope := calculateSlope values in
  let intercept := index values 0 in
  imap (fun i _ => (intercept + slope * of_nat i)%float) values.

Definition calculateSeasonalComponent (values trend : list float)
  : list float :=
  let detrended := imap (fun i val => (val - index trend i)%float) values in
  let period := default 1 (detectSeasonality values) in
  let seasonal := seasonalMeans detrended period in
  imap (fun i _ => index seasonal (Nat.modulo i period)) values.

Definition generateForecast (values : list float) : Forecast :=
  let trend := calculateTrendComponent values in
  let seasonal := calculateSeasonalComponent values trend in
  let residual :=
    imap (fun i val => (val - index trend i - index seasonal i)%float) values in
  let forecastLength := Nat.min 5 (Nat.div (length values) 2) in
  let predicted :=
    map (fun i =>
           let trendValue :=
             (index trend (length trend - 1)
              + of_nat (i + 1) * calculateSlope trend)%float in
           let seasonalValue :=
             orZero (index seasonal (Nat.modulo i (length seasonal))) in
           (trendValue + seasonalValue)%float)
      (seq 0 forecastLength) in
  mkForecast predicted trend seasonal residual.

Definition calculateModelConfidence (values forecast : list float) : float :=
  let m := length forecast in
  let lastValues := sliceLast values m in
  let errors :=
    imap (fun i pred => PrimFloat.abs (pred - index lastValues i)) forecast in
  let meanError := (reduce (fun sum err _ => sum + err) errors 0 / of_nat m)%float in
  let maxError := Math_max errors in
  let confidence := (1 - meanError / maxError)%float in
  Math_max [0%float; Math_min [1%float; confidence]].

(** The callback of [numericFields.map] in [generateTimeSeriesResults]:
    [None] is the [null] returned for insufficient data; a value that is
    truthy, is no array and has no length below 2 reaches [values.reduce]
    and throws.  The elements of an array are read as the numbers they
    are; elements of other types, which JavaScript's arithmetic would
    coerce, are outside this reading, and what is stated of the results
    is stated for arrays of numbers. *)
Definition analyseField (f : DataField)
  : Completion E (option TimeSeriesResult) :=
  match value f with
  | JArray elems =>
      if Nat.ltb (length elems) 2 then Normal None
      else
        let values := map AnalysisEngine.asNumber elems in
        let trend := calculateTrend values in
        let seasonality := detectSeasonality values in
        let forecast := generateForecast values in
        let confidence := calculateModelConfidence values (predicted forecast) in
        Normal (Some (mkResult (name f) trend seasonality (predicted forecast)
                        confidence
                        (trendComponent forecast, seasonalComponent forecast,
                         residualComponent forecast)))
  | JString s =>
      if Nat.ltb (String.length s) 2 then Normal None else Throw typeError
  | other => if negb (truthy other) then Normal None else Throw typeError
  end.

(** [generateTimeSeriesResults]: the [catch] clause turns any exception
    into the empty result. *)
Definition generateTimeSeriesResults (fields : list DataField)
  : list TimeSeriesResult :=
  let numericFields :=
    List.filter (fun f => bool_decide (type f = Some "number"%string)) fields in
  if Nat.eqb (length numericFields) 0 then []
  else
    match
      fold_left (fun acc f =>
                   bind acc (fun results =>
                   bind (analyseField f) (fun r => Normal (results ++ [r]))))
        numericFields (Normal [])
    with
    | Normal results => omap id results
    | Throw _ => []
    end.

End WithEnv.
End Series.

(** *** TextSummarization.tsx: sentiment and key phrases *)

Module TextStats.
Import Js TextSummarization.

Definition positiveWords : list string :=
  ["good"; "great"; "excellent"; "positive"; "happy"; "joy"; "love"]%string.

Definition negativeWords : list string :=
  ["bad"; "poor"; "negative"; "unhappy"; "sad"; "hate"; "angry"]%string.

Definition calculateSentiment (text : string) : float :=
  let words := splitWhiteSpace (toLowerCase text) in
  let score :=
    fold_left
      (fun score word =>
         let score :=
           if bool_decide (word ∈ positiveWords) then (score + 1)%float
           else score in
         if bool_decide (word ∈ negativeWords) then (score - 1)%float
         else score)
      words 0%float in
  Math_max [(-1)%float; Math_min [1%float; (score / 10)%float]].

(** The [Map] of word frequencies with the order of its entries, which is
    the order in which the keys were first set. *)
Fixpoint mapGet (entries : list (string * nat)) (k : string) : option nat :=
  match entries with
  | [] => None
  | (k', v) :: rest => if String.eqb k' k then Some v else mapGet rest k
  end.

Fixpoint mapSet (entries : list (string * nat)) (k : string) (v : nat)
  : list (string * nat) :=
  match entries with
  | [] => [(k, v)]
  | (k', v') :: rest =>
      if String.eqb k' k then (k, v) :: rest else (k', v') :: mapSet rest k v
  end.

Definition wordFreqEntries (words : list string) : list (string * nat) :=
  fold_left (fun wordFreq word =>
               mapSet wordFreq word (default 0 (mapGet wordFreq word) + 1))
    words [].

(** [Array.from(wordFreq.entries()).sort((a, b) => b[1] - a[1])
      .slice(0, 8).map(([word]) => word)]. *)
Definition keyPhrases (fullText : string) : list string :=
  map fst
    (slice0
       (sortZ (fun a b => Z.of_nat (snd b) - Z.of_nat (snd a))%Z
          (wordFreqEntries (significantWords fullText)))
       8).

End TextStats.

(** *** The component [TextAnalysis], which follows [TextSummarization] in
    TextSummarization.tsx: the text fields offered for analysis *)

Module TextAnalysis.
Import Js.

(** [typeof v === 'string' && v.trim().length > 0]. *)
Definition hasText (v : JsVal) : bool :=
  match v with
  | JString s => Nat.ltb 0 (String.length (TextSummarization.trim s))
  | _ => false
  end.

(** The predicate of [fields.filter] that builds [textFields]. *)
Definition isTextField (f : DataField) : bool :=
  let isString := bool_decide (type f = Some "string"%string) in
  let hasValues :=
    match value f with
    | JArray elems => Nat.ltb 0 (length elems)
    | _ => false
    end in
  let hasTextContent :=
    hasValues
    && match value f with
       | JArray elems => existsb hasText elems
       | _ => false
       end in
  isString && hasValues && hasTextContent.

Definition textFields (fields : list DataField) : list DataField :=
  List.filter isTextField fields.

Definition handleFieldToggle (prev : list string) (fieldName : string)
  (checked : bool) : list string :=
  if checked then prev ++ [fieldName]
  else List.filter (fun f => negb (String.eqb f fieldName)) prev.

End TextAnalysis.

(** *** CorrelationMatrix.tsx: the strongest correlations *)

Module Strongest.
Import Js.

Record Pair : Type := mkPair {
  field1 : option string;
  field2 : option string;
  value : float
}.


End Strongest.

(** The pairs of elements of a list at positions i < j, row by row. *)
Fixpoint pairsOf {A : Type} (l : list A) : list (A * A) :=
  match l with
  | [] => []
  | x :: rest => map (pair x) rest ++ pairsOf rest
  end.

(** The numbers of a field value that is an array of numbers
    ([isNumberArray] below); on other values it is not used. *)
Definition numbersOf (values : Js.JsVal) : list float :=
  match values with
  | Js.JArray elems => map AnalysisEngine.asNumber elems
  | _ => []
  end.

(** [typeof v === 'number']: NaN and the infinities are numbers. *)
Definition isNumber (v : Js.JsVal) : bool :=
  match v with
  | Js.JNumber _ => true
  | _ => false
  end.

(** The value is an array all of whose elements are numbers, which is what
    the casts [field.value as number[]] of the sources take for granted. *)
Definition isNumberArray (values : Js.JsVal) : bool :=
  match values with
  | Js.JArray elems => forallb isNumber elems
  | _ => false
  end.

(** * Properties *)

(** ** The runtime model *)

Section RuntimeFacts.
Import Js.

Lemma reduce_sum (values : list float) :
  reduce (fun a b _ => a + b)%float values 0%float = Reference.sum values.
Proof.
  unfold reduce, Reference.sum. generalize 0%float, 0.
  induction values as [|v rest IH]; intros acc i; simpl; [reflexivity|].
  apply IH.
Qed.

Lemma reduce_from_map {A B C : Type} (g : A -> B) (f : C -> B -> C)
  (arr : list A) :
  forall i acc,
    reduce_from (fun a x _ => f a (g x)) i arr acc
    = reduce_from (fun a y _ => f a y) i (map g arr) acc.
Proof.
  induction arr as [|x rest IH]; intros i acc; simpl; [reflexivity|].
  apply IH.
Qed.

Lemma insertSorted_permutation {A : Type} (after : A -> A -> bool) (x : A) :
  forall l, Permutation (insertSorted after x l) (x :: l).
Proof.
  induction l as [|y rest IH]; simpl; [reflexivity|].
  destruct (after x y); [|reflexivity].
  rewrite IH. apply perm_swap.
Qed.

Lemma sort_after_permutation {A : Type} (after : A -> A -> bool) :
  forall l, Permutation (sort_after after l) l.
Proof.
  induction l as [|x rest IH]; simpl; [reflexivity|].
  rewrite insertSorted_permutation. now constructor.
Qed.

Lemma sort_length {A : Type} (comparefn : A -> A -> float) (l : list A) :
  length (sort comparefn l) = length l.
Proof. apply Permutation_length, sort_after_permutation. Qed.

Lemma filter_all {A : Type} (p : A -> bool) (l : list A) :
  (forall x, In x l -> p x = true) -> List.filter p l = l.
Proof.
  induction l as [|x rest IH]; intros H; simpl; [reflexivity|].
  rewrite (H x) by now left.
  f_equal. apply IH. intros y Hy. apply H. now right.
Qed.

End RuntimeFacts.

(** ** Mean, median and standard deviation *)

Section Statistics.
Import Js.
Local Open Scope float_scope.

Variable E : Type.
Variable createError : string -> string -> E.
Variable typeError : E.
Variable Math_pow : float -> float -> float.

Lemma length_nonzero {A : Type} (l : list A) :
  l <> [] -> Nat.eqb (length l) 0 = false.
Proof. destruct l; [congruence | reflexivity]. Qed.

Lemma length_positive {A : Type} (l : list A) :
  l <> [] -> Nat.ltb 0 (length l) = true.
Proof. destruct l; [congruence | reflexivity]. Qed.

Lemma calculateMean_reference (values : list float) :
  values <> [] -> DataAnalyzer.calculateMean values = Reference.mean values.
Proof.
  intros Hne. unfold DataAnalyzer.calculateMean, Reference.mean.
  rewrite (length_nonzero _ Hne), reduce_sum. reflexivity.
Qed.

Lemma odd_modulo (n : nat) : Nat.eqb (Nat.modulo n 2) 0 = negb (Nat.odd n).
Proof.
  rewrite <- Nat.negb_even, Bool.negb_involutive.
  destruct (Nat.even n) eqn:Hev.
  - apply Nat.even_spec in Hev. destruct Hev as [k ->].
    rewrite Nat.mul_comm, Nat.Div0.mod_mul. reflexivity.
  - apply Nat.eqb_neq. intros Hmod.
    assert (Nat.even n = true); [|congruence].
    apply Nat.even_spec. exists (Nat.div n 2).
    rewrite (Nat.div_mod_eq n 2) at 1. lia.
Qed.

(** The copy in DataAnalyzer.tsx computes the reference median. *)
Lemma calculateMedian_reference (values : list float) :
  values <> [] -> DataAnalyzer.calculateMedian values = Reference.median values.
Proof.
  intros Hne. unfold DataAnalyzer.calculateMedian, Reference.median, Reference.ascending.
  rewrite (length_nonzero _ Hne), sort_length, odd_modulo.
  destruct (Nat.odd (length values)); reflexivity.
Qed.

Lemma every_valid (values : list float) :
  (forall v, In v values -> isNaN v = false) ->
  every AnalysisEngine.isValidNumber (map JNumber values) = true.
Proof.
  intros H. unfold every. apply forallb_forall. intros j Hj.
  apply in_map_iff in Hj. destruct Hj as [v [<- Hv]]. simpl.
  now rewrite (H v Hv).
Qed.

Lemma every_invalid (values : list float) :
  every AnalysisEngine.isValidNumber (map JNumber values) = false ->
  exists v, In v values /\ isNaN v = true.
Proof.
  induction values as [|v rest IH]; simpl; [discriminate|].
  destruct (isNaN v) eqn:Hv; simpl.
  - intros _. exists v. split; [now left | assumption].
  - intros H. destruct (IH H) as [w [Hw Hn]]. exists w. split; [now right | assumption].
Qed.

Lemma asNumber_JNumber (values : list float) :
  map AnalysisEngine.asNumber (map JNumber values) = values.
Proof. rewrite map_map. simpl. apply map_id. Qed.

(** What AnalysisEngine computes for a non-empty array of valid numbers. *)
Lemma describeField_numbers (fieldName : string) (values : list float) :
  values <> [] ->
  (forall v, In v values -> isNaN v = false) ->
  AnalysisEngine.describeField E createError typeError Math_pow
    (numberField fieldName values)
  = Normal (AnalysisEngine.mkStats
              (Reference.mean values)
              (index (Reference.ascending values) (Nat.div (length values) 2))
              (PrimFloat.sqrt
                 (Reference.mean
                    (map (fun x => Math_pow (x - Reference.mean values) 2) values)))
              (Math_min values) (Math_max values)).
Proof.
  intros Hne Hnan. unfold AnalysisEngine.describeField, numberField. simpl.
  rewrite length_map, (length_nonzero _ Hne), (every_valid _ Hnan). simpl.
  rewrite asNumber_JNumber, sort_length, !reduce_sum.
  unfold Reference.mean. rewrite length_map. reflexivity.
Qed.

(** What StatsSummary computes for a non-empty array of valid numbers. *)
Lemma calculateFieldStats_numbers (values : list float) :
  values <> [] ->
  (forall v, In v values -> isNaN v = false) ->
  StatsSummary.calculateFieldStats Math_pow values
  = StatsSummary.mkFieldStats (length values) 0
      (Some (Reference.mean values))
      (Some (index (Reference.ascending values) (Nat.div (length values) 2)))
      (Some (index (Reference.ascending values) 0))
      (Some (index (Reference.ascending values) (length values - 1)))
      (Some (PrimFloat.sqrt
               (Reference.mean
                  (map (fun x => Math_pow (x - Reference.mean values) 2) values)))).
Proof.
  intros Hne Hnan. unfold StatsSummary.calculateFieldStats.
  rewrite filter_all by (intros v Hv; now rewrite (Hnan v Hv)).
  rewrite Nat.sub_diag, (length_positive _ Hne), sort_length, reduce_sum.
  unfold reduce at 1.
  rewrite (reduce_from_map (fun b => Math_pow (b - _) 2) PrimFloat.add).
  fold (reduce (fun a y _ => a + y)
          (map (fun b => Math_pow (b - Reference.sum values / of_nat (length values)) 2)
             values) 0).
  rewrite reduce_sum. unfold Reference.mean. rewrite length_map. reflexivity.
Qed.

Lemma calculateStdDev_reference (values : list float) :
  values <> [] ->
  DataAnalyzer.calculateStdDev Math_pow values
  = PrimFloat.sqrt
      (Reference.mean
         (map (fun x => Math_pow (x - Reference.mean values) 2) values)).
Proof.
  intros Hne. unfold DataAnalyzer.calculateStdDev.
  rewrite (length_nonzero _ Hne), (calculateMean_reference _ Hne).
  rewrite calculateMean_reference; [reflexivity|].
  destruct values; [congruence | discriminate].
Qed.

Lemma float_eqb_neq (a b : float) :
  PrimFloat.eqb a a = true -> PrimFloat.eqb a b = false -> a <> b.
Proof. intros Ha Hb ->. congruence. Qed.

(** C1.  The displayed median of a numeric field is the reference median
    (middle element of the sorted values for an odd count, average of the
    two middle elements for an even count).  The copy in DataAnalyzer.tsx
    computes it, but on the two values 1 and 2 AnalysisEngine and
    StatsSummary both display 2 where the reference median is 1.5. *)
Theorem median_of_two_values :
  Reference.median [1; 2] = 1.5
  /\ DataAnalyzer.calculateMedian [1; 2] = 1.5
  /\ (exists st,
        AnalysisEngine.describeField E createError typeError Math_pow
          (numberField "f" [1; 2]) = Normal st
        /\ AnalysisEngine.median st = 2)
  /\ StatsSummary.median (StatsSummary.calculateFieldStats Math_pow [1; 2]) = Some 2
  /\ 2 <> Reference.median [1; 2].
Proof.
  split; [reflexivity|]. split; [reflexivity|]. split; [|split].
  - eexists. split; [reflexivity|]. reflexivity.
  - reflexivity.
  - apply float_eqb_neq; reflexivity.
Qed.

(** C2, as amended.  For every non-empty list of numbers none of which is
    NaN, the copies in DataAnalyzer.tsx, AnalysisEngine and StatsSummary
    return equal means and equal standard deviations, and equal medians
    when the count is odd. *)
Theorem copies_agree_on_valid_numbers (fieldName : string) (values : list float) :
  values <> [] ->
  (forall v, In v values -> isNaN v = false) ->
  exists st,
    AnalysisEngine.describeField E createError typeError Math_pow
      (numberField fieldName values) = Normal st
    /\ AnalysisEngine.mean st = DataAnalyzer.calculateMean values
    /\ StatsSummary.mean (StatsSummary.calculateFieldStats Math_pow values)
       = Some (DataAnalyzer.calculateMean values)
    /\ AnalysisEngine.standardDeviation st
       = DataAnalyzer.calculateStdDev Math_pow values
    /\ StatsSummary.stdDev (StatsSummary.calculateFieldStats Math_pow values)
       = Some (DataAnalyzer.calculateStdDev Math_pow values)
    /\ (Nat.odd (length values) = true ->
        AnalysisEngine.median st = DataAnalyzer.calculateMedian values
        /\ StatsSummary.median (StatsSummary.calculateFieldStats Math_pow values)
           = Some (DataAnalyzer.calculateMedian values)).
Proof.
  intros Hne Hnan. eexists. split; [apply describeField_numbers; assumption|].
  rewrite calculateFieldStats_numbers, calculateStdDev_reference,
    calculateMean_reference, calculateMedian_reference by assumption.
  cbn [AnalysisEngine.mean AnalysisEngine.median AnalysisEngine.standardDeviation
       StatsSummary.mean StatsSummary.median StatsSummary.stdDev].
  repeat split; unfold Reference.median; rewrite H; reflexivity.
Qed.

(** C3.  For every non-empty list of numbers the computed mean is the sum
    of the values divided by their count: [calculateMean] returns it, and
    AnalysisEngine returns it unless a value is NaN, which it rejects;
    [calculateMean] of the empty list is 0. *)
Theorem mean_is_sum_over_count (fieldName : string) (values : list float) :
  values <> [] ->
  DataAnalyzer.calculateMean values
  = Reference.sum values / of_nat (length values)
  /\ match AnalysisEngine.describeField E createError typeError Math_pow
             (numberField fieldName values) with
     | Normal st =>
         AnalysisEngine.mean st = Reference.sum values / of_nat (length values)
     | Throw _ => exists v, In v values /\ isNaN v = true
     end
  /\ DataAnalyzer.calculateMean [] = 0.
Proof.
  intros Hne. split; [apply calculateMean_reference; assumption|].
  split; [|reflexivity].
  destruct (every AnalysisEngine.isValidNumber (map JNumber values)) eqn:Hev.
  - unfold AnalysisEngine.describeField, numberField. simpl.
    rewrite length_map, (length_nonzero _ Hne), Hev. simpl.
    rewrite asNumber_JNumber, !reduce_sum. reflexivity.
  - unfold AnalysisEngine.describeField, numberField. simpl.
    rewrite length_map, (length_nonzero _ Hne), Hev. simpl.
    apply every_invalid; assumption.
Qed.

End Statistics.

Lemma copies_agree_witness :
  [1; 2; 3]%float <> []
  /\ (forall v, In v [1; 2; 3]%float -> Js.isNaN v = false)
  /\ exists st,
       AnalysisEngine.describeField _ Sample.createError Sample.typeError
         Sample.Math_pow (numberField "f" [1; 2; 3]%float) = Js.Normal st
       /\ AnalysisEngine.mean st = DataAnalyzer.calculateMean [1; 2; 3]%float
       /\ AnalysisEngine.median st = 2%float.
Proof.
  assert (Hne : [1; 2; 3]%float <> []) by discriminate.
  assert (Hnan : forall v, In v [1; 2; 3]%float -> Js.isNaN v = false).
  { intros v [<-|[<-|[<-|[]]]]; reflexivity. }
  split; [exact Hne|]. split; [exact Hnan|].
  destruct (copies_agree_on_valid_numbers _ Sample.createError Sample.typeError
              Sample.Math_pow "f" [1; 2; 3]%float Hne Hnan)
    as [st [Hst [Hmean [_ [_ [_ Hmed]]]]]].
  exists st. split; [exact Hst|]. split; [exact Hmean|].
  destruct (Hmed eq_refl) as [-> _]. reflexivity.
Defined.

Lemma mean_witness :
  [1; 2; 3]%float <> []
  /\ DataAnalyzer.calculateMean [1; 2; 3]%float = 2%float.
Proof.
  assert (Hne : [1; 2; 3]%float <> []) by discriminate.
  split; [exact Hne|].
  destruct (mean_is_sum_over_count _ Sample.createError Sample.typeError
              Sample.Math_pow "f" [1; 2; 3]%float Hne) as [-> _].
  reflexivity.
Defined.

(** C2, as stated, fails: on the empty list DataAnalyzer.tsx returns 0
    where AnalysisEngine throws and StatsSummary leaves the statistics
    undefined; on a list that holds NaN AnalysisEngine throws; on the two
    values 1 and 2 the medians differ. *)
Lemma copies_disagree :
  ~ sameStatistics _ Sample.createError Sample.typeError Sample.Math_pow []
  /\ ~ sameStatistics _ Sample.createError Sample.typeError Sample.Math_pow
        [PrimFloat.nan]
  /\ ~ sameStatistics _ Sample.createError Sample.typeError Sample.Math_pow
        [1; 2]%float.
Proof.
  split; [|split].
  - intros [st [Hst _]]. discriminate Hst.
  - intros [st [Hst _]]. discriminate Hst.
  - intros [st [Hst [_ [Hmed _]]]].
    injection Hst as <-. revert Hmed. apply float_eqb_neq; reflexivity.
Qed.

(** ** Pearson correlation *)

Section Pearson.
Import Js.
Local Open Scope float_scope.

Lemma index_after_prefix (before : list float) (yi : float) (rest : list float) :
  index (before ++ yi :: rest) (length before) = yi.
Proof. unfold index. apply nth_middle. Qed.

(** The sum of products that the source accumulates with [y[i]] is the sum
    over the pairs of the two lists. *)
Lemma reduce_products (x : list float) :
  forall (before y : list float) (acc : float),
    length x = length y ->
    reduce_from (fun sum xi i => sum + xi * index (before ++ y) i)
      (length before) x acc
    = Reference.sumFrom acc (Reference.products x y).
Proof.
  induction x as [|xi x' IH]; intros before y acc Hlen.
  - reflexivity.
  - destruct y as [|yi y']; [discriminate|].
    cbn [reduce_from Reference.products Reference.sumFrom].
    rewrite index_after_prefix.
    replace (before ++ yi :: y') with ((before ++ [yi]) ++ y')
      by (rewrite <- app_assoc; reflexivity).
    replace (S (length before)) with (length (before ++ [yi]))
      by (rewrite length_app; simpl; lia).
    apply IH. simpl in Hlen. lia.
Qed.

Lemma reduce_products_sum (x y : list float) :
  length x = length y ->
  reduce (fun sum xi i => sum + xi * index y i) x 0
  = Reference.sum (Reference.products x y).
Proof. intros Hlen. exact (reduce_products x [] y 0 Hlen). Qed.

Lemma reduce_squares (x : list float) :
  reduce (fun sum xi _ => sum + xi * xi) x 0 = Reference.sum (Reference.squares x).
Proof.
  unfold reduce, Reference.squares.
  rewrite (reduce_from_map (fun xi => xi * xi) PrimFloat.add).
  apply reduce_sum.
Qed.

(** For lists of equal length, [calculatePearsonCorrelation] evaluates
    (n Σxy − Σx Σy) / sqrt((n Σx² − (Σx)²) (n Σy² − (Σy)²)) operation by
    operation in binary64 arithmetic, every sum taken from left to right
    and every operation rounded, and returns 0 when the denominator so
    computed compares equal to zero. *)
Lemma pearson_is_standard_formula (x y : list float) :
  length x = length y ->
  AnalysisEngine.calculatePearsonCorrelation x y
  = if PrimFloat.eqb (Reference.pearsonDenominator x y) 0 then 0
    else Reference.pearson x y.
Proof.
  intros Hlen. unfold AnalysisEngine.calculatePearsonCorrelation.
  rewrite !reduce_sum, !reduce_squares, (reduce_products_sum x y Hlen).
  reflexivity.
Qed.

End Pearson.

Lemma pearson_witness :
  length [1; 2; 3]%float = length [2; 4; 6]%float
  /\ AnalysisEngine.calculatePearsonCorrelation [1; 2; 3]%float [2; 4; 6]%float
     = 1%float.
Proof.
  split; [reflexivity|].
  rewrite (pearson_is_standard_formula [1; 2; 3]%float [2; 4; 6]%float eq_refl).
  reflexivity.
Defined.

Example pearson_constant_list :
  AnalysisEngine.calculatePearsonCorrelation [1; 1; 1]%float [2; 4; 7]%float
  = 0%float.
Proof. reflexivity. Qed.

(** In exact arithmetic the denominator of the formula is zero for every
    list [x] whose elements are all the same number. *)
Lemma exactSum_repeat (q : Q) (n : nat) :
  (Reference.exactSum (repeat q n) == inject_Z (Z.of_nat n) * q)%Q.
Proof.
  induction n as [|n IH]; [simpl; ring|].
  cbn [repeat Reference.exactSum fold_right].
  fold (Reference.exactSum (repeat q n)).
  rewrite IH, Nat2Z.inj_succ. unfold Z.succ. rewrite inject_Z_plus. ring.
Qed.

Lemma constant_list_radicand (a : float) (n : nat) (y : list float) :
  (Reference.exactRadicand (repeat a n) y == 0)%Q.
Proof.
  unfold Reference.exactRadicand. rewrite repeat_length, !map_repeat.
  rewrite !exactSum_repeat. ring.
Qed.

(** C4.  The function does not return 0 whenever the denominator of the
    formula is zero: for x = [1.3, 1.3, 1.3] and y = [1, 2, 3], lists of
    equal length, the denominator is zero in exact arithmetic (x is
    constant), but the rounded n Σx² − (Σx)² is negative, its square root
    is NaN, the guard [denominator === 0] does not hold of NaN, and the
    result is NaN.  Nor is the result always a correlation coefficient:
    for x = [1.1, 2.2, 3.3] and the same y it is above 1. *)
Theorem pearson_constant_list_is_nan :
  length [1.3; 1.3; 1.3]%float = length [1; 2; 3]%float
  /\ (Reference.exactRadicand [1.3; 1.3; 1.3]%float [1; 2; 3]%float == 0)%Q
  /\ PrimFloat.ltb
       (3 * Reference.sum (Reference.squares [1.3; 1.3; 1.3])
        - Reference.sum [1.3; 1.3; 1.3] * Reference.sum [1.3; 1.3; 1.3])%float
       0%float = true
  /\ PrimFloat.is_nan
       (AnalysisEngine.calculatePearsonCorrelation [1.3; 1.3; 1.3]%float
          [1; 2; 3]%float) = true
  /\ AnalysisEngine.calculatePearsonCorrelation [1.3; 1.3; 1.3]%float
       [1; 2; 3]%float <> 0%float
  /\ PrimFloat.ltb 1%float
       (AnalysisEngine.calculatePearsonCorrelation [1.1; 2.2; 3.3]%float
          [1; 2; 3]%float) = true.
Proof.
  split; [reflexivity|].
  split; [exact (constant_list_radicand 1.3%float 3 [1; 2; 3]%float)|].
  split; [vm_compute; reflexivity|].
  split; [vm_compute; reflexivity|].
  split; [|vm_compute; reflexivity].
  intros Hzero.
  assert (Hnan : PrimFloat.is_nan
                   (AnalysisEngine.calculatePearsonCorrelation
                      [1.3; 1.3; 1.3]%float [1; 2; 3]%float) = true)
    by (vm_compute; reflexivity).
  rewrite Hzero in Hnan. discriminate Hnan.
Qed.

(** ** NLQuerySection: handleQuery *)

Section HandleQuery.
Import Js NLQuerySection.

Variable Result : Type.
Variable processNaturalLanguageQuery :
  string -> list DataField -> Completion Thrown Result.

(** Whatever the body and the handler do, the finalizer's state update is
    the last one. *)
Lemma try_catch_finally_setIsLoading {A : Type} (body : Stmt Result A)
  (handler : Thrown -> Stmt Result A) (st : State Result) :
  isLoading Result
    (fst (try_catch_finally Result body handler (setIsLoading Result false) st))
  = false.
Proof.
  unfold try_catch_finally.
  destruct (body st) as [st' [a|e]]; [reflexivity|].
  destruct (handler e st') as [st1 c1]. reflexivity.
Qed.

(** No run of [handleQuery] completes abruptly, and each leaves the loading
    flag false. *)
Lemma handleQuery_completes (fields : list DataField) (query : string)
  (st : State Result) :
  exists st',
    handleQuery Result processNaturalLanguageQuery fields query st
    = (st', Normal tt)
    /\ isLoading Result st' = false.
Proof.
  unfold handleQuery, seq_, try_catch_finally, await, setResponse, setIsLoading.
  simpl. destruct (processNaturalLanguageQuery query fields) as [r|e];
    simpl; eexists; split; reflexivity.
Qed.

(** C5.  When [processNaturalLanguageQuery] rejects with [error],
    [handleQuery] completes normally, the response is the object whose
    [error] is the message of [error] if it is an [Error] and
    'Failed to process query' otherwise, and the loading flag is false. *)
Theorem handleQuery_catches_rejection (fields : list DataField)
  (query : string) (st : State Result) (error : Thrown) :
  processNaturalLanguageQuery query fields = Throw error ->
  exists st',
    handleQuery Result processNaturalLanguageQuery fields query st
    = (st', Normal tt)
    /\ response Result st'
       = Some (ErrorResponse Result
                 match error with
                 | ErrorInstance message => message
                 | NotAnError _ => "Failed to process query"%string
                 end)
    /\ isLoading Result st' = false.
Proof.
  intros Hreject.
  unfold handleQuery, seq_, try_catch_finally, await, setResponse, setIsLoading.
  simpl. rewrite Hreject. simpl.
  eexists. split; [reflexivity|]. split; reflexivity.
Qed.

End HandleQuery.

Lemma handleQuery_witness :
  (fun (_ : string) (_ : list DataField) =>
     Js.Throw (NLQuerySection.NotAnError (Js.JNumber 404%float)))
    "What are the trends?"%string []
  = (Js.Throw (NLQuerySection.NotAnError (Js.JNumber 404%float))
     : Js.Completion NLQuerySection.Thrown unit)
  /\ exists st',
       NLQuerySection.handleQuery unit
         (fun _ _ => Js.Throw (NLQuerySection.NotAnError (Js.JNumber 404%float)))
         [] "What are the trends?"%string
         (NLQuerySection.mkState unit false None)
       = (st', Js.Normal tt)
       /\ NLQuerySection.response unit st'
          = Some (NLQuerySection.ErrorResponse unit "Failed to process query"%string)
       /\ NLQuerySection.isLoading unit st' = false.
Proof.
  split; [reflexivity|].
  exact (handleQuery_catches_rejection unit
           (fun _ _ => Js.Throw (NLQuerySection.NotAnError (Js.JNumber 404%float)))
           [] "What are the trends?"%string
           (NLQuerySection.mkState unit false None)
           (NLQuerySection.NotAnError (Js.JNumber 404%float)) eq_refl).
Defined.

(** ** AnalysisEngine: validateFields *)

Section ValidateFields.
Import Js.

Variable E : Type.
Variable createError : string -> string -> E.

Lemma invalid_iff (field : DataField) :
  negb (truthy_str (name field)) || negb (truthy_str (type field))
  || negb (Array_isArray (value field))
  = negb (wellFormed field).
Proof.
  unfold wellFormed.
  destruct (truthy_str (name field)), (truthy_str (type field)),
    (Array_isArray (value field)); reflexivity.
Qed.

Lemma filter_invalid_nil (fields : list DataField) :
  List.filter (fun field => negb (wellFormed field)) fields = []
  <-> forallb wellFormed fields = true.
Proof.
  induction fields as [|f rest IH]; simpl; [tauto|].
  destruct (wellFormed f); simpl; [exact IH|].
  split; discriminate.
Qed.

(** C6, as amended.  [validateFields] accepts an array of field records
    exactly when it is non-empty and each record has a non-empty name, a
    non-empty type and an array as value; it rejects every other array
    with a VALIDATION_ERROR. *)
Theorem validateFields_accepts_iff (fields : list DataField) :
  (AnalysisEngine.validateFields E createError fields = Normal tt
   <-> fields <> [] /\ forallb wellFormed fields = true)
  /\ (AnalysisEngine.validateFields E createError fields = Normal tt
      \/ exists message,
           AnalysisEngine.validateFields E createError fields
           = Throw (createError "VALIDATION_ERROR" message)).
Proof.
  unfold AnalysisEngine.validateFields.
  destruct fields as [|f rest].
  - simpl. split; [|right; eexists; reflexivity].
    split; [discriminate | intros [H _]; congruence].
  - cbn [length Nat.eqb].
    rewrite (filter_ext _ (fun field => negb (wellFormed field)))
      by (intros a; apply invalid_iff).
    destruct (List.filter (fun field => negb (wellFormed field)) (f :: rest))
      as [|bad others] eqn:Hbad.
    + simpl. split; [|left; reflexivity].
      split; [|reflexivity]. intros _. split; [discriminate|].
      apply (proj1 (filter_invalid_nil (f :: rest))). exact Hbad.
    + simpl. split; [|right; eexists; reflexivity].
      split; [discriminate|]. intros [_ Hall].
      apply (proj2 (filter_invalid_nil (f :: rest))) in Hall. congruence.
Qed.

End ValidateFields.

Lemma validateFields_witness :
  AnalysisEngine.validateFields _ Sample.createError
    [numberField "a" [1; 2]%float;
     mkField (Some "label"%string) (Some "string"%string)
       (Js.JArray [Js.JString "x"; Js.JString "y"])]
  = Js.Normal tt.
Proof.
  apply (proj1 (validateFields_accepts_iff _ Sample.createError _)).
  split; [discriminate | reflexivity].
Defined.

(** C6, as stated, fails: the empty array is rejected, and so is an array
    with a field that has no name. *)
Lemma validateFields_rejects :
  AnalysisEngine.validateFields _ Sample.createError []
  = Js.Throw ("VALIDATION_ERROR", "No fields provided for analysis")%string
  /\ AnalysisEngine.validateFields _ Sample.createError
       [mkField None (Some "number"%string) (Js.JArray [Js.JNumber 1%float]);
        mkField (Some "b"%string) (Some "number"%string) Js.JUndefined]
     = Js.Throw ("VALIDATION_ERROR", "Invalid fields found: , b")%string.
Proof. split; reflexivity. Qed.

(** ** CorrelationMatrix: the correlations map *)

Section Correlations.
Import Js CorrelationMatrix.

Variable E : Type.
Variable calculateCorrelation : JsVal -> JsVal -> Completion E float.

Lemma append_nil (b : string) : EmptyString +:+ b = b.
Proof. reflexivity. Qed.

Lemma append_cons (x : ascii) (a b : string) :
  String x a +:+ b = String x (a +:+ b).
Proof. reflexivity. Qed.

(** Keys built from names without underscore determine both names. *)
Lemma key_names_injective (a c : string) :
  forall b d : string,
    noUnderscore a = true -> noUnderscore c = true ->
    a +:+ "_" +:+ b = c +:+ "_" +:+ d -> a = c /\ b = d.
Proof.
  revert c. induction a as [|x a' IH]; intros [|y c'] b d Ha Hc Heq;
    repeat (rewrite append_nil in Heq || rewrite append_cons in Heq);
    simpl in Ha, Hc.
  - injection Heq as ->. split; reflexivity.
  - injection Heq as <- _. discriminate Hc.
  - injection Heq as -> _. discriminate Ha.
  - injection Heq as -> Heq.
    apply andb_true_iff in Ha as [_ Ha]. apply andb_true_iff in Hc as [_ Hc].
    destruct (IH c' b d Ha Hc Heq) as [-> ->]. split; reflexivity.
Qed.

(** Names without underscore give keys that determine both names. *)
Lemma plain_names_keys (numeric : list DataField) :
  (forall f, In f numeric -> noUnderscore (template (name f)) = true) ->
  keysDetermineNames numeric.
Proof.
  intros Hplain f1 f2 g1 g2 Hf1 _ Hg1 _. unfold key.
  apply key_names_injective; auto.
Qed.

Section WithNumericFields.
Variable numeric : list DataField.
Hypothesis keys_distinct : keysDetermineNames numeric.
Hypothesis keys_plain : noPrototypeKey numeric.

Lemma key_injective (f1 f2 g1 g2 : DataField) :
  In f1 numeric -> In f2 numeric -> In g1 numeric -> In g2 numeric ->
  key f1 f2 = key g1 g2 ->
  template (name f1) = template (name g1)
  /\ template (name f2) = template (name g2).
Proof. apply keys_distinct. Qed.

Lemma lookup_In (i : nat) (f : DataField) : numeric !! i = Some f -> In f numeric.
Proof. intros H. apply list_elem_of_In. eapply list_elem_of_lookup_2; eauto. Qed.

Lemma setNumber_key (f1 f2 : DataField) (v : float) (m : gmap string float) :
  In f1 numeric -> In f2 numeric ->
  setNumber (key f1 f2) v m = <[key f1 f2 := v]> m.
Proof.
  intros Hf1 Hf2. unfold setNumber.
  destruct (String.eqb (key f1 f2) "__proto__") eqn:Hproto; [|reflexivity].
  apply String.eqb_eq in Hproto. now destruct (keys_plain f1 f2 Hf1 Hf2).
Qed.

(** Away from the key '__proto__' every assignment of the loop body is an
    insertion into the map. *)
Lemma cell_plain (m : gmap string float) (i j : nat) :
  cell E calculateCorrelation numeric m i j
  = match numeric !! i, numeric !! j with
    | Some field1, Some field2 =>
        if negb (hasLength (value field1)) || negb (hasLength (value field2))
        then m
        else if Nat.eqb i j then <[key field1 field2 := 1%float]> m
        else if Nat.ltb i j then
          match calculateCorrelation (value field1) (value field2) with
          | Normal c => <[key field2 field1 := c]> (<[key field1 field2 := c]> m)
          | Throw _ =>
              <[key field2 field1 := 0%float]> (<[key field1 field2 := 0%float]> m)
          end
        else m
    | _, _ => m
    end.
Proof.
  unfold cell.
  destruct (numeric !! i) as [f1|] eqn:Hi; [|reflexivity].
  destruct (numeric !! j) as [f2|] eqn:Hj; [|reflexivity].
  assert (Hf1 : In f1 numeric) by (eapply lookup_In; eauto).
  assert (Hf2 : In f2 numeric) by (eapply lookup_In; eauto).
  cbv zeta.
  destruct (negb (hasLength (value f1)) || negb (hasLength (value f2)));
    [reflexivity|].
  destruct (Nat.eqb i j); [now apply setNumber_key|].
  destruct (Nat.ltb i j); [|reflexivity].
  destruct (calculateCorrelation (value f1) (value f2)) as [c|e].
  - rewrite (setNumber_key f1 f2) by assumption.
    rewrite lookup_insert_eq. now apply setNumber_key.
  - rewrite (setNumber_key f1 f2) by assumption. now apply setNumber_key.
Qed.

Lemma cell_effect (m : gmap string float) (i j : nat) :
  CellEffect numeric m i j (cell E calculateCorrelation numeric m i j).
Proof.
  rewrite cell_plain.
  destruct (numeric !! i) as [f1|] eqn:Hi; [|constructor].
  destruct (numeric !! j) as [f2|] eqn:Hj; [|constructor].
  destruct (hasLength (value f1)) eqn:H1; [|constructor].
  destruct (hasLength (value f2)) eqn:H2; [|constructor]. simpl.
  destruct (Nat.eqb i j) eqn:Hij.
  - apply Nat.eqb_eq in Hij. subst j.
    assert (f2 = f1) as -> by congruence.
    now apply Diagonal.
  - destruct (Nat.ltb i j) eqn:Hlt; [|constructor].
    apply Nat.ltb_lt in Hlt.
    destruct (calculateCorrelation (value f1) (value f2)); now apply Pair.
Qed.

(** *** Folding a loop: invariants, and properties set by one iteration *)

Lemma fold_left_preserves {A B : Type} (f : A -> B -> A) (P : A -> Prop)
  (l : list B) :
  (forall x a, In x l -> P a -> P (f a x)) ->
  forall a, P a -> P (fold_left f l a).
Proof.
  induction l as [|x rest IH]; intros Hstep a Ha; simpl; [exact Ha|].
  apply IH.
  - intros y b Hy. apply Hstep. now right.
  - apply Hstep; [now left | exact Ha].
Qed.

Lemma fold_left_establishes {A B : Type} (f : A -> B -> A) (P : A -> Prop)
  (before : list B) (x : B) (after : list B) :
  (forall a, P (f a x)) ->
  (forall y a, In y after -> P a -> P (f a y)) ->
  forall a, P (fold_left f (before ++ x :: after) a).
Proof.
  intros Hx Hafter a. rewrite fold_left_app. simpl.
  apply fold_left_preserves; [exact Hafter | apply Hx].
Qed.

Lemma seq_split (n k : nat) :
  k < n -> seq 0 n = seq 0 k ++ k :: seq (S k) (n - S k).
Proof.
  intros Hk. replace n with (k + (1 + (n - S k))) at 1 by lia.
  rewrite seq_app. simpl. reflexivity.
Qed.

Lemma in_seq_after (k n i : nat) : In i (seq (S k) n) -> k < i.
Proof. intros H. apply in_seq in H. lia. Qed.

(** *** Symmetry *)

Lemma key_swap (f1 f2 g1 g2 : DataField) :
  In f1 numeric -> In f2 numeric -> In g1 numeric -> In g2 numeric ->
  key f1 f2 = key g1 g2 -> key f2 f1 = key g2 g1.
Proof.
  intros Hf1 Hf2 Hg1 Hg2 Heq.
  destruct (key_injective f1 f2 g1 g2 Hf1 Hf2 Hg1 Hg2 Heq) as [H1 H2].
  unfold key. rewrite H1, H2. reflexivity.
Qed.

Lemma effect_symmetric (m m' : gmap string float) (i j : nat) :
  CellEffect numeric m i j m' ->
  (forall A B, In A numeric -> In B numeric -> m !! key A B = m !! key B A) ->
  forall A B, In A numeric -> In B numeric -> m' !! key A B = m' !! key B A.
Proof.
  intros Heff Hsym A B HA HB. destruct Heff as [|f Hf Hij Hlen|f1 f2 c Hf1 Hf2 Hij _ _].
  - apply Hsym; assumption.
  - apply lookup_In in Hf.
    rewrite !lookup_insert.
    destruct (decide (key f f = key A B)) as [HAB|HAB];
      destruct (decide (key f f = key B A)) as [HBA|HBA];
      try reflexivity.
    + exfalso. apply HBA. now apply key_swap.
    + exfalso. apply HAB. now apply key_swap.
    + apply Hsym; assumption.
  - apply lookup_In in Hf1. apply lookup_In in Hf2.
    rewrite !lookup_insert.
    destruct (decide (key f2 f1 = key A B)) as [H21|H21];
      destruct (decide (key f1 f2 = key B A)) as [H12'|H12'];
      destruct (decide (key f2 f1 = key B A)) as [H21'|H21'];
      destruct (decide (key f1 f2 = key A B)) as [H12|H12];
      try reflexivity;
      try (exfalso; apply H12'; now apply key_swap);
      try (exfalso; apply H21'; now apply key_swap);
      try (exfalso; apply H21; now apply key_swap);
      try (exfalso; apply H12; now apply key_swap).
    apply Hsym; assumption.
Qed.

Lemma rows_symmetric (rows : list nat) :
  forall m : gmap string float,
    (forall A B, In A numeric -> In B numeric -> m !! key A B = m !! key B A) ->
    forall A B, In A numeric -> In B numeric ->
      fold_left (row E calculateCorrelation numeric) rows m !! key A B
      = fold_left (row E calculateCorrelation numeric) rows m !! key B A.
Proof.
  apply (fold_left_preserves (row E calculateCorrelation numeric)
           (fun m => forall A B, In A numeric -> In B numeric ->
                                 m !! key A B = m !! key B A)).
  intros i m _. unfold row.
  apply (fold_left_preserves (fun m j => cell E calculateCorrelation numeric m i j)
           (fun m => forall A B, In A numeric -> In B numeric ->
                                 m !! key A B = m !! key B A)).
  intros j m0 _. apply effect_symmetric with (i := i) (j := j), cell_effect.
Qed.

(** *** Presence of the entries *)

Lemma effect_keeps_entries (m m' : gmap string float) (i j : nat) (k : string) :
  CellEffect numeric m i j m' -> is_Some (m !! k) -> is_Some (m' !! k).
Proof.
  intros Heff Hk. destruct Heff; [assumption| |];
    repeat (apply lookup_insert_is_Some'; right); assumption.
Qed.

Lemma cell_sets_entry (m : gmap string float) (i j : nat) (A B : DataField) :
  numeric !! i = Some A -> numeric !! j = Some B -> i <= j ->
  hasLength (value A) = true -> hasLength (value B) = true ->
  is_Some (cell E calculateCorrelation numeric m i j !! key A B).
Proof.
  intros Hi Hj Hij HA HB. rewrite cell_plain, Hi, Hj, HA, HB. simpl.
  destruct (Nat.eqb i j) eqn:Heq.
  - apply Nat.eqb_eq in Heq. subst j. assert (B = A) as -> by congruence.
    rewrite lookup_insert_eq. eauto.
  - apply Nat.eqb_neq in Heq.
    assert (Hlt : Nat.ltb i j = true) by (apply Nat.ltb_lt; lia).
    rewrite Hlt.
    destruct (calculateCorrelation (value A) (value B));
      apply lookup_insert_is_Some'; right; rewrite lookup_insert_eq; eauto.
Qed.

Lemma rows_set_entry (m : gmap string float) (i j : nat) (A B : DataField) :
  numeric !! i = Some A -> numeric !! j = Some B -> i <= j ->
  hasLength (value A) = true -> hasLength (value B) = true ->
  is_Some (fold_left (row E calculateCorrelation numeric)
             (seq 0 (length numeric)) m !! key A B).
Proof.
  intros Hi Hj Hij HA HB.
  assert (Hilt : i < length numeric) by (apply lookup_lt_is_Some; eauto).
  assert (Hjlt : j < length numeric) by (apply lookup_lt_is_Some; eauto).
  rewrite (seq_split _ i Hilt).
  apply (fold_left_establishes (row E calculateCorrelation numeric)
           (fun m => is_Some (m !! key A B))).
  - intros m0. unfold row. rewrite (seq_split _ j Hjlt).
    apply (fold_left_establishes
             (fun m j => cell E calculateCorrelation numeric m i j)
             (fun m => is_Some (m !! key A B))).
    + intros m1. now apply cell_sets_entry.
    + intros j' m1 _.
      apply effect_keeps_entries with (m := m1) (i := i) (j := j'), cell_effect.
  - intros i' m0 _. unfold row.
    apply (fold_left_preserves
             (fun m j => cell E calculateCorrelation numeric m i' j)
             (fun m => is_Some (m !! key A B))).
    intros j' m1 _.
    apply effect_keeps_entries with (m := m1) (i := i') (j := j'), cell_effect.
Qed.

(** *** The diagonal *)

(** A pass whose two fields do not both carry the name of [A] leaves the
    diagonal entry of [A] alone. *)
Lemma effect_keeps_diagonal (m m' : gmap string float) (i j : nat)
  (A : DataField) :
  CellEffect numeric m i j m' ->
  In A numeric ->
  (forall f1 f2, numeric !! i = Some f1 -> numeric !! j = Some f2 ->
                 template (name f1) <> template (name A)
                 \/ template (name f2) <> template (name A)) ->
  m !! key A A = Some 1%float -> m' !! key A A = Some 1%float.
Proof.
  intros Heff HA Hother Hm.
  destruct Heff as [|f Hf Hij Hlen|f1 f2 c Hf1 Hf2 Hij _ _]; [assumption| |].
  - subst j. rewrite lookup_insert_ne; [assumption|].
    intros Heq.
    destruct (key_injective f f A A (lookup_In _ _ Hf) (lookup_In _ _ Hf) HA HA
                Heq) as [H1 _].
    destruct (Hother f f Hf Hf); contradiction.
  - rewrite !lookup_insert_ne; [assumption| |]; intros Heq.
    + destruct (key_injective f1 f2 A A (lookup_In _ _ Hf1) (lookup_In _ _ Hf2)
                  HA HA Heq) as [H1 H2].
      destruct (Hother f1 f2 Hf1 Hf2); contradiction.
    + destruct (key_injective f2 f1 A A (lookup_In _ _ Hf2) (lookup_In _ _ Hf1)
                  HA HA Heq) as [H2 H1].
      destruct (Hother f1 f2 Hf1 Hf2); contradiction.
Qed.

Lemma lookup_after (before after : list DataField) (A f : DataField) (i : nat) :
  (before ++ A :: after) !! i = Some f -> length before < i -> In f after.
Proof.
  intros Hi Hlt. rewrite lookup_app_r in Hi by lia.
  destruct (i - length before) as [|n] eqn:Hn; [lia|]. simpl in Hi.
  apply list_elem_of_In. eapply list_elem_of_lookup_2; eauto.
Qed.

Lemma rows_set_diagonal (m : gmap string float) (before after : list DataField)
  (A : DataField) :
  numeric = before ++ A :: after ->
  (forall z, In z after -> template (name z) <> template (name A)) ->
  hasLength (value A) = true ->
  fold_left (row E calculateCorrelation numeric) (seq 0 (length numeric)) m
    !! key A A = Some 1%float.
Proof.
  intros Hsplit Hlast Hlen.
  assert (HA : In A numeric) by (rewrite Hsplit; apply in_elt).
  assert (Hk : numeric !! length before = Some A)
    by (rewrite Hsplit; apply list_lookup_middle; reflexivity).
  assert (Hklt : length before < length numeric)
    by (apply lookup_lt_is_Some; eauto).
  rewrite (seq_split _ _ Hklt).
  apply (fold_left_establishes (row E calculateCorrelation numeric)
           (fun m => m !! key A A = Some 1%float)).
  - intros m0. unfold row. rewrite (seq_split _ _ Hklt).
    apply (fold_left_establishes
             (fun m j => cell E calculateCorrelation numeric m (length before) j)
             (fun m => m !! key A A = Some 1%float)).
    + intros m1. rewrite cell_plain, Hk, Hlen, Nat.eqb_refl. simpl.
      apply lookup_insert_eq.
    + intros j m1 Hj. apply in_seq_after in Hj.
      apply effect_keeps_diagonal with (i := length before) (j := j);
        [apply cell_effect | exact HA |].
      intros f1 f2 _ Hf2. right. apply Hlast.
      rewrite Hsplit in Hf2. eapply lookup_after; eauto.
  - intros i m0 Hi. apply in_seq_after in Hi. unfold row.
    apply (fold_left_preserves
             (fun m j => cell E calculateCorrelation numeric m i j)
             (fun m => m !! key A A = Some 1%float)).
    intros j m1 _.
    apply effect_keeps_diagonal with (i := i) (j := j);
      [apply cell_effect | exact HA |].
    intros f1 f2 Hf1 _. left. apply Hlast.
    rewrite Hsplit in Hf1. eapply lookup_after; eauto.
Qed.

End WithNumericFields.

(** The last field, in the order of the array, that carries the name of a
    given field. *)
Lemma last_with_name (l : list DataField) :
  forall A, In A l ->
    exists before A' after,
      l = before ++ A' :: after
      /\ template (name A') = template (name A)
      /\ forall z, In z after -> template (name z) <> template (name A).
Proof.
  induction l as [|y rest IH]; intros A HA; [contradiction|].
  destruct (decide (Exists (fun z => template (name z) = template (name A)) rest))
    as [Hex|Hnone].
  - apply Exists_exists in Hex. destruct Hex as [z [Hz Hname]].
    apply list_elem_of_In in Hz.
    destruct (IH z Hz) as [before [A' [after [-> [HA' Hafter]]]]].
    exists (y :: before), A', after. split; [reflexivity|].
    split; [congruence|]. intros w Hw. rewrite <- Hname. now apply Hafter.
  - assert (Hrest : forall z, In z rest ->
                               template (name z) <> template (name A)).
    { intros z Hz Hname. apply Hnone. apply Exists_exists.
      exists z. split; [now apply list_elem_of_In | exact Hname]. }
    exists [], y, rest. split; [reflexivity|]. split; [|exact Hrest].
    destruct HA as [->|HA]; [reflexivity|].
    exfalso. now apply (Hrest A HA).
Qed.

(** C8, as amended.  When the data has at least two numeric fields, all
    with non-empty value arrays, and the keys of the numeric fields
    determine the two names they were built from and are never
    '__proto__', the correlations map is symmetric with a unit diagonal:
    for all numeric fields A and B the entries keyed A_B and B_A exist and
    are equal, and the entry keyed A_A is 1.  (Names may hold underscores:
    what is excluded is that two pairs of different names share a key.) *)
Theorem correlations_symmetric_unit_diagonal (fields : list DataField) :
  2 <= length (numericFields fields) ->
  (forall f, In f (numericFields fields) -> hasLength (value f) = true) ->
  keysDetermineNames (numericFields fields) ->
  noPrototypeKey (numericFields fields) ->
  forall A B, In A (numericFields fields) -> In B (numericFields fields) ->
    (exists c,
        correlations E calculateCorrelation fields !! key A B = Some c
        /\ correlations E calculateCorrelation fields !! key B A = Some c)
    /\ correlations E calculateCorrelation fields !! key A A = Some 1%float.
Proof.
  intros Htwo Hlen Hnames Hproto A B HA HB. unfold correlations.
  assert (Hguard : Nat.ltb (length (numericFields fields)) 2 = false)
    by (apply Nat.ltb_ge; exact Htwo).
  rewrite Hguard. split.
  - assert (Hsym :
      fold_left (row E calculateCorrelation (numericFields fields))
        (seq 0 (length (numericFields fields))) ∅ !! key A B
      = fold_left (row E calculateCorrelation (numericFields fields))
          (seq 0 (length (numericFields fields))) ∅ !! key B A).
    { apply rows_symmetric; auto. }
    assert (Hsome :
      is_Some (fold_left (row E calculateCorrelation (numericFields fields))
                 (seq 0 (length (numericFields fields))) ∅ !! key A B)).
    { assert (exists i, numericFields fields !! i = Some A) as [i Hi]
        by (apply list_elem_of_lookup_1, list_elem_of_In; exact HA).
      assert (exists j, numericFields fields !! j = Some B) as [j Hj]
        by (apply list_elem_of_lookup_1, list_elem_of_In; exact HB).
      destruct (Nat.le_gt_cases i j) as [Hij|Hij].
      - apply rows_set_entry with (i := i) (j := j); auto.
      - rewrite Hsym.
        apply rows_set_entry with (i := j) (j := i); auto. lia. }
    destruct Hsome as [c Hc]. exists c. split; [exact Hc|].
    rewrite <- Hsym. exact Hc.
  - destruct (last_with_name _ A HA) as [before [A' [after [Hsplit [Hname Hlast]]]]].
    assert (HA' : In A' (numericFields fields))
      by (rewrite Hsplit; apply in_elt).
    replace (key A A) with (key A' A') by (unfold key; rewrite Hname; reflexivity).
    apply rows_set_diagonal with (before := before) (after := after); auto.
    intros z Hz. rewrite Hname. now apply Hlast.
Qed.

End Correlations.

Lemma correlations_witness :
  let price := numberField "unit_price" [1; 2; 3]%float in
  let label := mkField (Some "label"%string) (Some "string"%string)
                 (Js.JArray [Js.JString "x"; Js.JString "y"; Js.JString "z"]) in
  let qty := numberField "qty" [2; 4; 6]%float in
  2 <= length (CorrelationMatrix.numericFields [price; label; qty])
  /\ CorrelationMatrix.keysDetermineNames
       (CorrelationMatrix.numericFields [price; label; qty])
  /\ CorrelationMatrix.noPrototypeKey
       (CorrelationMatrix.numericFields [price; label; qty])
  /\ (exists c,
        CorrelationMatrix.correlations _ Sample.calculateCorrelation
          [price; label; qty] !! CorrelationMatrix.key price qty = Some c
        /\ CorrelationMatrix.correlations _ Sample.calculateCorrelation
             [price; label; qty] !! CorrelationMatrix.key qty price = Some c)
  /\ CorrelationMatrix.correlations _ Sample.calculateCorrelation
       [price; label; qty] !! CorrelationMatrix.key price price = Some 1%float.
Proof.
  intros price label qty.
  assert (Htwo : 2 <= length (CorrelationMatrix.numericFields [price; label; qty]))
    by (vm_compute; lia).
  assert (Hkeys : CorrelationMatrix.keysDetermineNames
                    (CorrelationMatrix.numericFields [price; label; qty])).
  { intros f1 f2 g1 g2 Hf1 Hf2 Hg1 Hg2.
    vm_compute in Hf1, Hf2, Hg1, Hg2.
    destruct Hf1 as [<-|[<-|[]]], Hf2 as [<-|[<-|[]]],
      Hg1 as [<-|[<-|[]]], Hg2 as [<-|[<-|[]]];
      intros Hkey; try (split; reflexivity); vm_compute in Hkey; discriminate. }
  assert (Hproto : CorrelationMatrix.noPrototypeKey
                     (CorrelationMatrix.numericFields [price; label; qty])).
  { intros f1 f2 Hf1 Hf2. vm_compute in Hf1, Hf2.
    destruct Hf1 as [<-|[<-|[]]], Hf2 as [<-|[<-|[]]]; vm_compute; discriminate. }
  split; [exact Htwo|]. split; [exact Hkeys|]. split; [exact Hproto|].
  apply (correlations_symmetric_unit_diagonal _ Sample.calculateCorrelation
           [price; label; qty] Htwo).
  - intros f Hf. vm_compute in Hf. destruct Hf as [<-|[<-|[]]]; reflexivity.
  - exact Hkeys.
  - exact Hproto.
  - vm_compute. left. reflexivity.
  - vm_compute. right. left. reflexivity.
Defined.

(** C8, as stated, fails.  With a single numeric field the map is empty, so
    the entry keyed a_a is not 1.  With names that hold underscores two
    pairs of fields can share a key: for the fields a_b, c, a, b_c the pairs
    (a_b, c) and (a, b_c) both write a_b_c, so the entries keyed a_b_c and
    c_a_b differ; for the fields a_a, a, a_a_a the pair (a, a_a_a) overwrites
    the diagonal entry a_a_a_a of the field a_a. *)
Lemma correlations_not_symmetric_unit_diagonal :
  CorrelationMatrix.correlations _ Sample.calculateCorrelation
    [numberField "a" [1; 2; 3]%float]
    !! CorrelationMatrix.key (numberField "a" [1; 2; 3]%float)
                             (numberField "a" [1; 2; 3]%float)
  = None
  /\ (let fields :=
        [numberField "a_b" [1; 2; 3]%float; numberField "c" [1; 2; 3]%float;
         numberField "a" [1; 2; 3]%float; numberField "b_c" [3; 2; 1]%float] in
      CorrelationMatrix.correlations _ Sample.calculateCorrelation fields
        !! CorrelationMatrix.key (numberField "a_b" [1; 2; 3]%float)
                                 (numberField "c" [1; 2; 3]%float)
      = Some (-1)%float
      /\ CorrelationMatrix.correlations _ Sample.calculateCorrelation fields
           !! CorrelationMatrix.key (numberField "c" [1; 2; 3]%float)
                                    (numberField "a_b" [1; 2; 3]%float)
         = Some 1%float)
  /\ (let fields :=
        [numberField "a_a" [1; 2; 3]%float; numberField "a" [1; 2; 3]%float;
         numberField "a_a_a" [3; 2; 1]%float] in
      CorrelationMatrix.correlations _ Sample.calculateCorrelation fields
        !! CorrelationMatrix.key (numberField "a_a" [1; 2; 3]%float)
                                 (numberField "a_a" [1; 2; 3]%float)
      = Some (-1)%float).
Proof. repeat split; vm_compute; reflexivity. Qed.

(** The amended statement needs its last premise: the fields named '_' and
    'proto__' have keys that determine the names, but the key of the pair
    is '__proto__', under which the record stores no number, and the
    mirrored property then holds no number either. *)
Lemma correlations_prototype_key :
  let first := numberField "_" [1; 2; 3]%float in
  let second := numberField "proto__" [2; 4; 6]%float in
  CorrelationMatrix.key first second = "__proto__"%string
  /\ CorrelationMatrix.keysDetermineNames [first; second]
  /\ CorrelationMatrix.correlations _ Sample.calculateCorrelation [first; second]
       !! CorrelationMatrix.key first second = None
  /\ CorrelationMatrix.correlations _ Sample.calculateCorrelation [first; second]
       !! CorrelationMatrix.key second first = None
  /\ CorrelationMatrix.correlations _ Sample.calculateCorrelation [first; second]
       !! CorrelationMatrix.key first first = Some 1%float.
Proof.
  intros first second. split; [reflexivity|]. split.
  - intros f1 f2 g1 g2 [<-|[<-|[]]] [<-|[<-|[]]] [<-|[<-|[]]] [<-|[<-|[]]] Hkey;
      try (split; reflexivity); vm_compute in Hkey; discriminate.
  - repeat split; vm_compute; reflexivity.
Qed.

(** ** TextSummarization: trimming *)

Section Trim.
Import TextSummarization.

Variable p : ascii -> bool.

Lemma dropWhile_head (l : list ascii) :
  match dropWhile p l with
  | [] => True
  | c :: _ => p c = false
  end.
Proof.
  induction l as [|c rest IH]; simpl; [exact I|].
  destruct (p c) eqn:Hc; [exact IH | exact Hc].
Qed.

Lemma dropWhile_fixed (l : list ascii) :
  match l with
  | [] => True
  | c :: _ => p c = false
  end ->
  dropWhile p l = l.
Proof. destruct l as [|c rest]; simpl; [reflexivity|]. now intros ->. Qed.

Lemma dropWhile_suffix (l : list ascii) :
  exists dropped, l = dropped ++ dropWhile p l.
Proof.
  induction l as [|c rest [dropped IH]]; simpl; [now exists []|].
  destruct (p c).
  - exists (c :: dropped). simpl. now f_equal.
  - now exists [].
Qed.

(** Dropping from both ends leaves a list that starts and ends clean. *)
Lemma trimmed_twice (l : list ascii) :
  rev (dropWhile p (rev (dropWhile p (rev (dropWhile p (rev (dropWhile p l)))))))
  = rev (dropWhile p (rev (dropWhile p l))).
Proof.
  set (t := dropWhile p l).
  set (d := dropWhile p (rev t)).
  assert (Hd : dropWhile p d = d) by (apply dropWhile_fixed, dropWhile_head).
  assert (Hu : dropWhile p (rev d) = rev d).
  { apply dropWhile_fixed.
    destruct d as [|x d'] eqn:Ed; [exact I|].
    destruct (dropWhile_suffix (rev t)) as [w Hw]. fold d in Hw. rewrite Ed in Hw.
    assert (Ht : t = (rev d' ++ [x]) ++ rev w).
    { rewrite <- (rev_involutive t), Hw, rev_app_distr. reflexivity. }
    pose proof (dropWhile_head l) as Hhead. fold t in Hhead. rewrite Ht in Hhead.
    simpl. destruct (rev d' ++ [x]) as [|c u] eqn:Eu.
    - destruct (rev d'); discriminate.
    - exact Hhead. }
  rewrite Hu, rev_involutive, Hd. reflexivity.
Qed.

End Trim.

Lemma trim_idempotent (s : string) :
  TextSummarization.trim (TextSummarization.trim s) = TextSummarization.trim s.
Proof.
  unfold TextSummarization.trim, TextSummarization.trimChars.
  rewrite list_ascii_of_string_of_list_ascii, trimmed_twice. reflexivity.
Qed.

(** Every sentence that [splitSentences] returns is trimmed. *)
Lemma splitSentences_trimmed (fullText sentence : string) :
  In sentence (TextSummarization.splitSentences fullText) ->
  TextSummarization.trim sentence = sentence.
Proof.
  unfold TextSummarization.splitSentences. intros Hin.
  apply in_map_iff in Hin. destruct Hin as [raw [<- _]].
  apply trim_idempotent.
Qed.

(** ** TextSummarization: the selection of the top sentences *)

Section Selection.
Import Js TextSummarization.

(** The comparator [(a, b) => a.position - b.position]. *)
Lemma insertSorted_by_position (x : ScoredSentence) (l : list ScoredSentence) :
  StronglySorted (fun a b => position a <= position b) l ->
  StronglySorted (fun a b => position a <= position b)
    (insertSorted
       (fun a b => (0 <? Z.of_nat (position a) - Z.of_nat (position b))%Z) x l).
Proof.
  induction l as [|y rest IH]; intros Hsorted; simpl.
  - constructor; constructor.
  - apply StronglySorted_inv in Hsorted. destruct Hsorted as [Hrest Hy].
    destruct (0 <? Z.of_nat (position x) - Z.of_nat (position y))%Z eqn:Hcmp.
    + apply Z.ltb_lt in Hcmp. constructor; [now apply IH|].
      apply (Permutation_Forall
               (Permutation_sym (insertSorted_permutation _ x rest))).
      constructor; [lia | exact Hy].
    + apply Z.ltb_ge in Hcmp. constructor.
      * now constructor.
      * constructor; [lia|].
        eapply List.Forall_impl; [|exact Hy]. simpl. intros z Hz. lia.
Qed.

Lemma sortZ_by_position (l : list ScoredSentence) :
  StronglySorted (fun a b => position a <= position b)
    (sortZ (fun a b => Z.of_nat (position a) - Z.of_nat (position b))%Z l).
Proof.
  unfold sortZ. induction l as [|x rest IH]; simpl; [constructor|].
  now apply insertSorted_by_position.
Qed.

(** Sorted positions without repetition increase strictly. *)
Lemma sorted_strictly (l : list ScoredSentence) :
  StronglySorted (fun a b => position a <= position b) l ->
  List.NoDup (map position l) ->
  StronglySorted (fun a b => position a < position b) l.
Proof.
  induction l as [|x rest IH]; intros Hsorted Hnodup; [constructor|].
  apply StronglySorted_inv in Hsorted. destruct Hsorted as [Hrest Hx].
  simpl in Hnodup. apply List.NoDup_cons_iff in Hnodup.
  destruct Hnodup as [Hnotin Hnodup].
  constructor; [now apply IH|].
  rewrite List.Forall_forall in Hx |- *. intros y Hy.
  specialize (Hx y Hy).
  assert (position y <> position x); [|lia].
  intros Heq. apply Hnotin. rewrite <- Heq. now apply in_map.
Qed.

(** [slice(0, end)] with a non-negative [end] keeps a prefix of at most
    [end] elements. *)
Lemma slice0_prefix {A : Type} (l : list A) (end_ : Z) :
  (0 <= end_)%Z ->
  exists dropped,
    l = slice0 l end_ ++ dropped /\ (Z.of_nat (length (slice0 l end_)) <= end_)%Z.
Proof.
  intros Hend. unfold slice0.
  assert (Hneg : (end_ <? 0)%Z = false) by (apply Z.ltb_ge; exact Hend).
  rewrite Hneg. eexists. split; [symmetry; apply firstn_skipn|].
  rewrite length_firstn. lia.
Qed.

(** The scored sentences carry the positions 0, 1, 2, ... in order. *)
Lemma positions_imap (f : nat -> string -> ScoredSentence) (l : list string) :
  forall k,
    (forall i s, position (f i s) = k + i) ->
    map position (imap f l) = seq k (length l).
Proof.
  revert f. induction l as [|x rest IH]; intros f k Hf; [reflexivity|].
  simpl. rewrite Hf, Nat.add_0_r. f_equal.
  apply IH. intros i s. unfold compose. rewrite Hf. lia.
Qed.

Lemma imap_element (f : nat -> string -> ScoredSentence) (l : list string)
  (x : ScoredSentence) :
  In x (imap f l) -> exists i s, x = f i s /\ l !! i = Some s.
Proof. intros Hx. apply elem_of_lookup_imap_1, list_elem_of_In, Hx. Qed.

End Selection.

(** ** TextSummarization: a text with a sentence is not blank *)

Section BlankText.
Import Js TextSummarization.

Lemma dropWhile_nil_all (p : ascii -> bool) (l : list ascii) :
  dropWhile p l = [] -> forallb p l = true.
Proof.
  induction l as [|c rest IH]; simpl; [reflexivity|].
  destruct (p c); [exact IH | discriminate].
Qed.

Lemma length_string_of_list (l : list ascii) :
  String.length (string_of_list_ascii l) = length l.
Proof. induction l as [|c rest IH]; simpl; [reflexivity | now rewrite IH]. Qed.

(** A string that trims to the empty string holds white space only. *)
Lemma blank_all_whitespace (s : string) :
  String.length (trim s) = 0 ->
  forallb isWhiteSpace (list_ascii_of_string s) = true.
Proof.
  unfold trim, trimChars. rewrite length_string_of_list, length_rev.
  intros Hlen. apply length_zero_iff_nil, dropWhile_nil_all in Hlen.
  rewrite forallb_forall in Hlen.
  pose proof (dropWhile_head isWhiteSpace (list_ascii_of_string s)) as Hhead.
  destruct (dropWhile isWhiteSpace (list_ascii_of_string s)) as [|c t] eqn:Hdrop.
  - now apply dropWhile_nil_all.
  - rewrite (Hlen c) in Hhead; [discriminate|].
    apply in_rev. rewrite rev_involutive. now left.
Qed.

(** A pattern that starts with a character other than white space matches
    nowhere in white space. *)
Lemma replaceFrom_whitespace (d : ascii) (pattern : list Atom)
  (replacement l : list ascii) :
  isWhiteSpace d = false ->
  forallb isWhiteSpace l = true ->
  replaceFrom (Lit d :: pattern) replacement 0 l = l.
Proof.
  intros Hd. induction l as [|c rest IH]; intros Hall; [reflexivity|].
  simpl in Hall. apply andb_true_iff in Hall. destruct Hall as [Hc Hrest].
  cbn [replaceFrom matchesAt atomMatches].
  destruct (Ascii.eqb c d) eqn:Heq.
  - apply Ascii.eqb_eq in Heq. congruence.
  - simpl. f_equal. now apply IH.
Qed.

Lemma replace_whitespace (abbr replacement s : string) :
  match regExp abbr with
  | Lit d :: _ => negb (isWhiteSpace d)
  | _ => false
  end = true ->
  forallb isWhiteSpace (list_ascii_of_string s) = true ->
  replace (regExp abbr) replacement s = s.
Proof.
  intros Hpat Hall. unfold replace.
  destruct (regExp abbr) as [|[d|] pattern]; try discriminate.
  apply negb_true_iff in Hpat.
  rewrite replaceFrom_whitespace by assumption.
  apply string_of_list_ascii_of_string.
Qed.

Lemma whitespace_no_end_mark (c : ascii) :
  isWhiteSpace c = true -> isEndMark c = false.
Proof.
  intros Hc. unfold isEndMark.
  destruct (Ascii.eqb c ".") eqn:H1; [apply Ascii.eqb_eq in H1; now subst|].
  destruct (Ascii.eqb c "!") eqn:H2; [apply Ascii.eqb_eq in H2; now subst|].
  destruct (Ascii.eqb c "?") eqn:H3; [apply Ascii.eqb_eq in H3; now subst|].
  reflexivity.
Qed.

Lemma matchFrom_whitespace (l : list ascii) :
  forallb isWhiteSpace l = true ->
  forall body, matchFrom l body [] = [].
Proof.
  induction l as [|c rest IH]; intros Hall body; [reflexivity|].
  simpl in Hall. apply andb_true_iff in Hall. destruct Hall as [Hc Hrest].
  simpl. rewrite (whitespace_no_end_mark c Hc). now apply IH.
Qed.

(** A blank text has no sentences. *)
Lemma blank_no_sentences (fullText : string) :
  String.length (trim fullText) = 0 -> splitSentences fullText = [].
Proof.
  intros Hblank. apply blank_all_whitespace in Hblank.
  unfold splitSentences.
  assert (Hsame :
    fold_left (fun processed '(abbr, placeholder) =>
                 replace (regExp abbr) placeholder processed)
      (combine abbrev placeholders) fullText = fullText).
  { assert (Hpatterns :
      Forall (fun pair : string * string =>
                match regExp (fst pair) with
                | Lit d :: _ => negb (isWhiteSpace d)
                | _ => false
                end = true) (combine abbrev placeholders))
      by (repeat constructor).
    induction Hpatterns as [|[abbr placeholder] rest Hpat _ IH]; [reflexivity|].
    simpl. rewrite (replace_whitespace abbr placeholder fullText Hpat Hblank).
    exact IH. }
  rewrite Hsame. unfold matchSentences.
  rewrite (matchFrom_whitespace _ Hblank). reflexivity.
Qed.

End BlankText.

(** ** TextSummarization: generateSummary *)

Section GenerateSummary.
Import Js TextSummarization.

(** With at least one sentence, neither guard of [generateSummary]
    throws. *)
Lemma generateSummary_runs (texts : list string) (maxSentences : Z) :
  splitSentences (join " " (map Some texts)) <> [] ->
  generateSummary texts maxSentences
  = Normal
      (sortZ (fun a b => Z.of_nat (position a) - Z.of_nat (position b))%Z
         (slice0
            (sort (fun a b => (score b - score a)%float)
               (imap (scoreSentence
                        (countWords (significantWords (join " " (map Some texts))))
                        (length (splitSentences (join " " (map Some texts)))))
                  (splitSentences (join " " (map Some texts)))))
            maxSentences)).
Proof.
  intros Hsentences. unfold generateSummary.
  assert (Hblank :
    Nat.eqb (String.length (trim (join " " (map Some texts)))) 0 = false).
  { apply Nat.eqb_neq. intros Hblank.
    apply blank_no_sentences in Hblank. contradiction. }
  rewrite Hblank, (length_nonzero _ Hsentences). reflexivity.
Qed.

(** The selection, for any scoring that records the position and the
    trimmed text of each sentence. *)
Lemma selection_properties (scoreOf : nat -> string -> ScoredSentence)
  (sentences : list string) (maxSentences : Z) :
  (forall i s, position (scoreOf i s) = i) ->
  (forall i s, text (scoreOf i s) = trim s) ->
  (forall s, In s sentences -> trim s = s) ->
  (0 <= maxSentences)%Z ->
  forall top,
    top = sortZ (fun a b => Z.of_nat (position a) - Z.of_nat (position b))%Z
            (slice0 (sort (fun a b => (score b - score a)%float)
                       (imap scoreOf sentences))
               maxSentences) ->
    (Z.of_nat (length top) <= maxSentences)%Z
    /\ (forall s, In s top -> sentences !! position s = Some (text s))
    /\ StronglySorted (fun a b => position a < position b) top.
Proof.
  intros Hposition Htext Htrimmed Hmax top ->.
  destruct (slice0_prefix
              (sort (fun a b => (score b - score a)%float) (imap scoreOf sentences))
              maxSentences Hmax) as [dropped [Hprefix Hcount]].
  pose proof (sort_after_permutation
                (fun x y => (0 <? Z.of_nat (position x) - Z.of_nat (position y))%Z)
                (slice0 (sort (fun a b => (score b - score a)%float)
                           (imap scoreOf sentences)) maxSentences)) as Htop.
  pose proof (sort_after_permutation
                (fun x y => PrimFloat.ltb 0 (score y - score x))
                (imap scoreOf sentences)) as Hranked.
  fold (sortZ (fun a b => Z.of_nat (position a) - Z.of_nat (position b))%Z
          (slice0 (sort (fun a b => (score b - score a)%float)
                     (imap scoreOf sentences)) maxSentences)) in Htop.
  fold (sort (fun a b => (score b - score a)%float) (imap scoreOf sentences))
    in Hranked.
  split; [|split].
  - rewrite (Permutation_length Htop). exact Hcount.
  - intros s Hs.
    assert (Hin : In s (imap scoreOf sentences)).
    { apply (Permutation_in _ Hranked). rewrite Hprefix.
      apply in_or_app. left. apply (Permutation_in _ Htop Hs). }
    destruct (imap_element _ _ _ Hin) as [i [sentence [-> Hi]]].
    rewrite Hposition, Htext, Htrimmed; [exact Hi|].
    apply list_elem_of_In. eapply list_elem_of_lookup_2; eauto.
  - apply sorted_strictly; [apply sortZ_by_position|].
    apply (Permutation_NoDup (Permutation_map position (Permutation_sym Htop))).
    apply (List.NoDup_app_remove_r _ (map position dropped)).
    rewrite <- map_app, <- Hprefix.
    apply (Permutation_NoDup (Permutation_map position (Permutation_sym Hranked))).
    rewrite (positions_imap _ _ 0) by (intros i s; apply Hposition).
    apply List.seq_NoDup.
Qed.

(** C9, as amended.  For every input text with at least one sentence and
    every non-negative [maxSentences], [generateSummary] selects at most
    [maxSentences] sentences, each of them the sentence that
    [splitSentences] found at its position, in strictly ascending order of
    these positions. *)
Theorem generateSummary_selection (texts : list string) (maxSentences : Z) :
  (0 <= maxSentences)%Z ->
  splitSentences (join " " (map Some texts)) <> [] ->
  exists summary,
    generateSummary texts maxSentences = Normal summary
    /\ (Z.of_nat (length summary) <= maxSentences)%Z
    /\ (forall s, In s summary ->
                  splitSentences (join " " (map Some texts)) !! position s
                  = Some (text s))
    /\ StronglySorted (fun a b => position a < position b) summary.
Proof.
  intros Hmax Hsentences. eexists.
  split; [apply generateSummary_runs; exact Hsentences|].
  eapply selection_properties; [| | |exact Hmax|reflexivity].
  - reflexivity.
  - reflexivity.
  - apply splitSentences_trimmed.
Qed.

End GenerateSummary.

Lemma generateSummary_witness :
  (0 <= 2)%Z
  /\ TextSummarization.splitSentences
       (Js.join " "
          (map Some ["The cat sat on the mat. The dog ate the cat food!";
                     "Birds fly high. Cats and dogs are pets."]%string))
     <> []
  /\ exists summary,
       TextSummarization.generateSummary
         ["The cat sat on the mat. The dog ate the cat food!";
          "Birds fly high. Cats and dogs are pets."]%string 2
       = Js.Normal summary
       /\ map TextSummarization.text summary
          = ["The cat sat on the mat."; "The dog ate the cat food!"]%string
       /\ StronglySorted
            (fun a b => TextSummarization.position a < TextSummarization.position b)
            summary.
Proof.
  assert (Hmax : (0 <= 2)%Z) by lia.
  assert (Hsentences :
    TextSummarization.splitSentences
      (Js.join " "
         (map Some ["The cat sat on the mat. The dog ate the cat food!";
                    "Birds fly high. Cats and dogs are pets."]%string))
    <> []) by (vm_compute; discriminate).
  split; [exact Hmax|]. split; [exact Hsentences|].
  destruct (generateSummary_selection _ 2 Hmax Hsentences)
    as [summary [Hrun [_ [_ Hsorted]]]].
  exists summary. split; [exact Hrun|]. split; [|exact Hsorted].
  vm_compute in Hrun. injection Hrun as <-. reflexivity.
Defined.

(** C9, as stated, fails for a negative [maxSentences]: [slice(0, -1)]
    drops the last element only, so of four sentences three are selected,
    which is more than -1. *)
Lemma generateSummary_negative_count :
  exists summary,
    TextSummarization.generateSummary
      ["The cat sat on the mat. The dog ate the cat food!";
       "Birds fly high. Cats and dogs are pets."]%string (-1)
    = Js.Normal summary
    /\ length summary = 3
    /\ ~ (Z.of_nat (length summary) <= -1)%Z.
Proof.
  eexists. split; [vm_compute; reflexivity|]. split; [reflexivity|].
  simpl. lia.
Qed.

(** ** Order of floating-point numbers *)

Section FloatOrder.
Local Open Scope float_scope.

Lemma SFcompare_Lt_Gt (a b : spec_float) :
  SFcompare a b = Some Lt -> SFcompare b a = Some Gt.
Proof.
  destruct a as [sa|sa| |sa ma ea], b as [sb|sb| |sb mb eb]; simpl;
    try discriminate;
    try (destruct sa; discriminate || reflexivity);
    try (destruct sb; discriminate || reflexivity);
    try (destruct sa, sb; discriminate || reflexivity).
  destruct sa, sb; try discriminate; try reflexivity;
    rewrite (Z.compare_antisym ea eb);
    change (Pos.compare_cont Eq mb ma) with (Pos.compare mb ma);
    change (Pos.compare_cont Eq ma mb) with (Pos.compare ma mb);
    rewrite (Pos.compare_antisym ma mb);
    destruct (ea ?= eb)%Z; simpl; try discriminate; try reflexivity;
    destruct (ma ?= mb)%positive; simpl; try discriminate; reflexivity.
Qed.

Lemma ltb_asymmetric (a b : float) : (a <? b) = true -> (b <? a) = false.
Proof.
  rewrite !ltb_spec. unfold SFltb. intros H.
  destruct (SFcompare (Prim2SF a) (Prim2SF b)) as [[| |]|] eqn:Hab;
    try discriminate.
  now rewrite (SFcompare_Lt_Gt _ _ Hab).
Qed.

Lemma ltb_irreflexive (a : float) : (a <? a) = false.
Proof.
  destruct (a <? a) eqn:H; [|reflexivity].
  now rewrite (ltb_asymmetric a a H) in H.
Qed.

Lemma ltb_nan_r (a : float) : (a <? PrimFloat.nan) = false.
Proof. rewrite ltb_spec. unfold SFltb. now destruct (Prim2SF a). Qed.

Lemma ltb_nan_l (a : float) : (PrimFloat.nan <? a) = false.
Proof. rewrite ltb_spec. unfold SFltb. now destruct (Prim2SF a). Qed.

(** [Math.max(lo, Math.min(hi, x))] is never above [hi] and never below
    [lo]; it is NaN when [x] is. *)
Lemma clamp_bounds (lo hi x : float) :
  (lo <? hi) = true ->
  PrimFloat.is_nan lo = false -> PrimFloat.is_nan hi = false ->
  (hi <? Js.max2 lo (Js.min2 hi x)) = false
  /\ (Js.max2 lo (Js.min2 hi x) <? lo) = false.
Proof.
  intros Hlohi Hlo Hhi.
  assert (Hm : (Js.min2 hi x = PrimFloat.nan)
               \/ (PrimFloat.is_nan (Js.min2 hi x) = false
                   /\ (hi <? Js.min2 hi x) = false)).
  { unfold Js.min2. rewrite Hhi. simpl.
    destruct (PrimFloat.is_nan x) eqn:Hx; [now left|right].
    destruct (hi <? x) eqn:H1.
    - split; [exact Hhi | apply ltb_irreflexive].
    - destruct (x <? hi) eqn:H2; [split; assumption|].
      destruct (PrimFloat.get_sign hi);
        [split; [exact Hhi | apply ltb_irreflexive] | split; assumption]. }
  destruct Hm as [->|[Hnan Hm]].
  - unfold Js.max2. rewrite Hlo. simpl.
    split; [apply ltb_nan_r | apply ltb_nan_l].
  - unfold Js.max2. rewrite Hlo, Hnan. simpl.
    destruct (lo <? Js.min2 hi x) eqn:H1.
    + split; [exact Hm | now apply ltb_asymmetric].
    + destruct (Js.min2 hi x <? lo) eqn:H2.
      * split; [now apply ltb_asymmetric | apply ltb_irreflexive].
      * destruct (PrimFloat.get_sign lo);
          [split; assumption
          |split; [now apply ltb_asymmetric | apply ltb_irreflexive]].
Qed.

End FloatOrder.

(** ** The selection of fields *)

Section SelectionFacts.
Import Selection.

Lemma filter_other_In (prev : list string) (fieldName x : string) :
  In x (List.filter (fun f => negb (String.eqb f fieldName)) prev)
  <-> In x prev /\ x <> fieldName.
Proof.
  rewrite filter_In, negb_true_iff, String.eqb_neq. reflexivity.
Qed.

Lemma toggle_membership (prev : list string) (fieldName : string) :
  (In fieldName (toggleFieldSelection prev fieldName) <-> ~ In fieldName prev)
  /\ (forall x, x <> fieldName ->
                (In x (toggleFieldSelection prev fieldName) <-> In x prev))
  /\ (List.NoDup prev -> List.NoDup (toggleFieldSelection prev fieldName)).
Proof.
  unfold toggleFieldSelection.
  destruct (bool_decide (fieldName ∈ prev)) eqn:Hin.
  - apply bool_decide_eq_true, list_elem_of_In in Hin.
    split; [|split].
    + rewrite filter_other_In. tauto.
    + intros x Hx. rewrite filter_other_In. tauto.
    + apply List.NoDup_filter.
  - apply bool_decide_eq_false in Hin. rewrite list_elem_of_In in Hin.
    split; [|split].
    + rewrite in_app_iff. simpl. tauto.
    + intros x Hx. rewrite in_app_iff. simpl.
      split; [intros [H|[H|[]]]; [exact H | congruence] | tauto].
    + intros Hnodup. apply List.NoDup_app; [exact Hnodup | | ].
      * constructor; [intros [] | constructor].
      * intros x Hx [<-|[]]. contradiction.
Qed.

(** X1.  Toggling a name flips its membership in the selection, leaves
    the membership of every other name as it was, and keeps a selection
    without repetition free of repetition. *)
Theorem toggle_flips_membership (prev : list string) (fieldName : string) :
  (In fieldName (toggleFieldSelection prev fieldName) <-> ~ In fieldName prev)
  /\ (forall x, x <> fieldName ->
                (In x (toggleFieldSelection prev fieldName) <-> In x prev))
  /\ (List.NoDup prev -> List.NoDup (toggleFieldSelection prev fieldName)).
Proof. exact (toggle_membership prev fieldName). Qed.

(** X2.  A click on a cell of the diagonal toggles the same name twice and
    so leaves the membership of every name as it was; a click on a cell of
    two different names flips the membership of both. *)
Theorem clickCell_membership (prev : list string) (field1 field2 : string) :
  (field1 = field2 ->
   forall x, In x (clickCell prev field1 field2) <-> In x prev)
  /\ (field1 <> field2 ->
      (In field1 (clickCell prev field1 field2) <-> ~ In field1 prev)
      /\ (In field2 (clickCell prev field1 field2) <-> ~ In field2 prev)
      /\ forall x, x <> field1 -> x <> field2 ->
                   (In x (clickCell prev field1 field2) <-> In x prev)).
Proof.
  unfold clickCell. split.
  - intros <- x.
    destruct (toggle_membership prev field1) as [Hself [Hother _]].
    destruct (toggle_membership (toggleFieldSelection prev field1) field1)
      as [Hself' [Hother' _]].
    destruct (string_dec x field1) as [->|Hx].
    + rewrite Hself', Hself.
      destruct (in_dec string_dec field1 prev); tauto.
    + rewrite (Hother' x Hx). apply (Hother x Hx).
  - intros Hne.
    destruct (toggle_membership prev field1) as [Hself [Hother _]].
    destruct (toggle_membership (toggleFieldSelection prev field1) field2)
      as [Hself' [Hother' _]].
    split; [|split].
    + rewrite (Hother' field1 Hne). exact Hself.
    + rewrite Hself', (Hother field2) by congruence. reflexivity.
    + intros x H1 H2. rewrite (Hother' x H2). apply (Hother x H1).
Qed.

End SelectionFacts.

Lemma toggle_witness :
  List.NoDup ["a"; "b"]%string
  /\ List.NoDup (Selection.toggleFieldSelection ["a"; "b"]%string "a")
  /\ ~ In "a"%string (Selection.toggleFieldSelection ["a"; "b"]%string "a").
Proof.
  assert (Hnodup : List.NoDup ["a"; "b"]%string).
  { constructor; [intros [H|[]]; discriminate|].
    constructor; [intros []|constructor]. }
  destruct (toggle_flips_membership ["a"; "b"]%string "a") as [Hself [_ Hkeep]].
  split; [exact Hnodup|]. split; [exact (Hkeep Hnodup)|].
  intros Hin. apply Hself in Hin. apply Hin. left. reflexivity.
Defined.

Lemma clickCell_witness :
  "a"%string <> "b"%string
  /\ In "b"%string (Selection.clickCell ["a"; "c"]%string "a" "b")
  /\ ~ In "a"%string (Selection.clickCell ["a"; "c"]%string "a" "b").
Proof.
  assert (Hne : "a"%string <> "b"%string) by discriminate.
  destruct (proj2 (clickCell_membership ["a"; "c"]%string "a" "b") Hne)
    as [H1 [H2 _]].
  split; [exact Hne|]. split.
  - apply H2. intros [H|[H|[]]]; discriminate.
  - intros Hin. apply H1 in Hin. apply Hin. left. reflexivity.
Defined.

(** ** Loops over the pairs of indices i < j *)

Section PairLoops.
Context {A St : Type}.
Variable l : list A.
Variable step : St -> A -> A -> St.
Variable body : St -> nat -> nat -> St.
Hypothesis body_step :
  forall s i j x y, l !! i = Some x -> l !! j = Some y -> body s i j = step s x y.

Lemma inner_loop (x : A) (i : nat) :
  l !! i = Some x ->
  forall (rest before : list A) (s : St),
    l = before ++ rest ->
    fold_left (fun s j => body s i j) (seq (length before) (length rest)) s
    = fold_left (fun s y => step s x y) rest s.
Proof.
  intros Hi. induction rest as [|y rest IH]; intros before s Hl; [reflexivity|].
  simpl. rewrite (body_step s i (length before) x y Hi)
    by (rewrite Hl; apply list_lookup_middle; reflexivity).
  replace (S (length before)) with (length (before ++ [y]))
    by (rewrite length_app; simpl; lia).
  apply IH. rewrite Hl, <- app_assoc. reflexivity.
Qed.

Lemma outer_loop :
  forall (rest before : list A) (s : St),
    l = before ++ rest ->
    fold_left
      (fun s i => fold_left (fun s j => body s i j)
                    (seq (S i) (length l - S i)) s)
      (seq (length before) (length rest)) s
    = fold_left (fun s xy => step s (fst xy) (snd xy)) (pairsOf rest) s.
Proof.
  induction rest as [|x rest IH]; intros before s Hl; [reflexivity|].
  cbn [length seq fold_left pairsOf].
  assert (Hi : l !! length before = Some x)
    by (rewrite Hl; apply list_lookup_middle; reflexivity).
  assert (Hlen : length l - S (length before) = length rest)
    by (rewrite Hl, length_app; simpl; lia).
  rewrite Hlen.
  replace (S (length before)) with (length (before ++ [x]))
    by (rewrite length_app; simpl; lia).
  rewrite (inner_loop x (length before) Hi rest (before ++ [x]))
    by (rewrite Hl, <- app_assoc; reflexivity).
  rewrite fold_left_app, (IH (before ++ [x]))
    by (rewrite Hl, <- app_assoc; reflexivity).
  f_equal. generalize s. clear.
  induction rest as [|y rest IH]; intros s; [reflexivity|]. simpl. apply IH.
Qed.

(** The two nested loops visit the pairs of [pairsOf], in its order. *)
Lemma nested_loops (s : St) :
  fold_left
    (fun s i => fold_left (fun s j => body s i j)
                  (seq (S i) (length l - S i)) s)
    (seq 0 (length l)) s
  = fold_left (fun s xy => step s (fst xy) (snd xy)) (pairsOf l) s.
Proof. exact (outer_loop l [] s eq_refl). Qed.

End PairLoops.

Section PairsOf.
Context {A : Type}.

Lemma pairsOf_In (l : list A) (a b : A) :
  In (a, b) (pairsOf l) -> In a l /\ In b l.
Proof.
  induction l as [|x rest IH]; simpl; [contradiction|].
  rewrite in_app_iff, in_map_iff. intros [[y [[= <- <-] Hy]]|H].
  - split; [now left | now right].
  - destruct (IH H). split; now right.
Qed.


Lemma pairsOf_length (l : list A) :
  2 * length (pairsOf l) = length l * (length l - 1).
Proof.
  induction l as [|x rest IH]; [reflexivity|].
  cbn [pairsOf]. rewrite length_app, length_map. simpl length.
  destruct rest as [|y rest']; [reflexivity|].
  simpl length in *. nia.
Qed.

(** With distinct names, a pair and its mirror image are not both among
    the pairs, and a pair is determined by its two names. *)
Lemma pairsOf_names {B : Type} (nm : A -> B) (l : list A) :
  List.NoDup (map nm l) ->
  forall a b c d,
    In (a, b) (pairsOf l) -> In (c, d) (pairsOf l) ->
    (nm c = nm b -> nm d = nm a -> False)
    /\ (nm c = nm a -> nm d = nm b -> c = a /\ d = b).
Proof.
  induction l as [|x rest IH]; intros Hnodup a b c d; simpl; [contradiction|].
  simpl in Hnodup. apply List.NoDup_cons_iff in Hnodup. destruct Hnodup as [Hx Hrest].
  assert (Hfresh : forall y, In y rest -> nm y <> nm x).
  { intros y Hy Heq. apply Hx. rewrite <- Heq. now apply in_map. }
  assert (Hinj : forall y z, In y rest -> In z rest -> nm y = nm z -> y = z).
  { clear -Hrest. induction rest as [|w rest IHr]; intros y z Hy Hz Heq;
      [contradiction|].
    simpl in Hrest. apply List.NoDup_cons_iff in Hrest. destruct Hrest as [Hw Hrest].
    destruct Hy as [->|Hy], Hz as [->|Hz]; auto.
    - exfalso. apply Hw. rewrite Heq. now apply in_map.
    - exfalso. apply Hw. rewrite <- Heq. now apply in_map. }
  rewrite !in_app_iff, !in_map_iff.
  intros [[b' [[= <- <-] Hb]]|Hab] [[d' [[= <- <-] Hd]]|Hcd].
  - split; [intros H _; now apply (Hfresh b') | intros _ H; split; auto].
  - destruct (pairsOf_In _ _ _ Hcd) as [Hc Hd'].
    split; [intros _ H; now apply (Hfresh d) | intros H _; now apply (Hfresh c) in H].
  - destruct (pairsOf_In _ _ _ Hab) as [Ha Hb'].
    split; [intros H _; symmetry in H; now apply (Hfresh b) in H
           | intros H _; symmetry in H; now apply (Hfresh a) in H].
  - apply (IH Hrest a b c d Hab Hcd).
Qed.

End PairsOf.

(** ** AnalysisEngine: hypothesis tests and correlations over the pairs *)

Section EnginePairsFacts.
Import Js EnginePairs.

Variable E : Type.
Variable typeError : E.
Variable Math_pow : float -> float -> float.
Variable Math_exp : float -> float.

Lemma asArray_array (values : JsVal) :
  Array_isArray values = true ->
  asArray E typeError values = Normal (numbersOf values).
Proof. destruct values; try discriminate. reflexivity. Qed.

Lemma isNumberArray_array (values : JsVal) :
  isNumberArray values = true -> Array_isArray values = true.
Proof. destruct values; try discriminate. reflexivity. Qed.

Lemma tests_over_pairs (pairs : list (DataField * DataField)) :
  (forall a b, In (a, b) pairs ->
               Array_isArray (value a) = true /\ Array_isArray (value b) = true) ->
  forall tests,
    fold_left
      (fun acc xy =>
         bind acc (fun tests =>
         bind (asArray E typeError (value (fst xy))) (fun sample1 =>
         bind (asArray E typeError (value (snd xy))) (fun sample2 =>
         Normal (tests ++ [mkTest (name (fst xy), name (snd xy))
                             (performTTest Math_pow Math_exp sample1 sample2)])))))
      pairs (Normal tests)
    = Normal
        (tests ++ map (fun xy =>
                         mkTest (name (fst xy), name (snd xy))
                           (performTTest Math_pow Math_exp
                              (numbersOf (value (fst xy)))
                              (numbersOf (value (snd xy))))) pairs).
Proof.
  induction pairs as [|[a b] rest IH]; intros Harrays tests; simpl.
  - now rewrite app_nil_r.
  - destruct (Harrays a b (or_introl eq_refl)) as [Ha Hb].
    rewrite (asArray_array _ Ha), (asArray_array _ Hb). simpl.
    rewrite IH by (intros c d Hcd; apply Harrays; now right).
    rewrite <- app_assoc. reflexivity.
Qed.

(** X3.  On fields whose values are arrays of numbers,
    [performHypothesisTests] returns one t-test for every pair of fields
    at positions i < j, row by row, so n (n - 1) / 2 tests for n fields;
    each test carries the two names and the t-test of the two arrays. *)
Theorem performHypothesisTests_pairs (fields : list DataField) :
  (forall f, In f fields -> isNumberArray (value f) = true) ->
  exists tests,
    performHypothesisTests E typeError Math_pow Math_exp fields = Normal tests
    /\ tests = map (fun xy =>
                      mkTest (name (fst xy), name (snd xy))
                        (performTTest Math_pow Math_exp
                           (numbersOf (value (fst xy)))
                           (numbersOf (value (snd xy))))) (pairsOf fields)
    /\ 2 * length tests = length fields * (length fields - 1).
Proof.
  intros Hnumbers.
  assert (Harrays : forall f, In f fields -> Array_isArray (value f) = true)
    by (intros f Hf; apply isNumberArray_array; now apply Hnumbers).
  eexists. split; [|split; [reflexivity|]].
  - unfold performHypothesisTests.
    destruct (Nat.ltb (length fields) 2) eqn:Hshort.
    + apply Nat.ltb_lt in Hshort.
      destruct fields as [|x [|y rest]]; simpl in Hshort; try lia; reflexivity.
    + rewrite (nested_loops fields
                 (fun acc field1 field2 =>
                    bind acc (fun tests =>
                    bind (asArray E typeError (value field1)) (fun sample1 =>
                    bind (asArray E typeError (value field2)) (fun sample2 =>
                    Normal (tests ++ [mkTest (name field1, name field2)
                                        (performTTest Math_pow Math_exp
                                           sample1 sample2)])))))).
      * apply (tests_over_pairs (pairsOf fields)).
        intros a b Hab. destruct (pairsOf_In _ _ _ Hab). split; now apply Harrays.
      * intros s i j x y Hi Hj. rewrite Hi, Hj. reflexivity.
  - rewrite length_map. apply pairsOf_length.
Qed.

Lemma correlations_over_pairs (pairs : list (DataField * DataField)) :
  (forall a b, In (a, b) pairs ->
               Array_isArray (value a) = true /\ Array_isArray (value b) = true
               /\ CorrelationMatrix.key a b <> "__proto__"%string) ->
  forall m : gmap string float,
    fold_left
      (fun acc xy =>
         bind acc (fun correlations =>
         bind (asArray E typeError (value (fst xy))) (fun values1 =>
         bind (asArray E typeError (value (snd xy))) (fun values2 =>
         Normal (setNumber (CorrelationMatrix.key (fst xy) (snd xy))
                   (AnalysisEngine.calculatePearsonCorrelation values1 values2)
                   correlations)))))
      pairs (Normal m)
    = Normal
        (fold_left
           (fun correlations xy =>
              <[CorrelationMatrix.key (fst xy) (snd xy) :=
                  AnalysisEngine.calculatePearsonCorrelation
                    (numbersOf (value (fst xy))) (numbersOf (value (snd xy)))]>
                correlations)
           pairs m).
Proof.
  induction pairs as [|[a b] rest IH]; intros Harrays m; simpl; [reflexivity|].
  destruct (Harrays a b (or_introl eq_refl)) as [Ha [Hb Hkey]].
  rewrite (asArray_array _ Ha), (asArray_array _ Hb). simpl.
  unfold setNumber at 2. apply String.eqb_neq in Hkey. rewrite Hkey.
  apply IH. intros c d Hcd. apply Harrays. now right.
Qed.

Lemma calculateCorrelations_fold (fields : list DataField) :
  (forall f, In f fields -> Array_isArray (value f) = true) ->
  CorrelationMatrix.noPrototypeKey fields ->
  calculateCorrelations E typeError fields
  = Normal
      (fold_left
         (fun correlations xy =>
            <[CorrelationMatrix.key (fst xy) (snd xy) :=
                AnalysisEngine.calculatePearsonCorrelation
                  (numbersOf (value (fst xy))) (numbersOf (value (snd xy)))]>
              correlations)
         (pairsOf fields) ∅).
Proof.
  intros Harrays Hproto. unfold calculateCorrelations.
  rewrite (nested_loops fields
             (fun acc field1 field2 =>
                bind acc (fun correlations =>
                bind (asArray E typeError (value field1)) (fun values1 =>
                bind (asArray E typeError (value field2)) (fun values2 =>
                Normal (setNumber (CorrelationMatrix.key field1 field2)
                          (AnalysisEngine.calculatePearsonCorrelation
                             values1 values2) correlations)))))).
  - apply (correlations_over_pairs (pairsOf fields)).
    intros a b Hab. destruct (pairsOf_In _ _ _ Hab) as [Ha Hb].
    split; [now apply Harrays|]. split; [now apply Harrays|].
    now apply Hproto.
  - intros s i j x y Hi Hj. rewrite Hi, Hj. reflexivity.
Qed.

Lemma inserts_keep {X : Type} (keyOf : X -> string) (valueOf : X -> float)
  (items : list X) (k : string) :
  forall m : gmap string float,
    is_Some (m !! k) ->
    is_Some (fold_left (fun m x => <[keyOf x := valueOf x]> m) items m !! k).
Proof.
  induction items as [|y rest IH]; intros m Hk; simpl; [exact Hk|].
  apply IH. apply lookup_insert_is_Some'. now right.
Qed.

(** A map filled from a list of keyed values has every key of the list,
    and holds under each key the value of some element with that key. *)
Lemma inserts_lookup {X : Type} (keyOf : X -> string) (valueOf : X -> float)
  (items : list X) :
  forall m : gmap string float,
    (forall x, In x items ->
               is_Some (fold_left (fun m x => <[keyOf x := valueOf x]> m) items m
                          !! keyOf x))
    /\ (forall k v,
          fold_left (fun m x => <[keyOf x := valueOf x]> m) items m !! k = Some v ->
          m !! k = Some v
          \/ exists x, In x items /\ k = keyOf x /\ v = valueOf x).
Proof.
  induction items as [|y rest IH]; intros m; simpl.
  - split; [contradiction | auto].
  - destruct (IH (<[keyOf y := valueOf y]> m)) as [Hsome Hfrom]. split.
    + intros x [<-|Hx]; [|now apply Hsome].
      apply inserts_keep. rewrite lookup_insert_eq. eauto.
    + intros k v Hkv. destruct (Hfrom k v Hkv) as [Hin|[x [Hx [-> ->]]]].
      * rewrite lookup_insert in Hin. destruct (decide (keyOf y = k)) as [<-|].
        -- injection Hin as <-. right. exists y. auto.
        -- now left.
      * right. exists x. auto.
Qed.

Lemma correlations_entries (fields : list DataField) :
  (forall f, In f fields -> Array_isArray (value f) = true) ->
  CorrelationMatrix.noPrototypeKey fields ->
  exists correlations,
    calculateCorrelations E typeError fields = Normal correlations
    /\ (forall f1 f2, In (f1, f2) (pairsOf fields) ->
                      is_Some (correlations !! CorrelationMatrix.key f1 f2))
    /\ (forall k v, correlations !! k = Some v ->
                    exists f1 f2,
                      In (f1, f2) (pairsOf fields)
                      /\ k = CorrelationMatrix.key f1 f2
                      /\ v = AnalysisEngine.calculatePearsonCorrelation
                               (numbersOf (value f1)) (numbersOf (value f2))).
Proof.
  intros Harrays Hproto. eexists.
  split; [now apply calculateCorrelations_fold|].
  destruct (inserts_lookup
              (fun xy : DataField * DataField =>
                 CorrelationMatrix.key (fst xy) (snd xy))
              (fun xy => AnalysisEngine.calculatePearsonCorrelation
                           (numbersOf (value (fst xy))) (numbersOf (value (snd xy))))
              (pairsOf fields) ∅) as [Hsome Hfrom].
  split.
  - intros f1 f2 Hin. apply (Hsome (f1, f2) Hin).
  - intros k v Hkv. destruct (Hfrom k v Hkv) as [Hempty|[[f1 f2] [Hin [-> ->]]]].
    + rewrite lookup_empty in Hempty. discriminate.
    + exists f1, f2. auto.
Qed.

(** X4.  On fields whose values are arrays of numbers and whose keys are
    never '__proto__', the record that [calculateCorrelations] returns has
    an entry for every pair of fields at positions i < j, and each of its
    entries is the Pearson correlation of such a pair under that pair's
    key. *)
Theorem calculateCorrelations_entries (fields : list DataField) :
  (forall f, In f fields -> isNumberArray (value f) = true) ->
  CorrelationMatrix.noPrototypeKey fields ->
  exists correlations,
    calculateCorrelations E typeError fields = Normal correlations
    /\ (forall f1 f2, In (f1, f2) (pairsOf fields) ->
                      is_Some (correlations !! CorrelationMatrix.key f1 f2))
    /\ (forall k v, correlations !! k = Some v ->
                    exists f1 f2,
                      In (f1, f2) (pairsOf fields)
                      /\ k = CorrelationMatrix.key f1 f2
                      /\ v = AnalysisEngine.calculatePearsonCorrelation
                               (numbersOf (value f1)) (numbersOf (value f2))).
Proof.
  intros Hnumbers Hproto. apply correlations_entries; [|exact Hproto].
  intros f Hf. apply isNumberArray_array. now apply Hnumbers.
Qed.

(** X5.  When, in addition, the names are pairwise different and the keys
    determine the two names they were built from, the entry of a pair at
    positions i < j is the Pearson correlation of exactly these two
    fields, and the mirrored key is absent: the engine stores one
    orientation only. *)
Theorem calculateCorrelations_upper_triangle (fields : list DataField) :
  (forall f, In f fields -> isNumberArray (value f) = true) ->
  CorrelationMatrix.noPrototypeKey fields ->
  CorrelationMatrix.keysDetermineNames fields ->
  List.NoDup (map (fun f => template (name f)) fields) ->
  exists correlations,
    calculateCorrelations E typeError fields = Normal correlations
    /\ forall f1 f2, In (f1, f2) (pairsOf fields) ->
         correlations !! CorrelationMatrix.key f1 f2
         = Some (AnalysisEngine.calculatePearsonCorrelation
                   (numbersOf (value f1)) (numbersOf (value f2)))
         /\ correlations !! CorrelationMatrix.key f2 f1 = None.
Proof.
  intros Hnumbers Hproto Hkeys Hnodup.
  assert (Harrays : forall f, In f fields -> Array_isArray (value f) = true)
    by (intros f Hf; apply isNumberArray_array; now apply Hnumbers).
  destruct (correlations_entries fields Harrays Hproto)
    as [correlations [Hrun [Hsome Hfrom]]].
  exists correlations. split; [exact Hrun|].
  intros f1 f2 Hin. destruct (pairsOf_In _ _ _ Hin) as [Hf1 Hf2]. split.
  - destruct (Hsome f1 f2 Hin) as [v Hv]. rewrite Hv. f_equal.
    destruct (Hfrom _ _ Hv) as [g1 [g2 [Hg [Hkey ->]]]].
    destruct (pairsOf_In _ _ _ Hg) as [Hg1 Hg2].
    destruct (Hkeys f1 f2 g1 g2 Hf1 Hf2 Hg1 Hg2 Hkey) as [H1 H2].
    destruct (proj2 (pairsOf_names (fun f => template (name f)) fields Hnodup
                       f1 f2 g1 g2 Hin Hg) (eq_sym H1) (eq_sym H2)) as [-> ->].
    reflexivity.
  - destruct (correlations !! CorrelationMatrix.key f2 f1) as [v|] eqn:Hv;
      [|reflexivity].
    exfalso. destruct (Hfrom _ _ Hv) as [g1 [g2 [Hg [Hkey _]]]].
    destruct (pairsOf_In _ _ _ Hg) as [Hg1 Hg2].
    destruct (Hkeys f2 f1 g1 g2 Hf2 Hf1 Hg1 Hg2 Hkey) as [H1 H2].
    apply (proj1 (pairsOf_names (fun f => template (name f)) fields Hnodup
                    f1 f2 g1 g2 Hin Hg)); congruence.
Qed.

End EnginePairsFacts.

Lemma performHypothesisTests_witness :
  let fields := [numberField "a" [1; 2; 3]%float; numberField "b" [2; 4; 6]%float;
                 numberField "c" [3; 2; 1]%float] in
  (forall f, In f fields -> isNumberArray (value f) = true)
  /\ exists tests,
       EnginePairs.performHypothesisTests _ Sample.typeError Sample.Math_pow
         (fun x => x) fields = Js.Normal tests
       /\ map EnginePairs.testFields tests
          = [(Some "a", Some "b"); (Some "a", Some "c"); (Some "b", Some "c")]%string.
Proof.
  intros fields.
  assert (Hnumbers : forall f, In f fields -> isNumberArray (value f) = true).
  { intros f [<-|[<-|[<-|[]]]]; reflexivity. }
  split; [exact Hnumbers|].
  destruct (performHypothesisTests_pairs _ Sample.typeError Sample.Math_pow
              (fun x => x) fields Hnumbers) as [tests [Hrun [Htests _]]].
  exists tests. split; [exact Hrun|]. rewrite Htests. reflexivity.
Defined.

Lemma calculateCorrelations_entries_witness :
  let a := numberField "a" [1; 2; 3]%float in
  let b := numberField "b" [2; 4; 6]%float in
  (forall f, In f [a; b] -> isNumberArray (value f) = true)
  /\ CorrelationMatrix.noPrototypeKey [a; b]
  /\ exists correlations,
       EnginePairs.calculateCorrelations _ Sample.typeError [a; b]
       = Js.Normal correlations
       /\ is_Some (correlations !! CorrelationMatrix.key a b).
Proof.
  intros a b.
  assert (Hnumbers : forall f, In f [a; b] -> isNumberArray (value f) = true).
  { intros f [<-|[<-|[]]]; reflexivity. }
  assert (Hproto : CorrelationMatrix.noPrototypeKey [a; b]).
  { intros f1 f2 [<-|[<-|[]]] [<-|[<-|[]]]; vm_compute; discriminate. }
  split; [exact Hnumbers|]. split; [exact Hproto|].
  destruct (calculateCorrelations_entries _ Sample.typeError [a; b] Hnumbers Hproto)
    as [correlations [Hrun [Hsome _]]].
  exists correlations. split; [exact Hrun|].
  apply Hsome. simpl. left. reflexivity.
Defined.

Lemma calculateCorrelations_upper_triangle_witness :
  let price := numberField "unit_price" [1; 2; 3]%float in
  let qty := numberField "qty" [2; 4; 6]%float in
  (forall f, In f [price; qty] -> isNumberArray (value f) = true)
  /\ CorrelationMatrix.noPrototypeKey [price; qty]
  /\ CorrelationMatrix.keysDetermineNames [price; qty]
  /\ List.NoDup (map (fun f => Js.template (name f)) [price; qty])
  /\ exists correlations,
       EnginePairs.calculateCorrelations _ Sample.typeError [price; qty]
       = Js.Normal correlations
       /\ correlations !! "unit_price_qty"%string = Some 1%float
       /\ correlations !! "qty_unit_price"%string = None.
Proof.
  intros price qty.
  assert (Hnumbers : forall f, In f [price; qty] ->
                               isNumberArray (value f) = true).
  { intros f [<-|[<-|[]]]; reflexivity. }
  assert (Hproto : CorrelationMatrix.noPrototypeKey [price; qty]).
  { intros f1 f2 [<-|[<-|[]]] [<-|[<-|[]]]; vm_compute; discriminate. }
  assert (Hkeys : CorrelationMatrix.keysDetermineNames [price; qty]).
  { intros f1 f2 g1 g2 [<-|[<-|[]]] [<-|[<-|[]]] [<-|[<-|[]]] [<-|[<-|[]]] Hkey;
      try (split; reflexivity); vm_compute in Hkey; discriminate. }
  assert (Hnodup : List.NoDup (map (fun f => Js.template (name f)) [price; qty])).
  { constructor; [intros [H|[]]; discriminate|].
    constructor; [intros []|constructor]. }
  split; [exact Hnumbers|]. split; [exact Hproto|]. split; [exact Hkeys|].
  split; [exact Hnodup|].
  destruct (calculateCorrelations_upper_triangle _ Sample.typeError [price; qty]
              Hnumbers Hproto Hkeys Hnodup) as [correlations [Hrun Hpairs]].
  exists correlations. split; [exact Hrun|].
  destruct (Hpairs price qty (or_introl eq_refl)) as [Hab Hba].
  split; [exact Hab | exact Hba].
Defined.

(** ** DataAnalyzer: completeness *)

Section Completeness.
Import Js Series.

Variable E : Type.
Variable typeError : E.

(** The shape of the two [reduce] calls: a sum of one number per field. *)
Lemma sum_fields_throw (g : DataField -> Completion E float)
  (fields : list DataField) (e : E) :
  fold_left (fun acc field =>
               bind acc (fun sum =>
               bind (g field) (fun x => Normal (sum + x)%float)))
    fields (Throw e) = Throw e.
Proof. induction fields as [|f rest IH]; simpl; [reflexivity | exact IH]. Qed.

Lemma sum_fields_normal (g : DataField -> Completion E float)
  (fields : list DataField) :
  (forall f, In f fields -> exists x, g f = Normal x) ->
  forall s, exists t,
    fold_left (fun acc field =>
                 bind acc (fun sum =>
                 bind (g field) (fun x => Normal (sum + x)%float)))
      fields (Normal s) = Normal t.
Proof.
  induction fields as [|f rest IH]; intros Hg s; simpl; [eauto|].
  destruct (Hg f (or_introl eq_refl)) as [x ->]. simpl.
  apply IH. intros f' Hf'. apply Hg. now right.
Qed.

Lemma sum_fields_fails (g : DataField -> Completion E float)
  (fields : list DataField) :
  (forall f, In f fields -> (exists x, g f = Normal x) \/ g f = Throw typeError) ->
  (exists f, In f fields /\ g f = Throw typeError) ->
  forall s,
    fold_left (fun acc field =>
                 bind acc (fun sum =>
                 bind (g field) (fun x => Normal (sum + x)%float)))
      fields (Normal s) = Throw typeError.
Proof.
  induction fields as [|f rest IH]; intros Hg [bad [Hbad Hthrow]] s;
    [contradiction|]. simpl.
  destruct (Hg f (or_introl eq_refl)) as [[x Hx]|Hx]; rewrite Hx; simpl.
  - apply IH; [intros f' Hf'; apply Hg; now right|].
    destruct Hbad as [->|Hbad]; [congruence|]. eauto.
  - apply sum_fields_throw.
Qed.

Lemma sum_fields_cases (g : DataField -> Completion E float)
  (fields : list DataField) :
  (forall f, In f fields -> (exists x, g f = Normal x) \/ g f = Throw typeError) ->
  forall s,
    (exists t,
        fold_left (fun acc field =>
                     bind acc (fun sum =>
                     bind (g field) (fun x => Normal (sum + x)%float)))
          fields (Normal s) = Normal t)
    \/ fold_left (fun acc field =>
                    bind acc (fun sum =>
                    bind (g field) (fun x => Normal (sum + x)%float)))
         fields (Normal s) = Throw typeError.
Proof.
  induction fields as [|f rest IH]; intros Hg s; simpl; [eauto|].
  destruct (Hg f (or_introl eq_refl)) as [[x Hx]|Hx]; rewrite Hx; simpl.
  - apply IH. intros f' Hf'. apply Hg. now right.
  - right. apply sum_fields_throw.
Qed.

Lemma lengthOf_cases (f : DataField) :
  (exists x, lengthOf E typeError (value f) = Normal x)
  \/ lengthOf E typeError (value f) = Throw typeError.
Proof. destruct (value f); simpl; eauto. Qed.

Lemma nonNullCount_cases (f : DataField) :
  (exists x, nonNullCount E typeError (value f) = Normal x)
  \/ nonNullCount E typeError (value f) = Throw typeError.
Proof. destruct (value f); simpl; eauto. Qed.

(** X6.  For a non-empty array of fields, [calculateCompleteness] returns
    a number when every field's value is an array, and throws a TypeError
    as soon as one is not. *)
Theorem calculateCompleteness_defined (fields : list DataField) :
  fields <> [] ->
  ((forall f, In f fields -> Array_isArray (value f) = true) ->
   exists c, calculateCompleteness E typeError fields = Normal c)
  /\ ((exists f, In f fields /\ Array_isArray (value f) = false) ->
      calculateCompleteness E typeError fields = Throw typeError).
Proof.
  intros Hne. unfold calculateCompleteness. rewrite (length_nonzero _ Hne). split.
  - intros Harrays.
    destruct (sum_fields_normal (fun f => lengthOf E typeError (value f)) fields)
      with (s := 0%float) as [total ->].
    { intros f Hf. specialize (Harrays f Hf).
      destruct (value f); try discriminate. simpl. eauto. }
    destruct (sum_fields_normal (fun f => nonNullCount E typeError (value f)) fields)
      with (s := 0%float) as [count ->].
    { intros f Hf. specialize (Harrays f Hf).
      destruct (value f); try discriminate. simpl. eauto. }
    simpl. eauto.
  - intros [bad [Hbad Hnot]].
    destruct (sum_fields_cases (fun f => lengthOf E typeError (value f)) fields
                (fun f _ => lengthOf_cases f) 0%float) as [[total ->]| ->];
      [|reflexivity].
    simpl.
    rewrite (sum_fields_fails (fun f => nonNullCount E typeError (value f)) fields
               (fun f _ => nonNullCount_cases f)); [reflexivity|].
    exists bad. split; [exact Hbad|].
    destruct (value bad); try discriminate; reflexivity.
Qed.

Lemma sum_fields_empty (g : DataField -> Completion E float)
  (fields : list DataField) :
  (forall f, In f fields -> g f = Normal 0%float) ->
  fold_left (fun acc field =>
               bind acc (fun sum =>
               bind (g field) (fun x => Normal (sum + x)%float)))
    fields (Normal 0%float) = Normal 0%float.
Proof.
  induction fields as [|f rest IH]; intros Hg; simpl; [reflexivity|].
  rewrite (Hg f (or_introl eq_refl)). simpl.
  apply IH. intros f' Hf'. apply Hg. now right.
Qed.

(** X7.  When there are fields but every one of them has an empty value
    array, [calculateCompleteness] divides 0 by 0: the completeness is
    NaN, not 0. *)
Theorem calculateCompleteness_no_values (fields : list DataField) :
  fields <> [] ->
  (forall f, In f fields -> value f = JArray []) ->
  calculateCompleteness E typeError fields = Normal PrimFloat.nan.
Proof.
  intros Hne Hempty. unfold calculateCompleteness.
  rewrite (length_nonzero _ Hne).
  rewrite (sum_fields_empty (fun f => lengthOf E typeError (value f)))
    by (intros f Hf; rewrite (Hempty f Hf); reflexivity).
  simpl.
  rewrite (sum_fields_empty (fun f => nonNullCount E typeError (value f)))
    by (intros f Hf; rewrite (Hempty f Hf); reflexivity).
  reflexivity.
Qed.

End Completeness.

Lemma calculateCompleteness_defined_witness :
  [numberField "a" [1; 2]%float; mkField (Some "b"%string) (Some "number"%string)
                                   (Js.JNumber 5%float)] <> []
  /\ Series.calculateCompleteness _ Sample.typeError
       [numberField "a" [1; 2]%float;
        mkField (Some "b"%string) (Some "number"%string) (Js.JNumber 5%float)]
     = Js.Throw Sample.typeError.
Proof.
  assert (Hne : [numberField "a" [1; 2]%float;
                 mkField (Some "b"%string) (Some "number"%string)
                   (Js.JNumber 5%float)] <> []) by discriminate.
  split; [exact Hne|].
  apply (proj2 (calculateCompleteness_defined _ Sample.typeError _ Hne)).
  eexists. split; [right; left; reflexivity | reflexivity].
Defined.

Lemma calculateCompleteness_no_values_witness :
  [mkField (Some "a"%string) (Some "number"%string) (Js.JArray [])] <> []
  /\ Series.calculateCompleteness _ Sample.typeError
       [mkField (Some "a"%string) (Some "number"%string) (Js.JArray [])]
     = Js.Normal PrimFloat.nan.
Proof.
  assert (Hne : [mkField (Some "a"%string) (Some "number"%string) (Js.JArray [])]
                <> []) by discriminate.
  split; [exact Hne|].
  apply (calculateCompleteness_no_values _ Sample.typeError _ Hne).
  intros f [<-|[]]. reflexivity.
Defined.

(** ** DataAnalyzer: the time-series helpers *)

Section SeriesFacts.
Import Js Series.

Variable E : Type.
Variable typeError : E.
Variable Math_pow : float -> float -> float.

Lemma detectSeasonality_found (values : list float) (period : nat) :
  detectSeasonality Math_pow values = Some period ->
  4 <= length values
  /\ 2 <= period /\ period <= 12 /\ 2 * period <= length values
  /\ (0.5 <? calculateSeasonalStrength Math_pow values period)%float = true.
Proof.
  unfold detectSeasonality.
  destruct (Nat.ltb (length values) 4) eqn:Hshort; [discriminate|].
  apply Nat.ltb_ge in Hshort. intros Hfind.
  apply find_some in Hfind. destruct Hfind as [Hin Hstrong].
  apply in_seq in Hin.
  assert (Hhalf : 2 * Nat.div (length values) 2 <= length values)
    by (apply Nat.Div0.mul_div_le).
  assert (2 <= Nat.div (length values) 2)
    by (apply (Nat.div_le_lower_bound (length values) 2 2); lia).
  repeat split; try assumption; lia.
Qed.

(** X8.  [detectSeasonality] finds nothing in fewer than four values, and
    a period it returns lies between 2 and 12, fits at least twice into
    the data, and has a seasonal strength above 0.5. *)
Theorem detectSeasonality_bounds (values : list float) :
  (length values < 4 -> detectSeasonality Math_pow values = None)
  /\ forall period,
       detectSeasonality Math_pow values = Some period ->
       2 <= period /\ period <= 12 /\ 2 * period <= length values
       /\ (0.5 <? calculateSeasonalStrength Math_pow values period)%float = true.
Proof.
  split.
  - intros Hshort. unfold detectSeasonality.
    apply Nat.ltb_lt in Hshort. now rewrite Hshort.
  - intros period Hfound. now apply detectSeasonality_found in Hfound.
Qed.

Lemma index_imap {A : Type} (g : nat -> A -> float) (l : list A) :
  forall i x, l !! i = Some x -> index (imap g l) i = g i x.
Proof.
  unfold index. revert g. induction l as [|y rest IH]; intros g i x Hi;
    [discriminate|].
  destruct i as [|i]; simpl in *; [now injection Hi as ->|].
  apply (IH (g ∘ S) i x Hi).
Qed.

(** X9.  The forecast of [generateForecast] has min(5, floor(n / 2))
    points for n values, so never more than five, while its trend,
    seasonal and residual components have one entry per value. *)
Theorem generateForecast_lengths (values : list float) :
  length (predicted (generateForecast Math_pow values))
  = Nat.min 5 (Nat.div (length values) 2)
  /\ length (predicted (generateForecast Math_pow values)) <= 5
  /\ length (trendComponent (generateForecast Math_pow values)) = length values
  /\ length (seasonalComponent (generateForecast Math_pow values)) = length values
  /\ length (residualComponent (generateForecast Math_pow values)) = length values.
Proof.
  unfold generateForecast, calculateSeasonalComponent, calculateTrendComponent.
  cbn [predicted trendComponent seasonalComponent residualComponent].
  rewrite length_map, length_seq, !length_imap.
  repeat split; lia.
Qed.

(** X10.  The seasonal component repeats with the detected period (with
    period 1 when none is detected): entries one period apart are
    equal. *)
Theorem seasonalComponent_periodic (values trend : list float) (i : nat) :
  let period := default 1 (detectSeasonality Math_pow values) in
  i + period < length values ->
  index (calculateSeasonalComponent Math_pow values trend) (i + period)
  = index (calculateSeasonalComponent Math_pow values trend) i.
Proof.
  intros period Hi. unfold calculateSeasonalComponent. fold period.
  assert (Hpos : period <> 0).
  { unfold period. destruct (detectSeasonality Math_pow values) as [p|] eqn:Hp;
      simpl; [|lia].
    apply detectSeasonality_found in Hp. lia. }
  destruct (lookup_lt_is_Some_2 values (i + period) Hi) as [x Hx].
  destruct (lookup_lt_is_Some_2 values i ltac:(lia)) as [y Hy].
  rewrite (index_imap _ values _ x Hx), (index_imap _ values _ y Hy).
  f_equal.
  replace (i + period) with (i + 1 * period) by lia.
  apply Nat.Div0.mod_add.
Qed.

Lemma clamp_unit (x : float) :
  Math_max [0%float; Math_min [1%float; x]] = max2 0%float (min2 1%float x).
Proof. reflexivity. Qed.

(** X11.  The model confidence is clamped: it is never above 1 and never
    below 0 (it is NaN when the errors give no ratio, as for an empty
    forecast). *)
Theorem calculateModelConfidence_bounds (values forecast : list float) :
  (1 <? calculateModelConfidence values forecast)%float = false
  /\ (calculateModelConfidence values forecast <? 0)%float = false
  /\ calculateModelConfidence values [] = PrimFloat.nan.
Proof.
  split; [|split].
  - unfold calculateModelConfidence. rewrite clamp_unit.
    apply clamp_bounds; reflexivity.
  - unfold calculateModelConfidence. rewrite clamp_unit.
    apply clamp_bounds; reflexivity.
  - reflexivity.
Qed.

End SeriesFacts.

Lemma seasonalComponent_periodic_witness :
  0 + default 1 (Series.detectSeasonality Sample.Math_pow [1; 2; 3]%float)
  < length [1; 2; 3]%float
  /\ Js.index (Series.calculateSeasonalComponent Sample.Math_pow [1; 2; 3]%float
                 [1; 2; 3]%float) 1
     = Js.index (Series.calculateSeasonalComponent Sample.Math_pow [1; 2; 3]%float
                   [1; 2; 3]%float) 0.
Proof.
  assert (H : 0 + default 1 (Series.detectSeasonality Sample.Math_pow [1; 2; 3]%float)
              < length [1; 2; 3]%float) by (vm_compute; lia).
  split; [exact H|].
  exact (seasonalComponent_periodic Sample.Math_pow [1; 2; 3]%float
           [1; 2; 3]%float 0 H).
Defined.

Section TimeSeriesResults.
Import Js Series.

Variable E : Type.
Variable typeError : E.
Variable Math_pow : float -> float -> float.

Lemma analyse_throw (l : list DataField) (e : E) :
  fold_left (fun acc f =>
               bind acc (fun results =>
               bind (analyseField E typeError Math_pow f) (fun r =>
               Normal (results ++ [r]))))
    l (Throw e) = Throw e.
Proof. induction l as [|f rest IH]; simpl; [reflexivity | exact IH]. Qed.

Lemma analyse_all (l : list DataField) :
  (forall f, In f l -> Array_isArray (value f) = true) ->
  forall results,
    fold_left (fun acc f =>
                 bind acc (fun results =>
                 bind (analyseField E typeError Math_pow f) (fun r =>
                 Normal (results ++ [r]))))
      l (Normal results)
    = Normal (results
              ++ map (fun f =>
                        match analyseField E typeError Math_pow f with
                        | Normal r => r
                        | Throw _ => None
                        end) l).
Proof.
  induction l as [|f rest IH]; intros Harrays results; simpl.
  - now rewrite app_nil_r.
  - assert (Hf : exists r, analyseField E typeError Math_pow f = Normal r).
    { specialize (Harrays f (or_introl eq_refl)). unfold analyseField.
      destruct (value f); try discriminate.
      destruct (Nat.ltb (length elems) 2); eauto. }
    destruct Hf as [r Hr]. rewrite Hr. simpl.
    rewrite IH by (intros f' Hf'; apply Harrays; now right).
    rewrite <- app_assoc. reflexivity.
Qed.

Lemma analyse_fails (l : list DataField) :
  (exists f e, In f l /\ analyseField E typeError Math_pow f = Throw e) ->
  forall results, exists e,
    fold_left (fun acc f =>
                 bind acc (fun results =>
                 bind (analyseField E typeError Math_pow f) (fun r =>
                 Normal (results ++ [r]))))
      l (Normal results) = Throw e.
Proof.
  induction l as [|f rest IH]; intros [bad [e [Hbad Hthrow]]] results;
    [contradiction|]. simpl.
  destruct (analyseField E typeError Math_pow f) as [r|e'] eqn:Hf; simpl.
  - apply IH. destruct Hbad as [->|Hbad]; [congruence|]. eauto.
  - exists e'. apply analyse_throw.
Qed.

Lemma predicted_length (values : list float) :
  length (predicted (generateForecast Math_pow values)) <= 5.
Proof.
  unfold generateForecast. cbn [predicted].
  rewrite length_map, length_seq. apply Nat.le_min_l.
Qed.

(** What [analyseField] returns for a field whose value is an array. *)
Lemma analyse_array (f : DataField) :
  Array_isArray (value f) = true ->
  analyseField E typeError Math_pow f
  = Normal
      (if Nat.leb 2 (length (numbersOf (value f)))
       then Some (mkResult (name f)
                    (calculateTrend Math_pow (numbersOf (value f)))
                    (detectSeasonality Math_pow (numbersOf (value f)))
                    (predicted (generateForecast Math_pow (numbersOf (value f))))
                    (calculateModelConfidence (numbersOf (value f))
                       (predicted
                          (generateForecast Math_pow (numbersOf (value f)))))
                    (trendComponent
                       (generateForecast Math_pow (numbersOf (value f))),
                     seasonalComponent
                       (generateForecast Math_pow (numbersOf (value f))),
                     residualComponent
                       (generateForecast Math_pow (numbersOf (value f)))))
       else None).
Proof.
  unfold analyseField, numbersOf.
  destruct (value f) as [| | | | |elems]; try discriminate.
  intros _. rewrite length_map.
  destruct (Nat.ltb (length elems) 2) eqn:Hshort.
  - apply Nat.ltb_lt in Hshort.
    assert (Hleb : Nat.leb 2 (length elems) = false) by (apply Nat.leb_gt; lia).
    now rewrite Hleb.
  - apply Nat.ltb_ge in Hshort.
    assert (Hleb : Nat.leb 2 (length elems) = true) by (apply Nat.leb_le; lia).
    now rewrite Hleb.
Qed.

Lemma analysed_results (l : list DataField) :
  (forall f, In f l -> Array_isArray (value f) = true) ->
  omap id (map (fun f =>
                  match analyseField E typeError Math_pow f with
                  | Normal r => r
                  | Throw _ => None
                  end) l)
  = map (fun f =>
           mkResult (name f)
             (calculateTrend Math_pow (numbersOf (value f)))
             (detectSeasonality Math_pow (numbersOf (value f)))
             (predicted (generateForecast Math_pow (numbersOf (value f))))
             (calculateModelConfidence (numbersOf (value f))
                (predicted (generateForecast Math_pow (numbersOf (value f)))))
             (trendComponent (generateForecast Math_pow (numbersOf (value f))),
              seasonalComponent (generateForecast Math_pow (numbersOf (value f))),
              residualComponent (generateForecast Math_pow (numbersOf (value f)))))
      (List.filter (fun f => Nat.leb 2 (length (numbersOf (value f)))) l).
Proof.
  induction l as [|f rest IH]; intros Harrays; [reflexivity|].
  cbn [map List.filter omap list_omap].
  rewrite (analyse_array f (Harrays f (or_introl eq_refl))).
  rewrite IH by (intros f' Hf'; apply Harrays; now right).
  destruct (Nat.leb 2 (length (numbersOf (value f)))); reflexivity.
Qed.

(** X12.  When the values of the numeric fields are arrays of numbers,
    [generateTimeSeriesResults] returns, in the order of the fields, one
    result for each numeric field that has at least two values: the
    field's name with the trend, the seasonality, the forecast of
    [generateForecast] (of at most five points), the model confidence of
    that forecast and the three components, all computed from the field's
    values. *)
Theorem generateTimeSeriesResults_fields (fields : list DataField) :
  (forall f, In f fields -> type f = Some "number"%string ->
             isNumberArray (value f) = true) ->
  generateTimeSeriesResults E typeError Math_pow fields
  = map (fun f =>
           mkResult (name f)
             (calculateTrend Math_pow (numbersOf (value f)))
             (detectSeasonality Math_pow (numbersOf (value f)))
             (predicted (generateForecast Math_pow (numbersOf (value f))))
             (calculateModelConfidence (numbersOf (value f))
                (predicted (generateForecast Math_pow (numbersOf (value f)))))
             (trendComponent (generateForecast Math_pow (numbersOf (value f))),
              seasonalComponent (generateForecast Math_pow (numbersOf (value f))),
              residualComponent (generateForecast Math_pow (numbersOf (value f)))))
      (List.filter (fun f => Nat.leb 2 (length (numbersOf (value f))))
         (List.filter (fun f => bool_decide (type f = Some "number"%string))
            fields))
  /\ forall r, In r (generateTimeSeriesResults E typeError Math_pow fields) ->
               length (forecast r) <= 5.
Proof.
  intros Hnumbers.
  assert (Hresults :
    generateTimeSeriesResults E typeError Math_pow fields
    = map (fun f =>
             mkResult (name f)
               (calculateTrend Math_pow (numbersOf (value f)))
               (detectSeasonality Math_pow (numbersOf (value f)))
               (predicted (generateForecast Math_pow (numbersOf (value f))))
               (calculateModelConfidence (numbersOf (value f))
                  (predicted (generateForecast Math_pow (numbersOf (value f)))))
               (trendComponent (generateForecast Math_pow (numbersOf (value f))),
                seasonalComponent (generateForecast Math_pow (numbersOf (value f))),
                residualComponent (generateForecast Math_pow (numbersOf (value f)))))
        (List.filter (fun f => Nat.leb 2 (length (numbersOf (value f))))
           (List.filter (fun f => bool_decide (type f = Some "number"%string))
              fields))).
  { unfold generateTimeSeriesResults.
    assert (Hnumeric :
      forall f,
        In f (List.filter (fun f => bool_decide (type f = Some "number"%string))
                fields) ->
        Array_isArray (value f) = true).
    { intros f Hf. apply filter_In in Hf. destruct Hf as [Hin Htype].
      apply bool_decide_eq_true in Htype.
      specialize (Hnumbers f Hin Htype).
      destruct (value f); try discriminate. reflexivity. }
    destruct (Nat.eqb (length (List.filter _ fields)) 0) eqn:Hnone.
    - apply Nat.eqb_eq, length_zero_iff_nil in Hnone. rewrite Hnone. reflexivity.
    - rewrite (analyse_all _ Hnumeric []). cbn [app].
      now apply analysed_results. }
  split; [exact Hresults|].
  rewrite Hresults. intros r Hr. apply in_map_iff in Hr.
  destruct Hr as [f [<- _]]. apply predicted_length.
Qed.

(** X13.  One numeric field whose value is truthy, is no array and is no
    string shorter than two characters makes [generateTimeSeriesResults]
    return the empty result for all fields: the TypeError it raises is
    caught and replaced by []. *)
Theorem generateTimeSeriesResults_malformed (fields : list DataField)
  (bad : DataField) :
  In bad fields ->
  type bad = Some "number"%string ->
  truthy (value bad) = true ->
  Array_isArray (value bad) = false ->
  (forall s, value bad = JString s -> 2 <= String.length s) ->
  generateTimeSeriesResults E typeError Math_pow fields = [].
Proof.
  intros Hin Htype Htruthy Hnoarray Hstring. unfold generateTimeSeriesResults.
  assert (Hnumeric :
    In bad (List.filter (fun f => bool_decide (type f = Some "number"%string))
              fields)).
  { apply filter_In. split; [exact Hin | now apply bool_decide_eq_true]. }
  destruct (Nat.eqb _ 0); [reflexivity|].
  destruct (analyse_fails
              (List.filter (fun f => bool_decide (type f = Some "number"%string))
                 fields)) with (results := @nil (option TimeSeriesResult))
    as [e ->]; [|reflexivity].
  exists bad, typeError. split; [exact Hnumeric|].
  unfold analyseField. destruct (value bad) as [| |b|n|s|elems];
    try discriminate; cbv beta iota.
  - now rewrite Htruthy.
  - now rewrite Htruthy.
  - assert (Hlen : Nat.ltb (String.length s) 2 = false)
      by (apply Nat.ltb_ge; now apply Hstring).
    now rewrite Hlen.
Qed.

End TimeSeriesResults.

Lemma detectSeasonality_witness :
  length [1; 2; 3]%float < 4
  /\ Series.detectSeasonality Sample.Math_pow [1; 2; 3]%float = None
  /\ Series.detectSeasonality Sample.Math_pow
       [1; 2; 9; 1; 2; 9; 1; 2; 9]%float = Some 3
  /\ 2 * 3 <= length [1; 2; 9; 1; 2; 9; 1; 2; 9]%float.
Proof.
  assert (Hshort : length [1; 2; 3]%float < 4) by (simpl; lia).
  assert (Hfound : Series.detectSeasonality Sample.Math_pow
                     [1; 2; 9; 1; 2; 9; 1; 2; 9]%float = Some 3)
    by (vm_compute; reflexivity).
  split; [exact Hshort|].
  split; [exact (proj1 (detectSeasonality_bounds Sample.Math_pow [1; 2; 3]%float)
                   Hshort)|].
  split; [exact Hfound|].
  exact (proj1 (proj2 (proj2 (proj2 (detectSeasonality_bounds Sample.Math_pow
                                       [1; 2; 9; 1; 2; 9; 1; 2; 9]%float)
                                3 Hfound)))).
Defined.

Lemma generateTimeSeriesResults_fields_witness :
  let fields :=
    [numberField "a" [1; 2; 3; 4]%float; numberField "b" [7]%float;
     mkField (Some "t"%string) (Some "string"%string)
       (Js.JArray [Js.JString "x"]);
     numberField "c" [4; 3]%float] in
  (forall f, In f fields -> type f = Some "number"%string ->
             isNumberArray (value f) = true)
  /\ map (fun r => (Series.field r, Series.forecast r))
       (Series.generateTimeSeriesResults _ Sample.typeError Sample.Math_pow fields)
     = [(Some "a"%string,
         Series.predicted
           (Series.generateForecast Sample.Math_pow [1; 2; 3; 4]%float));
        (Some "c"%string,
         Series.predicted (Series.generateForecast Sample.Math_pow [4; 3]%float))]
  /\ map (fun r => length (Series.forecast r))
       (Series.generateTimeSeriesResults _ Sample.typeError Sample.Math_pow fields)
     = [2; 1].
Proof.
  intros fields.
  assert (Hnumbers : forall f, In f fields -> type f = Some "number"%string ->
                               isNumberArray (value f) = true).
  { intros f [<-|[<-|[<-|[<-|[]]]]] Htype; try reflexivity. discriminate Htype. }
  split; [exact Hnumbers|].
  rewrite (proj1 (generateTimeSeriesResults_fields _ Sample.typeError
                    Sample.Math_pow fields Hnumbers)).
  split; reflexivity.
Defined.

Lemma generateTimeSeriesResults_malformed_witness :
  let bad := mkField (Some "b"%string) (Some "number"%string)
               (Js.JNumber 5%float) in
  In bad [numberField "a" [1; 2; 3; 4]%float; bad]
  /\ Series.generateTimeSeriesResults _ Sample.typeError Sample.Math_pow
       [numberField "a" [1; 2; 3; 4]%float; bad] = [].
Proof.
  intros bad.
  assert (Hin : In bad [numberField "a" [1; 2; 3; 4]%float; bad])
    by (right; left; reflexivity).
  split; [exact Hin|].
  apply (generateTimeSeriesResults_malformed _ Sample.typeError Sample.Math_pow
           _ bad Hin); try reflexivity.
  intros s Hs. discriminate Hs.
Defined.

(** ** TextSummarization: sentiment and key phrases *)

Section TextStatsFacts.
Import Js TextSummarization TextStats.

Lemma clamp_sentiment (x : float) :
  Math_max [(-1)%float; Math_min [1%float; x]] = max2 (-1)%float (min2 1%float x).
Proof. reflexivity. Qed.

(** X14.  The sentiment score is clamped: it is never above 1 and never
    below -1. *)
Theorem calculateSentiment_bounds (text : string) :
  (1 <? calculateSentiment text)%float = false
  /\ (calculateSentiment text <? -1)%float = false.
Proof.
  unfold calculateSentiment. rewrite clamp_sentiment.
  apply clamp_bounds; reflexivity.
Qed.

Lemma neutral_score (words : list string) :
  (forall word, In word words ->
                ~ In word positiveWords /\ ~ In word negativeWords) ->
  fold_left
    (fun score word =>
       let score :=
         if bool_decide (word ∈ positiveWords) then (score + 1)%float
         else score in
       if bool_decide (word ∈ negativeWords) then (score - 1)%float
       else score)
    words 0%float = 0%float.
Proof.
  induction words as [|w rest IH]; intros Hneutral; [reflexivity|].
  destruct (Hneutral w (or_introl eq_refl)) as [Hpos Hneg].
  cbn [fold_left].
  rewrite (bool_decide_eq_false_2 (w ∈ positiveWords))
    by (rewrite list_elem_of_In; exact Hpos).
  rewrite (bool_decide_eq_false_2 (w ∈ negativeWords))
    by (rewrite list_elem_of_In; exact Hneg).
  apply IH. intros w' Hw'. apply Hneutral. now right.
Qed.

(** X15.  A text none of whose words, in lower case and split at white
    space, is in the positive or the negative lexicon scores exactly 0. *)
Theorem calculateSentiment_neutral (text : string) :
  (forall word, In word (splitWhiteSpace (toLowerCase text)) ->
                ~ In word positiveWords /\ ~ In word negativeWords) ->
  calculateSentiment text = 0%float.
Proof.
  intros Hneutral. unfold calculateSentiment.
  pose proof (neutral_score _ Hneutral) as Hscore.
  cbv zeta in Hscore |- *. rewrite Hscore. reflexivity.
Qed.

End TextStatsFacts.

Lemma calculateSentiment_neutral_witness :
  (forall word,
      In word (TextSummarization.splitWhiteSpace
                 (TextSummarization.toLowerCase "Good, not bad."%string)) ->
      ~ In word TextStats.positiveWords /\ ~ In word TextStats.negativeWords)
  /\ TextStats.calculateSentiment "Good, not bad."%string = 0%float.
Proof.
  assert (Hneutral :
    forall word,
      In word (TextSummarization.splitWhiteSpace
                 (TextSummarization.toLowerCase "Good, not bad."%string)) ->
      ~ In word TextStats.positiveWords /\ ~ In word TextStats.negativeWords).
  { intros word Hword. vm_compute in Hword.
    destruct Hword as [<-|[<-|[<-|[]]]]; split; intros Hin; vm_compute in Hin;
      repeat (destruct Hin as [Hin|Hin]; [discriminate Hin|]); exact Hin. }
  split; [exact Hneutral|].
  exact (calculateSentiment_neutral "Good, not bad."%string Hneutral).
Defined.

(** ** TextSummarization: the key phrases *)

Section SortedBy.
Context {A : Type}.
Variable after : A -> A -> bool.
Variable le : A -> A -> Prop.
Hypothesis le_trans : forall x y z, le x y -> le y z -> le x z.
Hypothesis after_true : forall x y, after x y = true -> le y x.
Hypothesis after_false : forall x y, after x y = false -> le x y.

Lemma insertSorted_sorted (x : A) (l : list A) :
  StronglySorted le l -> StronglySorted le (Js.insertSorted after x l).
Proof.
  induction l as [|y rest IH]; intros Hsorted; simpl.
  - constructor; constructor.
  - apply StronglySorted_inv in Hsorted. destruct Hsorted as [Hrest Hy].
    destruct (after x y) eqn:Hcmp.
    + constructor; [now apply IH|].
      apply (Permutation_Forall
               (Permutation_sym (insertSorted_permutation after x rest))).
      constructor; [now apply after_true | exact Hy].
    + constructor; [now constructor|].
      constructor; [now apply after_false|].
      eapply List.Forall_impl; [|exact Hy]. intros z Hz.
      apply le_trans with y; [now apply after_false | exact Hz].
Qed.

Lemma sort_after_sorted (l : list A) :
  StronglySorted le (Js.sort_after after l).
Proof.
  induction l as [|x rest IH]; simpl; [constructor|].
  now apply insertSorted_sorted.
Qed.

End SortedBy.

Lemma StronglySorted_prefix {A : Type} (R : A -> A -> Prop) (l1 l2 : list A) :
  StronglySorted R (l1 ++ l2) -> StronglySorted R l1.
Proof.
  induction l1 as [|x rest IH]; intros Hsorted; [constructor|].
  simpl in Hsorted. apply StronglySorted_inv in Hsorted.
  destruct Hsorted as [Hrest Hx].
  constructor; [now apply IH|].
  apply List.Forall_app in Hx. tauto.
Qed.

Lemma StronglySorted_map {A B : Type} (R : B -> B -> Prop) (f : A -> B)
  (l : list A) :
  StronglySorted (fun a b => R (f a) (f b)) l -> StronglySorted R (map f l).
Proof.
  induction 1 as [|x rest Hrest IH Hx]; simpl; constructor; [exact IH|].
  apply List.Forall_map. exact Hx.
Qed.

Section KeyPhrases.
Import Js TextSummarization TextStats.

Lemma mapGet_mapSet (entries : list (string * nat)) (k k' : string) (v : nat) :
  mapGet (mapSet entries k v) k'
  = if String.eqb k k' then Some v else mapGet entries k'.
Proof.
  induction entries as [|[k0 v0] rest IH]; simpl.
  - reflexivity.
  - destruct (String.eqb k0 k) eqn:H0; simpl.
    + apply String.eqb_eq in H0. subst k0.
      destruct (String.eqb k k'); reflexivity.
    + destruct (String.eqb k0 k') eqn:H1; [|exact IH].
      apply String.eqb_eq in H1. subst k0. now rewrite String.eqb_sym, H0.
Qed.

Lemma mapSet_keys (entries : list (string * nat)) (k : string) (v : nat) :
  (forall k', In k' (map fst (mapSet entries k v))
              <-> k' = k \/ In k' (map fst entries))
  /\ (List.NoDup (map fst entries) -> List.NoDup (map fst (mapSet entries k v))).
Proof.
  induction entries as [|[k0 v0] rest [IHin IHnodup]]; simpl.
  - split; [intros k'; intuition congruence|].
    intros _. constructor; [intros []|constructor].
  - destruct (String.eqb k0 k) eqn:H0; simpl.
    + apply String.eqb_eq in H0. subst k0.
      split; [intros k'; intuition congruence | auto].
    + split.
      * intros k'. rewrite IHin. intuition congruence.
      * intros Hnodup. apply List.NoDup_cons_iff in Hnodup.
        destruct Hnodup as [Hk0 Hrest].
        constructor; [|now apply IHnodup].
        rewrite IHin. intros [->|Hin]; [|contradiction].
        now rewrite String.eqb_refl in H0.
Qed.

(** The ordered entries agree with the map of [countWords], have pairwise
    different keys, and every key is one of the words. *)
Lemma wordFreq_invariant (words : list string) :
  forall (entries : list (string * nat)) (m : gmap string nat),
    (forall k, mapGet entries k = m !! k) ->
    List.NoDup (map fst entries) ->
    (forall k, mapGet
                 (fold_left (fun wordFreq word =>
                               mapSet wordFreq word
                                 (default 0 (mapGet wordFreq word) + 1))
                    words entries) k
               = fold_left (fun wordFreq word =>
                              <[word := default 0 (wordFreq !! word) + 1]> wordFreq)
                   words m !! k)
    /\ List.NoDup
         (map fst (fold_left (fun wordFreq word =>
                                mapSet wordFreq word
                                  (default 0 (mapGet wordFreq word) + 1))
                     words entries))
    /\ (forall k,
          In k (map fst (fold_left (fun wordFreq word =>
                                      mapSet wordFreq word
                                        (default 0 (mapGet wordFreq word) + 1))
                           words entries)) ->
          In k (map fst entries) \/ In k words).
Proof.
  induction words as [|w rest IH]; intros entries m Hget Hnodup; simpl.
  - auto.
  - destruct (IH (mapSet entries w (default 0 (mapGet entries w) + 1))
                (<[w := default 0 (m !! w) + 1]> m)) as [H1 [H2 H3]].
    + intros k. rewrite mapGet_mapSet, lookup_insert, Hget.
      destruct (String.eqb w k) eqn:Hwk.
      * apply String.eqb_eq in Hwk. subst k. now rewrite decide_True.
      * apply String.eqb_neq in Hwk. now rewrite decide_False.
    + now apply mapSet_keys.
    + split; [exact H1|]. split; [exact H2|].
      intros k Hk. destruct (H3 k Hk) as [Hin|Hin]; [|now right; right].
      apply mapSet_keys in Hin. destruct Hin as [->|Hin]; [right; now left | now left].
Qed.

Lemma mapGet_In (entries : list (string * nat)) (k : string) (v : nat) :
  List.NoDup (map fst entries) -> In (k, v) entries -> mapGet entries k = Some v.
Proof.
  induction entries as [|[k0 v0] rest IH]; intros Hnodup Hin; [contradiction|].
  simpl in Hnodup. apply List.NoDup_cons_iff in Hnodup. destruct Hnodup as [Hk0 Hrest].
  simpl. destruct Hin as [[= -> ->]|Hin].
  - now rewrite String.eqb_refl.
  - destruct (String.eqb k0 k) eqn:H0; [|now apply IH].
    apply String.eqb_eq in H0. subst k0. exfalso. apply Hk0.
    change k with (fst (k, v)). now apply in_map.
Qed.

(** X16.  [keyPhrases] are at most eight, pairwise different, each a
    significant word of the text, and in order of non-increasing
    frequency. *)
Theorem keyPhrases_properties (fullText : string) :
  length (keyPhrases fullText) <= 8
  /\ List.NoDup (keyPhrases fullText)
  /\ (forall phrase, In phrase (keyPhrases fullText) ->
                     In phrase (significantWords fullText))
  /\ StronglySorted
       (fun p q =>
          default 0 (countWords (significantWords fullText) !! q)
          <= default 0 (countWords (significantWords fullText) !! p))
       (keyPhrases fullText).
Proof.
  unfold keyPhrases.
  destruct (wordFreq_invariant (significantWords fullText) [] ∅)
    as [Hget [Hnodup Hkeys]]; [intros k; now rewrite lookup_empty | constructor|].
  fold (wordFreqEntries (significantWords fullText)) in Hget, Hnodup, Hkeys.
  fold (countWords (significantWords fullText)) in Hget.
  set (entries := wordFreqEntries (significantWords fullText)) in *.
  set (ranked := sortZ (fun a b => Z.of_nat (snd b) - Z.of_nat (snd a))%Z entries).
  assert (Hperm : Permutation ranked entries) by apply sort_after_permutation.
  assert (Hsorted : StronglySorted (fun a b => snd b <= snd a) ranked).
  { apply sort_after_sorted.
    - intros x y z Hxy Hyz. lia.
    - intros x y Hcmp. apply Z.ltb_lt in Hcmp. lia.
    - intros x y Hcmp. apply Z.ltb_ge in Hcmp. lia. }
  destruct (slice0_prefix ranked 8 ltac:(lia)) as [dropped [Hprefix Hcount]].
  set (top := slice0 ranked 8) in *.
  assert (Hin : forall e, In e top -> In e entries).
  { intros e He. apply (Permutation_in _ Hperm). rewrite Hprefix.
    apply in_or_app. now left. }
  split; [|split; [|split]].
  - rewrite length_map. lia.
  - apply (List.NoDup_app_remove_r _ (map fst dropped)).
    rewrite <- map_app, <- Hprefix.
    apply (Permutation_NoDup (Permutation_map fst (Permutation_sym Hperm))).
    exact Hnodup.
  - intros phrase Hphrase. apply in_map_iff in Hphrase.
    destruct Hphrase as [e [<- He]].
    destruct (Hkeys (fst e)) as [[]|Hword]; [|exact Hword].
    apply in_map. now apply Hin.
  - apply StronglySorted_map.
    rewrite Hprefix in Hsorted. apply StronglySorted_prefix in Hsorted.
    assert (Hcounts : forall e, In e top ->
              default 0 (countWords (significantWords fullText) !! fst e) = snd e).
    { intros [k v] He. simpl. rewrite <- Hget.
      now rewrite (mapGet_In entries k v Hnodup (Hin _ He)). }
    clear -Hsorted Hcounts. induction Hsorted as [|x rest Hrest IH Hx];
      constructor.
    + apply IH. intros e He. apply Hcounts. now right.
    + rewrite List.Forall_forall in Hx |- *. intros y Hy.
      rewrite (Hcounts x (or_introl eq_refl)), (Hcounts y (or_intror Hy)).
      now apply Hx.
Qed.

End KeyPhrases.

(** ** The order of the numbers, and Math.min and Math.max *)

Section FloatMinMax.
Import Js.
Local Open Scope float_scope.

Lemma SFcompare_antisym (a b : spec_float) :
  SFcompare b a = option_map CompOpp (SFcompare a b).
Proof.
  destruct a as [sa|sa| |sa ma ea], b as [sb|sb| |sb mb eb]; simpl;
    try reflexivity;
    try (destruct sa; reflexivity);
    try (destruct sb; reflexivity);
    try (destruct sa, sb; reflexivity).
  destruct sa, sb; try reflexivity;
    rewrite (Z.compare_antisym ea eb);
    change (Pos.compare_cont Eq mb ma) with (Pos.compare mb ma);
    change (Pos.compare_cont Eq ma mb) with (Pos.compare ma mb);
    rewrite (Pos.compare_antisym ma mb);
    destruct (ea ?= eb)%Z; simpl; try reflexivity;
    destruct (ma ?= mb)%positive; reflexivity.
Qed.

Lemma SFleb_trans (a b c : spec_float) :
  SFleb a b = true -> SFleb b c = true -> SFleb a c = true.
Proof.
  unfold SFleb.
  destruct a as [sa|sa| |sa ma ea], b as [sb|sb| |sb mb eb],
    c as [sc|sc| |sc mc ec]; simpl;
    try discriminate; try reflexivity;
    try (destruct sa; simpl; try discriminate; try reflexivity);
    try (destruct sb; simpl; try discriminate; try reflexivity);
    try (destruct sc; simpl; try discriminate; try reflexivity).
  all: change (Pos.compare_cont Eq ma mb) with (Pos.compare ma mb);
    change (Pos.compare_cont Eq mb mc) with (Pos.compare mb mc);
    change (Pos.compare_cont Eq ma mc) with (Pos.compare ma mc).
  all: destruct (Z.compare_spec ea eb), (Z.compare_spec eb ec),
         (Z.compare_spec ea ec);
    simpl; try discriminate; try reflexivity; try lia.
  all: try (destruct (Pos.compare_spec ma mb); simpl;
            try discriminate; try reflexivity; try lia);
       try (destruct (Pos.compare_spec mb mc); simpl;
            try discriminate; try reflexivity; try lia);
       try (destruct (Pos.compare_spec ma mc); simpl;
            try discriminate; try reflexivity; try lia).
Qed.

Lemma leb_trans (a b c : float) :
  (a <=? b) = true -> (b <=? c) = true -> (a <=? c) = true.
Proof. rewrite !leb_spec. apply SFleb_trans. Qed.

(** A number that is not NaN compares with every other such number. *)
Lemma compare_defined (a b : float) :
  isNaN a = false -> isNaN b = false ->
  SFcompare (Prim2SF a) (Prim2SF b) <> None.
Proof.
  unfold isNaN, PrimFloat.is_nan. rewrite !FloatAxioms.eqb_spec. unfold SFeqb.
  destruct (Prim2SF a) as [sa|sa| |sa ma ea], (Prim2SF b) as [sb|sb| |sb mb eb];
    simpl; try discriminate.
  all: try (destruct sa; discriminate); try (destruct sb; discriminate);
    try (destruct sa, sb; discriminate).
Qed.

Lemma leb_total (a b : float) :
  isNaN a = false -> isNaN b = false ->
  (a <? b) = false -> (b <=? a) = true.
Proof.
  intros Ha Hb. pose proof (compare_defined a b Ha Hb) as Hdef.
  rewrite ltb_spec, leb_spec. unfold SFltb, SFleb.
  rewrite (SFcompare_antisym (Prim2SF a) (Prim2SF b)).
  destruct (SFcompare (Prim2SF a) (Prim2SF b)) as [[| |]|];
    simpl; congruence.
Qed.

Lemma leb_refl (a : float) : isNaN a = false -> (a <=? a) = true.
Proof.
  intros Ha. apply leb_total; [assumption | assumption |].
  rewrite ltb_spec. unfold SFltb.
  pose proof (SFcompare_antisym (Prim2SF a) (Prim2SF a)) as H.
  destruct (SFcompare (Prim2SF a) (Prim2SF a)) as [[| |]|];
    simpl in H; congruence.
Qed.

Lemma ltb_leb (a b : float) : (a <? b) = true -> (a <=? b) = true.
Proof.
  rewrite ltb_spec, leb_spec. unfold SFltb, SFleb.
  destruct (SFcompare (Prim2SF a) (Prim2SF b)) as [[| |]|]; congruence.
Qed.

(** On numbers, [min2] picks one of its arguments, below both. *)
Lemma min2_spec (a b : float) :
  isNaN a = false -> isNaN b = false ->
  (min2 a b = a \/ min2 a b = b)
  /\ (min2 a b <=? a) = true /\ (min2 a b <=? b) = true.
Proof.
  intros Ha Hb. unfold min2. unfold isNaN in Ha, Hb. rewrite Ha, Hb. simpl.
  destruct (a <? b) eqn:H1.
  - split; [now left|]. split; [now apply leb_refl | now apply ltb_leb].
  - destruct (b <? a) eqn:H2.
    + split; [now right|]. split; [now apply ltb_leb | now apply leb_refl].
    + destruct (PrimFloat.get_sign a).
      * split; [now left|]. split; [now apply leb_refl | now apply leb_total].
      * split; [now right|]. split; [now apply leb_total | now apply leb_refl].
Qed.

Lemma max2_spec (a b : float) :
  isNaN a = false -> isNaN b = false ->
  (max2 a b = a \/ max2 a b = b)
  /\ (a <=? max2 a b) = true /\ (b <=? max2 a b) = true.
Proof.
  intros Ha Hb. unfold max2. unfold isNaN in Ha, Hb. rewrite Ha, Hb. simpl.
  destruct (a <? b) eqn:H1.
  - split; [now right|]. split; [now apply ltb_leb | now apply leb_refl].
  - destruct (b <? a) eqn:H2.
    + split; [now left|]. split; [now apply leb_refl | now apply ltb_leb].
    + destruct (PrimFloat.get_sign a).
      * split; [now right|]. split; [now apply leb_total | now apply leb_refl].
      * split; [now left|]. split; [now apply leb_refl | now apply leb_total].
Qed.

Lemma fold_min2 (values : list float) :
  (forall v, In v values -> isNaN v = false) ->
  forall acc, isNaN acc = false ->
    (fold_left min2 values acc = acc \/ In (fold_left min2 values acc) values)
    /\ (fold_left min2 values acc <=? acc) = true
    /\ (forall v, In v values -> (fold_left min2 values acc <=? v) = true).
Proof.
  induction values as [|x rest IH]; intros Hnan acc Hacc; simpl.
  - split; [now left|]. split; [now apply leb_refl | contradiction].
  - destruct (min2_spec acc x Hacc (Hnan x (or_introl eq_refl)))
      as [Hpick [Hle1 Hle2]].
    assert (Hm : isNaN (min2 acc x) = false).
    { destruct Hpick as [->| ->]; [exact Hacc | apply Hnan; now left]. }
    destruct (IH (fun v Hv => Hnan v (or_intror Hv)) (min2 acc x) Hm)
      as [Hin [Hle Hall]].
    split; [|split].
    + destruct Hin as [Hin|Hin]; [|right; now right].
      rewrite Hin. destruct Hpick as [->| ->]; [now left | right; now left].
    + exact (leb_trans _ _ _ Hle Hle1).
    + intros v [<-|Hv]; [exact (leb_trans _ _ _ Hle Hle2) | now apply Hall].
Qed.

Lemma fold_max2 (values : list float) :
  (forall v, In v values -> isNaN v = false) ->
  forall acc, isNaN acc = false ->
    (fold_left max2 values acc = acc \/ In (fold_left max2 values acc) values)
    /\ (acc <=? fold_left max2 values acc) = true
    /\ (forall v, In v values -> (v <=? fold_left max2 values acc) = true).
Proof.
  induction values as [|x rest IH]; intros Hnan acc Hacc; simpl.
  - split; [now left|]. split; [now apply leb_refl | contradiction].
  - destruct (max2_spec acc x Hacc (Hnan x (or_introl eq_refl)))
      as [Hpick [Hle1 Hle2]].
    assert (Hm : isNaN (max2 acc x) = false).
    { destruct Hpick as [->| ->]; [exact Hacc | apply Hnan; now left]. }
    destruct (IH (fun v Hv => Hnan v (or_intror Hv)) (max2 acc x) Hm)
      as [Hin [Hle Hall]].
    split; [|split].
    + destruct Hin as [Hin|Hin]; [|right; now right].
      rewrite Hin. destruct Hpick as [->| ->]; [now left | right; now left].
    + exact (leb_trans _ _ _ Hle1 Hle).
    + intros v [<-|Hv]; [exact (leb_trans _ _ _ Hle2 Hle) | now apply Hall].
Qed.

Lemma above_infinity (x : float) :
  (PrimFloat.infinity <=? x) = true -> x = PrimFloat.infinity.
Proof.
  rewrite leb_spec. unfold SFleb.
  change (Prim2SF PrimFloat.infinity) with (S754_infinity false).
  intros H. rewrite <- (SF2Prim_Prim2SF x).
  destruct (Prim2SF x) as [s|s| |s m e]; try discriminate.
  destruct s; [discriminate | reflexivity].
Qed.

Lemma below_neg_infinity (x : float) :
  (x <=? PrimFloat.neg_infinity) = true -> x = PrimFloat.neg_infinity.
Proof.
  rewrite leb_spec. unfold SFleb.
  change (Prim2SF PrimFloat.neg_infinity) with (S754_infinity true).
  intros H. rewrite <- (SF2Prim_Prim2SF x).
  destruct (Prim2SF x) as [s|s| |s m e]; try discriminate;
    destruct s; try discriminate; reflexivity.
Qed.

(** [Math.min] of one or more numbers is one of them, below all of them. *)
Lemma Math_min_spec (values : list float) :
  values <> [] ->
  (forall v, In v values -> isNaN v = false) ->
  In (Math_min values) values
  /\ (forall v, In v values -> (Math_min values <=? v) = true).
Proof.
  intros Hne Hnan. unfold Math_min.
  destruct (fold_min2 values Hnan PrimFloat.infinity eq_refl)
    as [[Hacc|Hin] [_ Hall]]; [|now split].
  split; [|exact Hall].
  destruct values as [|x rest]; [congruence|].
  pose proof (Hall x (or_introl eq_refl)) as Hx. rewrite Hacc in Hx |- *.
  left. now apply above_infinity.
Qed.

Lemma Math_max_spec (values : list float) :
  values <> [] ->
  (forall v, In v values -> isNaN v = false) ->
  In (Math_max values) values
  /\ (forall v, In v values -> (v <=? Math_max values) = true).
Proof.
  intros Hne Hnan. unfold Math_max.
  destruct (fold_max2 values Hnan PrimFloat.neg_infinity eq_refl)
    as [[Hacc|Hin] [_ Hall]]; [|now split].
  split; [|exact Hall].
  destruct values as [|x rest]; [congruence|].
  pose proof (Hall x (or_introl eq_refl)) as Hx. rewrite Hacc in Hx |- *.
  left. now apply below_neg_infinity.
Qed.

Lemma index_In (l : list float) (i : nat) : i < length l -> In (index l i) l.
Proof. intros Hi. unfold index. now apply nth_In. Qed.

Lemma sorted_In (comparefn : float -> float -> float) (values : list float)
  (i : nat) :
  i < length values -> In (index (sort comparefn values) i) values.
Proof.
  intros Hi. unfold sort.
  apply (Permutation_in _
           (sort_after_permutation (fun x y => 0 <? comparefn x y) values)).
  apply index_In.
  now rewrite (Permutation_length
                 (sort_after_permutation (fun x y => 0 <? comparefn x y) values)).
Qed.

End FloatMinMax.

Section DescriptiveOrder.
Import Js.
Local Open Scope float_scope.

Variable E : Type.
Variable createError : string -> string -> E.
Variable typeError : E.
Variable Math_pow : float -> float -> float.

(** X17.  For a field of one or more valid numbers, the minimum, the median
    and the maximum that [calculateDescriptiveStats] records are values of
    the field, and minimum <= median <= maximum. *)
Theorem describeField_order (fieldName : string) (values : list float) :
  values <> [] ->
  (forall v, In v values -> isNaN v = false) ->
  exists st,
    AnalysisEngine.describeField E createError typeError Math_pow
      (numberField fieldName values) = Normal st
    /\ In (AnalysisEngine.min st) values
    /\ In (AnalysisEngine.median st) values
    /\ In (AnalysisEngine.max st) values
    /\ (AnalysisEngine.min st <=? AnalysisEngine.median st) = true
    /\ (AnalysisEngine.median st <=? AnalysisEngine.max st) = true
    /\ (forall v, In v values ->
          (AnalysisEngine.min st <=? v) = true
          /\ (v <=? AnalysisEngine.max st) = true).
Proof.
  intros Hne Hnan. eexists.
  split; [apply describeField_numbers; assumption|]. simpl.
  destruct (Math_min_spec values Hne Hnan) as [Hmin Hbelow].
  destruct (Math_max_spec values Hne Hnan) as [Hmax Habove].
  assert (Hmedian : In (index (Reference.ascending values)
                           (Nat.div (length values) 2)) values).
  { apply sorted_In. apply Nat.div_lt; [|lia].
    destruct values; [congruence | simpl; lia]. }
  split; [exact Hmin|]. split; [exact Hmedian|]. split; [exact Hmax|].
  split; [now apply Hbelow|]. split; [now apply Habove|].
  intros v Hv. split; [now apply Hbelow | now apply Habove].
Qed.

End DescriptiveOrder.

Lemma describeField_order_witness :
  [3; 1; 2; 5]%float <> []
  /\ (forall v, In v [3; 1; 2; 5]%float -> Js.isNaN v = false)
  /\ exists st,
       AnalysisEngine.describeField _ Sample.createError Sample.typeError
         Sample.Math_pow (numberField "f" [3; 1; 2; 5]%float) = Js.Normal st
       /\ AnalysisEngine.min st = 1%float
       /\ AnalysisEngine.median st = 3%float
       /\ AnalysisEngine.max st = 5%float
       /\ PrimFloat.leb (AnalysisEngine.min st) (AnalysisEngine.median st) = true
       /\ PrimFloat.leb (AnalysisEngine.median st) (AnalysisEngine.max st) = true.
Proof.
  assert (Hne : [3; 1; 2; 5]%float <> []) by discriminate.
  assert (Hnan : forall v, In v [3; 1; 2; 5]%float -> Js.isNaN v = false).
  { intros v [<-|[<-|[<-|[<-|[]]]]]; reflexivity. }
  split; [exact Hne|]. split; [exact Hnan|].
  destruct (describeField_order _ Sample.createError Sample.typeError
              Sample.Math_pow "f" [3; 1; 2; 5]%float Hne Hnan)
    as [st [Hst [_ [_ [_ [Hlo [Hhi _]]]]]]].
  exists st. split; [exact Hst|].
  vm_compute in Hst. injection Hst as <-.
  split; [reflexivity|]. split; [reflexivity|]. split; [reflexivity|].
  split; [exact Hlo | exact Hhi].
Defined.

(** ** StatsSummary: the statistics of any array of numbers *)

Section FieldStats.
Import Js.

Variable Math_pow : float -> float -> float.

Lemma filter_complement {A : Type} (p : A -> bool) (l : list A) :
  length l - length (List.filter (fun x => negb (p x)) l)
  = length (List.filter p l).
Proof.
  induction l as [|x rest IH]; [reflexivity|]. simpl.
  pose proof (List.filter_length_le (fun x => negb (p x)) rest) as Hle.
  destruct (p x); simpl; lia.
Qed.

Lemma filter_nil_iff {A : Type} (p : A -> bool) (l : list A) :
  List.filter p l = [] <-> forall x, In x l -> p x = false.
Proof.
  induction l as [|x rest IH]; simpl; [tauto|].
  destruct (p x) eqn:Hx.
  - split; [discriminate|]. intros H. specialize (H x (or_introl eq_refl)).
    congruence.
  - rewrite IH. split.
    + intros H y [<-|Hy]; auto.
    + intros H y Hy. apply H. now right.
Qed.

(** X18.  [calculateFieldStats] counts every value and, as missing, the
    NaN values; the statistics stay undefined exactly when every value is
    NaN (or there is none); a median, minimum or maximum that is defined
    is a value of the field other than NaN. *)
Theorem calculateFieldStats_summary (values : list float) :
  StatsSummary.count (StatsSummary.calculateFieldStats Math_pow values)
  = length values
  /\ StatsSummary.missing (StatsSummary.calculateFieldStats Math_pow values)
     = length (List.filter isNaN values)
  /\ (StatsSummary.mean (StatsSummary.calculateFieldStats Math_pow values) = None
      <-> forall v, In v values -> isNaN v = true)
  /\ (forall m,
        StatsSummary.median (StatsSummary.calculateFieldStats Math_pow values)
        = Some m
        \/ StatsSummary.min (StatsSummary.calculateFieldStats Math_pow values)
           = Some m
        \/ StatsSummary.max (StatsSummary.calculateFieldStats Math_pow values)
           = Some m ->
        In m values /\ isNaN m = false).
Proof.
  unfold StatsSummary.calculateFieldStats.
  pose proof (filter_nil_iff (fun v => negb (isNaN v)) values) as Hnil.
  set (numericValues := List.filter (fun v => negb (isNaN v)) values) in *.
  assert (Hnumeric : forall m, In m numericValues -> In m values /\ isNaN m = false).
  { intros m Hm. apply filter_In in Hm. destruct Hm as [Hm Hn].
    split; [exact Hm | now apply negb_true_iff]. }
  assert (Hall : numericValues = []
                 <-> forall v, In v values -> isNaN v = true).
  { rewrite Hnil. split; intros H v Hv; specialize (H v Hv);
      [now apply negb_false_iff | now apply negb_false_iff]. }
  destruct (Nat.ltb 0 (length numericValues)) eqn:Hlen;
    cbn [StatsSummary.count StatsSummary.missing StatsSummary.mean
         StatsSummary.median StatsSummary.min StatsSummary.max].
  - apply Nat.ltb_lt in Hlen.
    split; [reflexivity|]. split; [apply filter_complement|].
    split.
    + split; [discriminate|]. intros H. apply Hall in H.
      rewrite H in Hlen. simpl in Hlen. lia.
    + rewrite sort_length.
      intros m [[= <-]|[[= <-]|[= <-]]]; apply Hnumeric, sorted_In;
        [exact (Nat.div_lt (length numericValues) 2 Hlen ltac:(lia)) | lia | lia].
  - apply Nat.ltb_ge in Hlen.
    split; [reflexivity|]. split; [apply filter_complement|].
    split.
    + split; [|reflexivity]. intros _. apply Hall.
      destruct numericValues; [reflexivity | simpl in Hlen; lia].
    + intros m [H|[H|H]]; discriminate.
Qed.

End FieldStats.

(** ** AnalysisEngine: calculateDescriptiveStats over the fields *)

Section DescriptiveStats.
Import Js AnalysisEngine.

Variable E : Type.
Variable createError : string -> string -> E.
Variable typeError : E.
Variable Math_pow : float -> float -> float.

Lemma describe_throw (l : list DataField) (e : E) :
  fold_left
    (fun (acc : Completion E (gmap string DescriptiveStats)) field =>
       bind acc (fun stats =>
       bind (describeField E createError typeError Math_pow field) (fun s =>
       Normal (<[template (name field) := s]> stats))))
    l (Throw e) = Throw e.
Proof. induction l as [|f rest IH]; simpl; [reflexivity | exact IH]. Qed.

(** The fields that [describeField] accepts. *)
Lemma describeField_accepts (f : DataField) :
  (exists s, describeField E createError typeError Math_pow f = Normal s)
  <-> exists elems,
        value f = JArray elems /\ elems <> []
        /\ every isValidNumber elems = true.
Proof.
  unfold describeField. split.
  - intros [s Hs]. destruct (value f) as [| | b | n | str | elems];
      try (destruct (negb _); discriminate).
    exists elems. split; [reflexivity|].
    destruct elems as [|x rest]; [discriminate|]. split; [discriminate|].
    destruct (every isValidNumber (x :: rest)); [reflexivity | discriminate].
  - intros [elems [-> [Hne Hall]]].
    rewrite (length_nonzero _ Hne), Hall. simpl. eauto.
Qed.

(** The loop of [calculateDescriptiveStats], from any record [stats]. *)
Lemma describe_loop (l : list DataField) :
  forall stats0 : gmap string DescriptiveStats,
    match fold_left
            (fun (acc : Completion E (gmap string DescriptiveStats)) field =>
               bind acc (fun stats =>
               bind (describeField E createError typeError Math_pow field) (fun s =>
               Normal (<[template (name field) := s]> stats))))
            l (Normal stats0)
    with
    | Normal stats =>
        (forall f, In f l ->
           exists s, describeField E createError typeError Math_pow f = Normal s)
        /\ (forall f, In f l -> is_Some (stats !! template (name f)))
        /\ (forall k, is_Some (stats0 !! k) -> is_Some (stats !! k))
        /\ (forall k s, stats !! k = Some s ->
              stats0 !! k = Some s
              \/ exists f, In f l /\ template (name f) = k
                           /\ describeField E createError typeError Math_pow f
                              = Normal s)
    | Throw e =>
        exists before f after,
          l = before ++ f :: after
          /\ (forall g, In g before ->
                exists s, describeField E createError typeError Math_pow g
                          = Normal s)
          /\ describeField E createError typeError Math_pow f = Throw e
    end.
Proof.
  induction l as [|f rest IH]; intros stats0.
  - simpl. split; [contradiction|]. split; [contradiction|]. split; [auto|].
    intros k s Hk. now left.
  - cbn [fold_left bind].
    destruct (describeField E createError typeError Math_pow f) as [s|e] eqn:Hf;
      cbn [bind].
    + specialize (IH (<[template (name f) := s]> stats0)).
      destruct (fold_left _ rest _) as [stats|e].
      * destruct IH as [Hall [Hkeys [Hkept Hfrom]]].
        split; [intros g [<-|Hg]; eauto|].
        split; [intros g [<-|Hg]; [apply Hkept; rewrite lookup_insert_eq; eauto
                                  | now apply Hkeys]|].
        split.
        { intros k Hk. apply Hkept.
          destruct (decide (template (name f) = k)) as [<-|Hne];
            [rewrite lookup_insert_eq; eauto | now rewrite lookup_insert_ne]. }
        intros k s' Hk. destruct (Hfrom k s' Hk) as [H0|[g [Hg [Hname Hdesc]]]].
        -- destruct (decide (template (name f) = k)) as [<-|Hne].
           ++ rewrite lookup_insert_eq in H0. injection H0 as <-.
              right. exists f. split; [now left | now split].
           ++ rewrite lookup_insert_ne in H0 by exact Hne. now left.
        -- right. exists g. split; [now right | now split].
      * destruct IH as [before [g [after [-> [Hbefore Hg]]]]].
        exists (f :: before), g, after. split; [reflexivity|].
        split; [intros h [<-|Hh]; eauto | exact Hg].
    + rewrite describe_throw. exists [], f, rest.
      split; [reflexivity|]. split; [contradiction | exact Hf].
Qed.

(** X19.  [calculateDescriptiveStats] returns statistics exactly when the
    value of every field is a non-empty array of numbers other than NaN;
    otherwise it throws. *)
Theorem calculateDescriptiveStats_accepts_iff (fields : list DataField) :
  (exists stats,
     calculateDescriptiveStats E createError typeError Math_pow fields
     = Normal stats)
  <-> forall f, In f fields ->
        exists elems,
          value f = JArray elems /\ elems <> []
          /\ every isValidNumber elems = true.
Proof.
  unfold calculateDescriptiveStats.
  pose proof (describe_loop fields ∅) as Hloop.
  destruct (fold_left _ fields (Normal ∅)) as [stats|e].
  - destruct Hloop as [Hall _]. split; [|eauto].
    intros _ f Hf. apply describeField_accepts. now apply Hall.
  - destruct Hloop as [before [f [after [-> [_ Hf]]]]]. split.
    + intros [stats Hstats]. discriminate.
    + intros Hall. exfalso.
      assert (Hin : In f (before ++ f :: after))
        by (apply in_or_app; right; now left).
      apply Hall, describeField_accepts in Hin. destruct Hin as [s Hs].
      congruence.
Qed.


(** X21.  When some field is refused, [calculateDescriptiveStats] throws
    the error of the first such field, whatever the later fields hold. *)
Theorem calculateDescriptiveStats_first_failure
  (before after : list DataField) (f : DataField) (e : E) :
  (forall g, In g before ->
     exists s, describeField E createError typeError Math_pow g = Normal s) ->
  describeField E createError typeError Math_pow f = Throw e ->
  calculateDescriptiveStats E createError typeError Math_pow
    (before ++ f :: after) = Throw e.
Proof.
  unfold calculateDescriptiveStats. intros Hbefore Hf.
  generalize (∅ : gmap string DescriptiveStats).
  induction before as [|g rest IH]; intros stats0.
  - simpl. rewrite Hf. simpl. apply describe_throw.
  - cbn [app fold_left bind].
    destruct (Hbefore g (or_introl eq_refl)) as [s ->]. cbn [bind].
    apply IH. intros h Hh. apply Hbefore. now right.
Qed.

End DescriptiveStats.


Lemma calculateDescriptiveStats_first_failure_witness :
  AnalysisEngine.calculateDescriptiveStats _ Sample.createError
    Sample.typeError Sample.Math_pow
    ([numberField "a" [1]%float]
     ++ mkField (Some "b") (Some "number") (Js.JArray [])
     :: [numberField "c" [PrimFloat.nan]])
  = Js.Throw (Sample.createError "VALIDATION_ERROR" "Field b has no valid data").
Proof.
  apply calculateDescriptiveStats_first_failure; [|reflexivity].
  intros g [<-|[]]. eexists. reflexivity.
Defined.

(** ** TextSummarization: the two errors of generateSummary *)

Section SummaryErrors.
Import Js TextSummarization.

Lemma dropWhile_all (p : ascii -> bool) (l : list ascii) :
  forallb p l = true -> dropWhile p l = [].
Proof.
  induction l as [|c rest IH]; simpl; [reflexivity|].
  destruct (p c); [exact IH | discriminate].
Qed.

(** A string of white space trims to the empty string. *)
Lemma whitespace_blank (s : string) :
  forallb isWhiteSpace (list_ascii_of_string s) = true ->
  String.length (trim s) = 0.
Proof.
  intros Hall. unfold trim, trimChars.
  rewrite (dropWhile_all _ _ Hall). reflexivity.
Qed.

Lemma replaceFrom_forallb (p : ascii -> bool) (pattern : list Atom)
  (replacement : list ascii) :
  forallb p replacement = true ->
  forall (s : list ascii) (skip : nat),
    forallb p s = true ->
    forallb p (replaceFrom pattern replacement skip s) = true.
Proof.
  intros Hrep. induction s as [|c rest IH]; intros skip Hs; [reflexivity|].
  simpl in Hs. apply andb_true_iff in Hs. destruct Hs as [Hc Hrest].
  cbn [replaceFrom]. destruct skip as [|k]; [|now apply IH].
  destruct (matchesAt pattern (c :: rest)).
  - rewrite forallb_app, Hrep. now apply IH.
  - simpl. rewrite Hc. now apply IH.
Qed.

Lemma replace_forallb (p : ascii -> bool) (pattern : list Atom)
  (replacement s : string) :
  forallb p (list_ascii_of_string replacement) = true ->
  forallb p (list_ascii_of_string s) = true ->
  forallb p (list_ascii_of_string (replace pattern replacement s)) = true.
Proof.
  intros Hrep Hs. unfold replace.
  rewrite list_ascii_of_string_of_list_ascii.
  now apply replaceFrom_forallb.
Qed.

Lemma matchFrom_no_end_mark (l : list ascii) :
  forallb (fun c => negb (isEndMark c)) l = true ->
  forall body, matchFrom l body [] = [].
Proof.
  induction l as [|c rest IH]; intros Hall body; [reflexivity|].
  simpl in Hall. apply andb_true_iff in Hall. destruct Hall as [Hc Hrest].
  apply negb_true_iff in Hc. simpl. rewrite Hc. now apply IH.
Qed.

(** Without [.], [!] and [?] there are no sentences. *)
Lemma no_end_mark_no_sentences (fullText : string) :
  forallb (fun c => negb (isEndMark c)) (list_ascii_of_string fullText) = true ->
  splitSentences fullText = [].
Proof.
  intros Hmarks. unfold splitSentences.
  assert (Hprocessed :
    forallb (fun c => negb (isEndMark c))
      (list_ascii_of_string
         (fold_left (fun processed '(abbr, placeholder) =>
                       replace (regExp abbr) placeholder processed)
            (combine abbrev placeholders) fullText)) = true).
  { assert (Hplaceholders :
      Forall (fun pair : string * string =>
                forallb (fun c => negb (isEndMark c))
                  (list_ascii_of_string (snd pair)) = true)
        (combine abbrev placeholders)) by (repeat constructor).
    revert fullText Hmarks.
    induction Hplaceholders as [|[abbr placeholder] rest Hpl _ IH];
      intros fullText Hmarks; [exact Hmarks|].
    simpl. apply IH. now apply replace_forallb. }
  unfold matchSentences. rewrite (matchFrom_no_end_mark _ Hprocessed).
  reflexivity.
Qed.

Lemma generateSummary_blank (texts : list string) (maxSentences : Z) :
  generateSummary texts maxSentences = Throw "Input text is empty"%string
  <-> forallb isWhiteSpace (list_ascii_of_string (join " " (map Some texts)))
      = true.
Proof.
  unfold generateSummary. split.
  - destruct (Nat.eqb (String.length (trim (join " " (map Some texts)))) 0)
      eqn:Hblank.
    + intros _. apply Nat.eqb_eq in Hblank. now apply blank_all_whitespace.
    + destruct (Nat.eqb (length (splitSentences (join " " (map Some texts)))) 0);
        intros H; discriminate.
  - intros Hall. now rewrite (whitespace_blank _ Hall).
Qed.

(** X22.  [generateSummary] reports 'Input text is empty' exactly when the
    joined text holds white space only (or nothing). *)
Theorem generateSummary_empty_iff (texts : list string) (maxSentences : Z) :
  generateSummary texts maxSentences = Throw "Input text is empty"%string
  <-> forallb isWhiteSpace (list_ascii_of_string (join " " (map Some texts)))
      = true.
Proof. exact (generateSummary_blank texts maxSentences). Qed.

(** X23.  A text that is not blank and holds none of [.], [!] and [?] has
    no sentences: [generateSummary] reports 'No valid sentences found in
    text' and selects nothing. *)
Theorem generateSummary_no_end_mark (texts : list string) (maxSentences : Z) :
  forallb isWhiteSpace (list_ascii_of_string (join " " (map Some texts)))
  = false ->
  forallb (fun c => negb (isEndMark c))
    (list_ascii_of_string (join " " (map Some texts))) = true ->
  generateSummary texts maxSentences
  = Throw "No valid sentences found in text"%string.
Proof.
  intros Hink Hmarks. unfold generateSummary.
  destruct (Nat.eqb (String.length (trim (join " " (map Some texts)))) 0)
    eqn:Hblank.
  - apply Nat.eqb_eq, blank_all_whitespace in Hblank. congruence.
  - now rewrite (no_end_mark_no_sentences _ Hmarks).
Qed.

Lemma chars_append (a b : string) :
  list_ascii_of_string (a +:+ b)
  = list_ascii_of_string a ++ list_ascii_of_string b.
Proof. induction a as [|c a IH]; simpl; [reflexivity | now rewrite IH]. Qed.

Lemma chars_join (texts : list string) (s : string) (c : ascii) :
  In s texts -> In c (list_ascii_of_string s) ->
  In c (list_ascii_of_string (join " " (map Some texts))).
Proof.
  induction texts as [|t rest IH]; intros Hs Hc; [contradiction|].
  destruct rest as [|u rest'].
  - destruct Hs as [->|[]]. exact Hc.
  - change (join " " (map Some (t :: u :: rest')))
      with (t +:+ " " +:+ join " " (map Some (u :: rest'))).
    rewrite !chars_append, !in_app_iff.
    destruct Hs as [->|Hs]; [now left|].
    right. right. now apply IH.
Qed.

(** X24.  A field that [TextAnalysis] offers (type 'string', with an
    element that is a string other than white space), when its elements
    are all strings, never makes [generateSummary] report 'Input text is
    empty'. *)
Theorem textFields_never_empty (f : DataField) (texts : list string)
  (maxSentences : Z) :
  TextAnalysis.isTextField f = true ->
  value f = JArray (map JString texts) ->
  generateSummary texts maxSentences <> Throw "Input text is empty"%string.
Proof.
  intros Htext Hvalue Hthrow. apply generateSummary_blank in Hthrow.
  unfold TextAnalysis.isTextField in Htext. rewrite Hvalue in Htext.
  apply andb_true_iff in Htext. destruct Htext as [_ Htext].
  apply andb_true_iff in Htext. destruct Htext as [_ Htext].
  apply existsb_exists in Htext. destruct Htext as [v [Hv Hhas]].
  apply in_map_iff in Hv. destruct Hv as [s [<- Hs]]. simpl in Hhas.
  apply Nat.ltb_lt in Hhas.
  destruct (forallb isWhiteSpace (list_ascii_of_string s)) eqn:Hblank.
  - rewrite (whitespace_blank _ Hblank) in Hhas. lia.
  - assert (Hc : exists c, In c (list_ascii_of_string s)
                           /\ isWhiteSpace c = false).
    { clear -Hblank. induction (list_ascii_of_string s) as [|c rest IH];
        [discriminate|]. simpl in Hblank.
      destruct (isWhiteSpace c) eqn:Hc.
      - destruct (IH Hblank) as [d [Hd Hw]]. exists d. split; [now right | exact Hw].
      - exists c. split; [now left | exact Hc]. }
    destruct Hc as [c [Hc Hw]].
    rewrite forallb_forall in Hthrow.
    rewrite (Hthrow c (chars_join texts s c Hs Hc)) in Hw. discriminate.
Qed.

End SummaryErrors.

Lemma generateSummary_no_end_mark_witness :
  TextSummarization.generateSummary ["no full stop here"; "nor here"]%string 3
  = Js.Throw "No valid sentences found in text"%string.
Proof.
  apply generateSummary_no_end_mark; reflexivity.
Defined.

Lemma textFields_never_empty_witness :
  TextAnalysis.isTextField
    (mkField (Some "notes") (Some "string")
       (Js.JArray (map Js.JString ["  "; "All good. Thanks!"]%string))) = true
  /\ TextSummarization.generateSummary ["  "; "All good. Thanks!"]%string 2
     <> Js.Throw "Input text is empty"%string.
Proof.
  split; [reflexivity|].
  apply (textFields_never_empty
           (mkField (Some "notes") (Some "string")
              (Js.JArray (map Js.JString ["  "; "All good. Thanks!"]%string))));
    reflexivity.
Defined.

(** ** TextAnalysis: the check boxes of the fields *)

Section FieldToggle.
Import TextAnalysis.

Lemma filter_other_fixed (l : list string) (x : string) :
  List.filter (fun f => negb (String.eqb f x)) l = l <-> ~ In x l.
Proof.
  induction l as [|y rest IH]; simpl; [tauto|].
  destruct (String.eqb y x) eqn:Hyx; simpl.
  - apply String.eqb_eq in Hyx. subst y. split; [|tauto].
    intros H. exfalso.
    pose proof (List.filter_length_le (fun f => negb (String.eqb f x)) rest) as Hle.
    rewrite H in Hle. simpl in Hle. lia.
  - apply String.eqb_neq in Hyx. split.
    + intros [= H]. apply IH in H. intros [Heq|Hin]; congruence.
    + intros H. f_equal. apply IH. tauto.
Qed.

(** X25.  Clearing a check box removes every occurrence of the name;
    ticking it appends the name, also when it is selected already; so
    ticking and clearing restores the selection exactly when the name was
    not selected before. *)
Theorem handleFieldToggle_round_trip (prev : list string) (fieldName : string) :
  ~ In fieldName (handleFieldToggle prev fieldName false)
  /\ (In fieldName prev ->
      ~ List.NoDup (handleFieldToggle prev fieldName true))
  /\ (handleFieldToggle (handleFieldToggle prev fieldName true) fieldName false
      = prev
      <-> ~ In fieldName prev).
Proof.
  unfold handleFieldToggle. split; [|split].
  - intros Hin. apply filter_In in Hin. destruct Hin as [_ Hne].
    now rewrite String.eqb_refl in Hne.
  - intros Hin Hnodup. apply List.NoDup_remove_2 in Hnodup.
    apply Hnodup. rewrite app_nil_r. exact Hin.
  - rewrite List.filter_app. simpl. rewrite String.eqb_refl. simpl.
    rewrite app_nil_r. apply filter_other_fixed.
Qed.

End FieldToggle.

(** ** CorrelationMatrix: the strongest correlations *)

Section StrongestFacts.
Import Js Strongest.



End StrongestFacts.

(** ** formatNumber *)

Section Decimal.
Import Number.
Local Open Scope Z_scope.

Lemma digitsFrom_acc (fuel : nat) :
  forall (n : Z) (acc : list ascii),
    digitsFrom fuel n acc = digitsFrom fuel n [] ++ acc.
Proof.
  induction fuel as [|fuel IH]; intros n acc; simpl; [reflexivity|].
  destruct (n <? 10); [reflexivity|].
  rewrite (IH _ (_ :: acc)), (IH _ [_]), <- app_assoc. reflexivity.
Qed.

Lemma digitsFrom_S (fuel : nat) (n : Z) (acc : list ascii) :
  digitsFrom (S fuel) n acc
  = if n <? 10 then digit n :: acc
    else digitsFrom fuel (n / 10) (digit (n mod 10) :: acc).
Proof. reflexivity. Qed.

Lemma digitsFrom_enough (fuel : nat) :
  forall (fuel' : nat) (n : Z),
    0 <= n < 10 ^ Z.of_nat (S fuel) -> (S fuel <= fuel')%nat ->
    digitsFrom fuel' n [] = digitsFrom (S fuel) n [].
Proof.
  induction fuel as [|fuel IH]; intros fuel' n Hn Hle;
    (destruct fuel' as [|fuel']; [lia|]).
  - rewrite !digitsFrom_S.
    assert (H : (n <? 10) = true) by (apply Z.ltb_lt; simpl in Hn; lia).
    now rewrite H.
  - rewrite (digitsFrom_S fuel'), (digitsFrom_S (S fuel)).
    destruct (n <? 10) eqn:Hsmall; [reflexivity|].
    apply Z.ltb_ge in Hsmall.
    rewrite (digitsFrom_acc fuel'), (digitsFrom_acc (S fuel)). f_equal.
    apply IH; [|lia]. split; [apply Z.div_pos; lia|].
    apply Z.div_lt_upper_bound; [lia|].
    rewrite (Nat2Z.inj_succ (S fuel)), Z.pow_succ_r in Hn by lia. lia.
Qed.

Lemma decimal_fuel (n : Z) :
  0 <= n -> n < 10 ^ Z.of_nat (S (Z.to_nat (Z.log2 n))).
Proof.
  intros Hn. rewrite Nat2Z.inj_succ, Z2Nat.id by apply Z.log2_nonneg.
  destruct (Z.eq_dec n 0) as [->|Hpos]; [reflexivity|].
  destruct (Z.log2_spec n ltac:(lia)) as [_ Hlt].
  apply (Z.lt_le_trans _ _ _ Hlt).
  apply Z.pow_le_mono_l. lia.
Qed.

Lemma decimal_small (n : Z) : 0 <= n < 10 -> decimal n = [digit n].
Proof.
  intros Hn. unfold decimal. rewrite digitsFrom_S.
  assert (H : (n <? 10) = true) by (apply Z.ltb_lt; lia). now rewrite H.
Qed.

(** The last digit is the remainder by 10. *)
Lemma decimal_step (n : Z) :
  10 <= n -> decimal n = decimal (n / 10) ++ [digit (n mod 10)].
Proof.
  intros Hn. unfold decimal at 1. rewrite digitsFrom_S.
  assert (H : (n <? 10) = false) by (apply Z.ltb_ge; lia). rewrite H.
  rewrite digitsFrom_acc. f_equal. unfold decimal.
  assert (Hq : 0 <= n / 10) by (apply Z.div_pos; lia).
  apply digitsFrom_enough; [split; [exact Hq | now apply decimal_fuel]|].
  assert (Hlog : Z.log2 (n / 10) < Z.log2 n).
  { assert (Hhalf : n / 10 <= n / 2).
    { apply Z.div_le_lower_bound; [lia|].
      assert (n = 10 * (n / 10) + n mod 10) by (apply Z.div_mod; lia).
      assert (0 <= n mod 10 < 10) by (apply Z.mod_pos_bound; lia). lia. }
    apply (Z.le_lt_trans _ (Z.log2 (n / 2))); [now apply Z.log2_le_mono|].
    rewrite <- Z.div2_div, Z.div2_spec, Z.log2_shiftr by lia.
    assert (0 < Z.log2 n) by (apply Z.log2_pos; lia). lia. }
  assert (0 <= Z.log2 (n / 10)) by apply Z.log2_nonneg. lia.
Qed.

Lemma length_decimal_pos (n : Z) : 0 <= n -> (1 <= length (decimal n))%nat.
Proof.
  intros Hn. destruct (Z_lt_le_dec n 10) as [Hs|Hl].
  - rewrite decimal_small by lia. simpl. lia.
  - rewrite decimal_step, length_app by lia. simpl. lia.
Qed.

(** With two fraction digits, the digits before the point are those of
    the quotient by 100, and the two after it are the tens and the units. *)
Lemma fixedDigits_two (n : Z) :
  0 <= n ->
  fixedDigits n 2
  = decimal (n / 100) ++ "."%char :: [digit (n / 10 mod 10); digit (n mod 10)].
Proof.
  intros Hn. unfold fixedDigits.
  destruct (Z_lt_le_dec n 10) as [H10|H10].
  - rewrite (decimal_small n) by lia.
    rewrite (Z.div_small n 100), (Z.div_small n 10), (Z.mod_small n 10) by lia.
    reflexivity.
  - rewrite (decimal_step n H10).
    destruct (Z_lt_le_dec n 100) as [H100|H100].
    + assert (Hq : 0 <= n / 10 < 10).
      { split; [apply Z.div_pos; lia | apply Z.div_lt_upper_bound; lia]. }
      rewrite (decimal_small (n / 10) Hq), (Z.div_small n 100) by lia.
      rewrite (Z.mod_small (n / 10)) by lia. reflexivity.
    + assert (Hq : 10 <= n / 10) by (apply Z.div_le_lower_bound; lia).
      rewrite (decimal_step (n / 10) Hq), Z.div_div by lia.
      change (10 * 10) with 100. rewrite <- app_assoc. cbn [app].
      pose proof (length_decimal_pos (n / 100) ltac:(apply Z.div_pos; lia)) as Hlen.
      rewrite length_app. cbn [length].
      destruct (Nat.leb (length (decimal (n / 100)) + 2) 2) eqn:Hshort;
        [apply Nat.leb_le in Hshort; lia|].
      rewrite length_app. cbn [length Nat.eqb].
      replace (length (decimal (n / 100)) + 2 - 2)%nat
        with (length (decimal (n / 100)) + 0)%nat by lia.
      rewrite firstn_app_2, skipn_app, skipn_all2 by lia.
      replace (length (decimal (n / 100)) + 0 - length (decimal (n / 100)))%nat
        with 0%nat by lia.
      cbn [firstn skipn app]. rewrite app_nil_r. reflexivity.
Qed.

Lemma nearest_nonneg (m : positive) (e : Z) (f : nat) : 0 <= nearest m e f.
Proof.
  unfold nearest. destruct (0 <=? e) eqn:He.
  - apply Z.leb_le in He.
    assert (0 < 2 ^ e) by (apply Z.pow_pos_nonneg; lia).
    assert (0 < 10 ^ Z.of_nat f) by (apply Z.pow_pos_nonneg; lia). nia.
  - apply Z.leb_gt in He. apply Z.div_pos.
    + assert (0 < 2 ^ (- e)) by (apply Z.pow_pos_nonneg; lia).
      assert (0 < 10 ^ Z.of_nat f) by (apply Z.pow_pos_nonneg; lia). nia.
    + apply Z.pow_pos_nonneg; lia.
Qed.

Lemma nearest_spec (x : float) (s : bool) (m : positive) (e : Z) (f : nat) :
  Prim2SF x = S754_finite s m e ->
  Reference.nearestDecimal (nearest m e f) f x.
Proof.
  intros Hx. unfold Reference.nearestDecimal, nearest. rewrite Hx.
  destruct (0 <=? e) eqn:He; [reflexivity|]. apply Z.leb_gt in He.
  set (scale := 10 ^ Z.of_nat f). set (p := 2 ^ (- e)).
  assert (Hp : 0 < p) by (apply Z.pow_pos_nonneg; lia).
  replace (2 ^ (1 - e)) with (2 * p)
    by (unfold p; replace (1 - e) with (Z.succ (- e)) by lia;
        rewrite Z.pow_succ_r by lia; reflexivity).
  pose proof (Z.div_mod (2 * Z.pos m * scale + p) (2 * p) ltac:(lia)) as Hdiv.
  pose proof (Z.mod_pos_bound (2 * Z.pos m * scale + p) (2 * p) ltac:(lia)) as Hmod.
  set (n := (2 * Z.pos m * scale + p) / (2 * p)) in *. lia.
Qed.

Lemma valueOf_app (l : list ascii) (c : ascii) :
  Reference.valueOf (l ++ [c])
  = 10 * Reference.valueOf l + (Z.of_nat (nat_of_ascii c) - 48).
Proof. unfold Reference.valueOf. now rewrite fold_left_app. Qed.

Lemma valueOf_digit (d : Z) :
  0 <= d < 10 -> Z.of_nat (nat_of_ascii (digit d)) - 48 = d.
Proof.
  intros Hd. unfold digit. rewrite nat_ascii_embedding by lia. lia.
Qed.

(** The digits of a number denote it. *)
Lemma decimal_value (n : Z) : 0 <= n -> Reference.valueOf (decimal n) = n.
Proof.
  intros Hn. pattern n. apply Wf_Z.Zlt_0_ind; [|exact Hn].
  clear n Hn. intros n IH Hn.
  destruct (Z_lt_le_dec n 10) as [Hsmall|Hlarge].
  - rewrite decimal_small by lia. unfold Reference.valueOf. simpl fold_left.
    rewrite valueOf_digit by lia. lia.
  - rewrite decimal_step, valueOf_app by exact Hlarge.
    assert (Hmod : 0 <= n mod 10 < 10) by (apply Z.mod_pos_bound; lia).
    rewrite valueOf_digit by exact Hmod.
    rewrite IH.
    + symmetry. apply Z.div_mod. lia.
    + split; [apply Z.div_pos; lia | apply Z.div_lt; lia].
Qed.

End Decimal.

(** *** The exponent of a binary64 quotient *)

Section DivisionBound.
Local Open Scope Z_scope.

(** The number of binary digits: 2^(d - 1) <= m < 2^d. *)
Lemma digits2_pos_bounds (p : positive) :
  2 ^ (Z.pos (digits2_pos p) - 1) <= Z.pos p < 2 ^ Z.pos (digits2_pos p).
Proof.
  induction p as [p IH|p IH|]; cbn [digits2_pos].
  - rewrite Pos2Z.inj_succ.
    replace (Z.succ (Z.pos (digits2_pos p)) - 1)
      with (Z.succ (Z.pos (digits2_pos p) - 1)) by lia.
    rewrite !Z.pow_succ_r by lia. lia.
  - rewrite Pos2Z.inj_succ.
    replace (Z.succ (Z.pos (digits2_pos p)) - 1)
      with (Z.succ (Z.pos (digits2_pos p) - 1)) by lia.
    rewrite !Z.pow_succ_r by lia. lia.
  - simpl. lia.
Qed.

Lemma Zdigits2_nonneg (m : Z) : 0 <= Zdigits2 m.
Proof. destruct m; simpl; lia. Qed.

Lemma Zdigits2_upper (m d : Z) : 0 <= m -> 0 <= d -> m < 2 ^ d -> Zdigits2 m <= d.
Proof.
  intros Hm Hd Hlt. destruct m as [|p|p]; simpl; [lia| |lia].
  destruct (digits2_pos_bounds p) as [Hlow _].
  destruct (Z_le_gt_dec (Z.pos (digits2_pos p)) d) as [Hle|Hgt]; [exact Hle|].
  exfalso.
  assert (2 ^ d <= 2 ^ (Z.pos (digits2_pos p) - 1))
    by (apply Z.pow_le_mono_r; lia).
  lia.
Qed.

Lemma Zdigits2_lt (m : Z) : 0 <= m -> m < 2 ^ Zdigits2 m.
Proof.
  intros Hm. destruct m as [|p|p]; simpl; [lia| |lia].
  apply digits2_pos_bounds.
Qed.

Lemma Zdigits2_mono (a b : Z) : 0 <= a <= b -> Zdigits2 a <= Zdigits2 b.
Proof.
  intros [Ha Hab]. apply Zdigits2_upper; [lia | apply Zdigits2_nonneg|].
  apply (Z.le_lt_trans _ b); [exact Hab | apply Zdigits2_lt; lia].
Qed.

Lemma Zdigits2_succ (m : Z) : 0 <= m -> Zdigits2 (m + 1) <= Zdigits2 m + 1.
Proof.
  intros Hm. apply Zdigits2_upper; [lia | pose proof (Zdigits2_nonneg m); lia|].
  rewrite Z.pow_add_r by (try apply Zdigits2_nonneg; lia).
  pose proof (Zdigits2_lt m Hm). change (2 ^ 1) with 2. lia.
Qed.

Lemma Zdigits2_shiftl (m s : Z) :
  0 <= m -> 0 <= s -> Zdigits2 (Z.shiftl m s) <= Zdigits2 m + s.
Proof.
  intros Hm Hs. rewrite Z.shiftl_mul_pow2 by exact Hs.
  assert (Hp : 0 < 2 ^ s) by (apply Z.pow_pos_nonneg; lia).
  apply Zdigits2_upper; [nia | pose proof (Zdigits2_nonneg m); lia|].
  rewrite Z.pow_add_r by (try apply Zdigits2_nonneg; lia).
  pose proof (Zdigits2_lt m Hm). nia.
Qed.

(** One step to the right loses one digit. *)
Lemma shr_1_digits (mrs : shr_record) :
  0 <= shr_m mrs ->
  0 <= shr_m (shr_1 mrs)
  /\ Zdigits2 (shr_m (shr_1 mrs)) = Z.max 0 (Zdigits2 (shr_m mrs) - 1).
Proof.
  destruct mrs as [m r s]. cbn [shr_m]. intros Hm.
  destruct m as [|[p|p|]|p]; cbn [shr_1 shr_m Zdigits2 digits2_pos]; try lia;
    rewrite ?Pos2Z.inj_succ; lia.
Qed.

Lemma iter_shr_1_digits (p : positive) :
  forall mrs : shr_record,
    0 <= shr_m mrs ->
    0 <= shr_m (SpecFloat.iter_pos shr_1 p mrs)
    /\ Zdigits2 (shr_m (SpecFloat.iter_pos shr_1 p mrs))
       = Z.max 0 (Zdigits2 (shr_m mrs) - Z.pos p).
Proof.
  induction p as [p IH|p IH|]; intros mrs Hm; cbn [SpecFloat.iter_pos].
  - destruct (shr_1_digits mrs Hm) as [H1 D1].
    destruct (IH _ H1) as [H2 D2]. destruct (IH _ H2) as [H3 D3].
    split; [exact H3|]. rewrite D3, D2, D1. lia.
  - destruct (IH _ Hm) as [H2 D2]. destruct (IH _ H2) as [H3 D3].
    split; [exact H3|]. rewrite D3, D2. lia.
  - apply shr_1_digits. exact Hm.
Qed.

(** Rounding a mantissa [mx] with exponent [ex] to binary64: the exponent
    of the result is bounded by that of the argument and by the magnitude
    of the argument. *)
Lemma binary_round_aux_exponent (sx : bool) (mx ex : Z) (lx : location) (B : Z) :
  0 <= mx -> Zdigits2 mx + ex <= B -> ex <= B - 53 -> -1074 <= B - 53 ->
  match binary_round_aux prec emax sx mx ex lx with
  | S754_zero _ => True
  | S754_finite _ _ e => e <= B - 52
  | S754_infinity _ => 1024 - 53 < B - 52
  | S754_nan => False
  end.
Proof.
  intros Hmx HB Hex Hmin. unfold binary_round_aux, shr_fexp, shr.
  assert (Hfexp : forall x, fexp prec emax x = Z.max (x - 53) (-1074))
    by reflexivity.
  rewrite Hfexp.
  (* the first shift *)
  set (n1 := Z.max (Zdigits2 mx + ex - 53) (-1074) - ex).
  assert (Hres1 : exists mrs1 e1,
            (match n1 with
             | Z.pos p => (SpecFloat.iter_pos shr_1 p (shr_record_of_loc mx lx), ex + n1)
             | _ => (shr_record_of_loc mx lx, ex)
             end) = (mrs1, e1)
            /\ 0 <= shr_m mrs1 /\ e1 <= B - 53
            /\ Zdigits2 (shr_m mrs1) + e1 <= B).
  { assert (Hloc : shr_m (shr_record_of_loc mx lx) = mx)
      by (destruct lx as [|[| |]]; reflexivity).
    destruct n1 as [|p|p] eqn:Hn1.
    - eexists _, _. split; [reflexivity|]. rewrite Hloc. lia.
    - destruct (iter_shr_1_digits p (shr_record_of_loc mx lx)) as [H D];
        [rewrite Hloc; exact Hmx|].
      eexists _, _. split; [reflexivity|]. rewrite D, Hloc. lia.
    - eexists _, _. split; [reflexivity|]. rewrite Hloc. lia. }
  destruct Hres1 as [mrs1 [e1 [-> [Hm1 [He1 HB1]]]]].
  set (mr := round_nearest_even (shr_m mrs1) (loc_of_shr_record mrs1)).
  assert (Hmr : 0 <= mr /\ Zdigits2 mr <= Zdigits2 (shr_m mrs1) + 1).
  { unfold mr, round_nearest_even.
    pose proof (Zdigits2_succ (shr_m mrs1) Hm1).
    destruct (loc_of_shr_record mrs1) as [|[| |]];
      try destruct (Z.even (shr_m mrs1)); split; lia. }
  destruct Hmr as [Hmr Dmr].
  rewrite Hfexp.
  set (n2 := Z.max (Zdigits2 mr + e1 - 53) (-1074) - e1).
  assert (Hres2 : exists mrs2 e2,
            (match n2 with
             | Z.pos p => (SpecFloat.iter_pos shr_1 p (shr_record_of_loc mr loc_Exact), e1 + n2)
             | _ => (shr_record_of_loc mr loc_Exact, e1)
             end) = (mrs2, e2)
            /\ 0 <= shr_m mrs2 /\ e2 <= B - 52).
  { destruct n2 as [|p|p] eqn:Hn2.
    - eexists _, _. split; [reflexivity|]. cbn [shr_record_of_loc shr_m]. lia.
    - destruct (iter_shr_1_digits p (shr_record_of_loc mr loc_Exact)) as [H D];
        [exact Hmr|].
      eexists _, _. split; [reflexivity|]. split; [exact H|]. lia.
    - eexists _, _. split; [reflexivity|]. cbn [shr_record_of_loc shr_m]. lia. }
  destruct Hres2 as [mrs2 [e2 [-> [Hm2 He2]]]].
  destruct (shr_m mrs2) as [|m|m]; [exact I| |lia].
  change (emax - prec) with (1024 - 53).
  destruct (e2 <=? 1024 - 53) eqn:Hfit; [exact He2|].
  apply Z.leb_gt in Hfit. lia.
Qed.

(** The exponent of a binary64 quotient of two finite numbers. *)
Lemma SFdiv_exponent (sx sy : bool) (mx my : positive) (ex ey B : Z) :
  Zdigits2 (Z.pos mx) + ex - ey <= B -> ex - ey <= B - 53 -> -1074 <= B - 53 ->
  match SFdiv prec emax (S754_finite sx mx ex) (S754_finite sy my ey) with
  | S754_zero _ => True
  | S754_finite _ _ e => e <= B - 52
  | S754_infinity _ => 1024 - 53 < B - 52
  | S754_nan => False
  end.
Proof.
  intros HB Hex Hmin. unfold SFdiv, SFdiv_core_binary.
  set (e' := Z.min (fexp prec emax (Zdigits2 (Z.pos mx) + ex
                                    - (Zdigits2 (Z.pos my) + ey))) (ex - ey)).
  set (s := ex - ey - e').
  assert (Hs : 0 <= s) by (unfold s, e'; lia).
  set (m' := match s with
             | Z.pos _ => Z.shiftl (Z.pos mx) s
             | 0 => Z.pos mx
             | Z.neg _ => 0
             end).
  assert (Hm' : 0 <= m' /\ Zdigits2 m' <= Zdigits2 (Z.pos mx) + s).
  { unfold m'. destruct s as [|p|p] eqn:Hp; [lia| |lia].
    split; [apply Z.shiftl_nonneg; lia|].
    apply Zdigits2_shiftl; lia. }
  destruct Hm' as [Hm' Dm'].
  destruct (Z.div_eucl m' (Z.pos my)) as [q r] eqn:Hdiv.
  assert (Hq : q = m' / Z.pos my) by (unfold Z.div; now rewrite Hdiv).
  assert (Hq0 : 0 <= q) by (rewrite Hq; apply Z.div_pos; lia).
  assert (Hqm : q <= m')
    by (rewrite Hq; apply Z.div_le_upper_bound; [lia | nia]).
  apply binary_round_aux_exponent; [exact Hq0| |unfold e'; lia|exact Hmin].
  pose proof (Zdigits2_mono q m' (conj Hq0 Hqm)). unfold s in Dm'. lia.
Qed.

End DivisionBound.

Section ToFixed.
Import Number.
Local Open Scope float_scope.

Lemma ltb_not_leb (a b : float) : (a <? b) = true -> (b <=? a) = false.
Proof.
  rewrite ltb_spec, leb_spec. unfold SFltb, SFleb.
  rewrite (SFcompare_antisym (Prim2SF a) (Prim2SF b)).
  destruct (SFcompare (Prim2SF a) (Prim2SF b)) as [[| |]|]; simpl; congruence.
Qed.

(** A finite number is a zero or m * 2^e with a sign. *)
Lemma finite_cases (q : float) :
  PrimFloat.is_finite q = true ->
  (exists s, Prim2SF q = S754_zero s)
  \/ (exists s m e, Prim2SF q = S754_finite s m e).
Proof.
  unfold PrimFloat.is_finite, PrimFloat.is_nan, PrimFloat.is_infinity.
  rewrite !FloatAxioms.eqb_spec, abs_spec.
  change (Prim2SF PrimFloat.infinity) with (S754_infinity false).
  destruct (Prim2SF q) as [s|s| |s m e]; simpl; try discriminate.
  - intros _. left. now exists s.
  - destruct s; discriminate.
  - intros _. right. now exists s, m, e.
Qed.

Lemma ltb_zero_sign (q : float) (s : bool) (m : positive) (e : Z) :
  Prim2SF q = S754_finite s m e -> (q <? 0) = s.
Proof.
  intros Hq. rewrite ltb_spec, Hq. change (Prim2SF 0) with (S754_zero false).
  now destruct s.
Qed.

Lemma ltb_zero_zero (q : float) (s : bool) :
  Prim2SF q = S754_zero s -> (q <? 0) = false.
Proof.
  intros Hq. rewrite ltb_spec, Hq. change (Prim2SF 0) with (S754_zero false).
  reflexivity.
Qed.

(** 10^21 is a binary64 number: 7629394531250000 * 2^17. *)
Lemma threshold_value : Prim2SF 1e21 = S754_finite false 7629394531250000 17.
Proof. vm_compute. reflexivity. Qed.

Lemma thousand_value :
  Prim2SF 1000 = S754_finite false 8796093022208000 (-43).
Proof. vm_compute. reflexivity. Qed.

Lemma million_value :
  Prim2SF 1000000 = S754_finite false 8589934592000000 (-33).
Proof. vm_compute. reflexivity. Qed.

(** A number below 10^21 in magnitude is finite. *)
Lemma below_finite (q : float) :
  (PrimFloat.abs q <? 1e21) = true -> PrimFloat.is_finite q = true.
Proof.
  unfold PrimFloat.is_finite, PrimFloat.is_nan, PrimFloat.is_infinity.
  rewrite ltb_spec, !FloatAxioms.eqb_spec, abs_spec, threshold_value.
  change (Prim2SF PrimFloat.infinity) with (S754_infinity false).
  destruct (Prim2SF q) as [s|s| |s m e]; simpl; try discriminate;
    try reflexivity.
  intros _. unfold SFeqb. simpl.
  rewrite Z.compare_refl.
  change (Pos.compare_cont Eq m m) with (Pos.compare m m).
  rewrite Pos.compare_refl. now destruct s.
Qed.

(** Below 10^21, [toFixed(2)] renders the number to two decimals: the
    sign, the digits of n / 100, the point and the two digits of n mod
    100, for an integer n with n / 100 nearest to the magnitude. *)
Lemma toFixed_two_decimals (q : float) :
  (PrimFloat.abs q <? 1e21) = true ->
  exists n : Z,
    (0 <= n)%Z
    /\ Reference.nearestDecimal n 2 q
    /\ toFixed q 2
       = (if q <? 0 then "-" else EmptyString)
         +:+ string_of_list_ascii
               (decimal (n / 100)
                ++ "."%char :: [digit (n / 10 mod 10); digit (n mod 10)]).
Proof.
  intros Hbelow. pose proof (below_finite q Hbelow) as Hfinite.
  apply ltb_not_leb in Hbelow.
  unfold toFixed. rewrite Hbelow.
  destruct (finite_cases q Hfinite) as [[s Hq]|[s [m [e Hq]]]].
  - exists 0%Z. split; [lia|].
    split; [unfold Reference.nearestDecimal; now rewrite Hq|].
    rewrite Hq, (ltb_zero_zero q s Hq). reflexivity.
  - exists (nearest m e 2). split; [apply nearest_nonneg|].
    split; [exact (nearest_spec q s m e 2 Hq)|].
    rewrite Hq, (ltb_zero_sign q s m e Hq).
    rewrite fixedDigits_two by apply nearest_nonneg. reflexivity.
Qed.

Lemma finite_number (q : float) :
  PrimFloat.is_finite q = true -> Js.isNaN (PrimFloat.abs q) = false.
Proof.
  intros Hfinite. unfold Js.isNaN, PrimFloat.is_nan.
  rewrite FloatAxioms.eqb_spec, abs_spec. unfold SFeqb.
  destruct (finite_cases q Hfinite) as [[s ->]|[s [m [e ->]]]]; simpl;
    [reflexivity|].
  rewrite Z.compare_refl.
  change (Pos.compare_cont Eq m m) with (Pos.compare m m).
  now rewrite Pos.compare_refl.
Qed.

(** A finite number below 1000 in magnitude is below 10^21. *)
Lemma small_below_threshold (v : float) :
  PrimFloat.is_finite v = true ->
  (1000 <=? PrimFloat.abs v) = false ->
  (PrimFloat.abs v <? 1e21) = true.
Proof.
  intros Hfinite Hsmall.
  destruct (PrimFloat.abs v <? 1e21) eqn:Hbelow; [reflexivity|].
  assert (Hle : (1e21 <=? PrimFloat.abs v) = true)
    by (apply leb_total; [apply finite_number; exact Hfinite | reflexivity
                         | exact Hbelow]).
  rewrite (leb_trans 1000 1e21 (PrimFloat.abs v) eq_refl Hle) in Hsmall.
  discriminate Hsmall.
Qed.

(** A finite number below 1000000 in magnitude, divided by 1000, is below
    10^21 in magnitude. *)
Lemma thousands_below_threshold (v : float) :
  PrimFloat.is_finite v = true ->
  (1000000 <=? PrimFloat.abs v) = false ->
  (PrimFloat.abs (v / 1000) <? 1e21) = true.
Proof.
  intros Hfinite Hsmall.
  rewrite leb_spec, abs_spec, million_value in Hsmall.
  rewrite ltb_spec, abs_spec, div_spec, thousand_value, threshold_value.
  pose proof (Prim2SF_valid v) as Hvalid.
  unfold PrimFloat.is_finite, PrimFloat.is_nan, PrimFloat.is_infinity in Hfinite.
  rewrite !FloatAxioms.eqb_spec, abs_spec in Hfinite.
  change (Prim2SF PrimFloat.infinity) with (S754_infinity false) in Hfinite.
  destruct (Prim2SF v) as [s|s| |s m e].
  - reflexivity.
  - destruct s; discriminate Hfinite.
  - discriminate Hfinite.
  - clear Hfinite.
    assert (He : (e <= -33)%Z).
    { unfold SFleb, SFabs, SFcompare in Hsmall.
      destruct (Z.compare_spec (-33) e) as [Heq|Hlt|Hgt]; [lia| |lia].
      discriminate Hsmall. }
    assert (Hd : (Z.pos (digits2_pos m) <= 53)%Z).
    { unfold valid_binary, bounded, canonical_mantissa in Hvalid.
      apply andb_true_iff in Hvalid. destruct Hvalid as [Hcanon _].
      apply Z.eqb_eq in Hcanon. unfold fexp in Hcanon.
      change prec with 53%Z in Hcanon. lia. }
    pose proof (SFdiv_exponent s false m 8796093022208000 e (-43) 63) as Hdiv.
    cbn [Zdigits2] in Hdiv.
    specialize (Hdiv ltac:(lia) ltac:(lia) ltac:(lia)).
    unfold SF64div.
    destruct (SFdiv prec emax (S754_finite s m e)
                (S754_finite false 8796093022208000 (-43)))
      as [s'|s'| |s' m' e']; [reflexivity | lia | contradiction|].
    unfold SFltb, SFabs, SFcompare.
    destruct (Z.compare_spec e' 17); [lia | reflexivity | lia].
Qed.


(** C7, as amended.  [formatNumber] returns '0.00' for every input that is
    not a finite number.  For a finite [v] with |v| >= 1000000 it returns
    v / 1000000 rendered to two decimals with the suffix 'M', as long as
    this quotient is below 10^21 in magnitude; for 1000 <= |v| < 1000000
    it returns v / 1000 rendered to two decimals with the suffix 'K';
    otherwise it returns [v] rendered to two decimals.  Rendered to two
    decimals: the sign, the integer digits, the point and two digits of a
    number of hundredths nearest to the value. *)
Theorem formatNumber_cases :
  (forall value : Js.JsVal,
      (forall v, value = Js.JNumber v -> Js.isFinite v = false) ->
      Formatting.formatNumber value = "0.00"%string)
  /\ (forall v : float,
        Js.isFinite v = true ->
        (1000000 <=? PrimFloat.abs v) = true ->
        (PrimFloat.abs (v / 1000000) <? 1e21) = true ->
        exists n : Z,
          (0 <= n)%Z
          /\ Reference.nearestDecimal n 2 (v / 1000000)
          /\ Formatting.formatNumber (Js.JNumber v)
             = Reference.twoDecimals (v / 1000000 <? 0) n +:+ "M")
  /\ (forall v : float,
        Js.isFinite v = true ->
        (1000000 <=? PrimFloat.abs v) = false ->
        (1000 <=? PrimFloat.abs v) = true ->
        exists n : Z,
          (0 <= n)%Z
          /\ Reference.nearestDecimal n 2 (v / 1000)
          /\ Formatting.formatNumber (Js.JNumber v)
             = Reference.twoDecimals (v / 1000 <? 0) n +:+ "K")
  /\ (forall v : float,
        Js.isFinite v = true ->
        (1000000 <=? PrimFloat.abs v) = false ->
        (1000 <=? PrimFloat.abs v) = false ->
        exists n : Z,
          (0 <= n)%Z
          /\ Reference.nearestDecimal n 2 v
          /\ Formatting.formatNumber (Js.JNumber v)
             = Reference.twoDecimals (v <? 0) n).
Proof.
  unfold Formatting.formatNumber.
  split; [|split; [|split]].
  - intros value Hv. destruct value; try reflexivity.
    rewrite (Hv n eq_refl). reflexivity.
  - intros v Hfin Hm Hbelow. rewrite Hfin, Hm. cbn [negb].
    destruct (toFixed_two_decimals _ Hbelow) as [n [Hn [Hnear ->]]].
    exists n. split; [exact Hn|]. split; [exact Hnear | reflexivity].
  - intros v Hfin Hm Hk. rewrite Hfin, Hm, Hk. cbn [negb].
    destruct (toFixed_two_decimals _ (thousands_below_threshold v Hfin Hm))
      as [n [Hn [Hnear ->]]].
    exists n. split; [exact Hn|]. split; [exact Hnear | reflexivity].
  - intros v Hfin Hm Hk. rewrite Hfin, Hm, Hk. cbn [negb].
    destruct (toFixed_two_decimals _ (small_below_threshold v Hfin Hk))
      as [n [Hn [Hnear ->]]].
    exists n. split; [exact Hn|]. split; [exact Hnear | reflexivity].
Qed.

End ToFixed.

Lemma formatNumber_witness :
  Formatting.formatNumber Js.JNull = "0.00"%string
  /\ Formatting.formatNumber Js.JUndefined = "0.00"%string
  /\ Formatting.formatNumber (Js.JNumber PrimFloat.nan) = "0.00"%string
  /\ Formatting.formatNumber (Js.JNumber PrimFloat.infinity) = "0.00"%string
  /\ Formatting.formatNumber (Js.JNumber PrimFloat.neg_infinity) = "0.00"%string
  /\ (PrimFloat.ltb (PrimFloat.abs (-2500000 / 1000000)) 1e21 = true
      /\ exists n : Z,
           Reference.nearestDecimal n 2 (-2500000 / 1000000)%float
           /\ Formatting.formatNumber (Js.JNumber (-2500000)%float)
              = (Reference.twoDecimals true n +:+ "M")%string
           /\ Formatting.formatNumber (Js.JNumber (-2500000)%float)
              = "-2.50M"%string)
  /\ (exists n : Z,
        Reference.nearestDecimal n 2 (1234.5 / 1000)%float
        /\ Formatting.formatNumber (Js.JNumber 1234.5%float)
           = (Reference.twoDecimals false n +:+ "K")%string
        /\ Formatting.formatNumber (Js.JNumber 1234.5%float) = "1.23K"%string)
  /\ (exists n : Z,
        Reference.nearestDecimal n 2 999.5%float
        /\ Formatting.formatNumber (Js.JNumber 999.5%float)
           = Reference.twoDecimals false n
        /\ Formatting.formatNumber (Js.JNumber 999.5%float) = "999.50"%string).
Proof.
  destruct formatNumber_cases as [Hnot [Hm [Hk Hsmall]]].
  split; [apply Hnot; discriminate|].
  split; [apply Hnot; discriminate|].
  split; [apply Hnot; intros v [= <-]; reflexivity|].
  split; [apply Hnot; intros v [= <-]; reflexivity|].
  split; [apply Hnot; intros v [= <-]; reflexivity|].
  assert (Hbelow : PrimFloat.ltb (PrimFloat.abs (-2500000 / 1000000)) 1e21 = true)
    by (vm_compute; reflexivity).
  split; [split; [exact Hbelow|]|split].
  - destruct (Hm (-2500000)%float eq_refl eq_refl Hbelow) as [n [_ [Hnear Hn]]].
    exists n. split; [exact Hnear|]. split; [exact Hn|].
    vm_compute. reflexivity.
  - destruct (Hk 1234.5%float eq_refl eq_refl eq_refl) as [n [_ [Hnear Hn]]].
    exists n. split; [exact Hnear|]. split; [exact Hn|].
    vm_compute. reflexivity.
  - destruct (Hsmall 999.5%float eq_refl eq_refl eq_refl) as [n [_ [Hnear Hn]]].
    exists n. split; [exact Hnear|]. split; [exact Hn|].
    vm_compute. reflexivity.
Defined.

(** C7, as stated, fails from |v| = 10^27 on: v / 1000000 is then 10^21 or
    more, for which [toFixed] switches to exponent notation, so the result
    is not v / 1000000 rendered to two decimals with the suffix 'M'. *)
Lemma formatNumber_exponent_notation :
  Js.isFinite 1e27%float = true
  /\ PrimFloat.leb 1000000 (PrimFloat.abs 1e27) = true
  /\ Formatting.formatNumber (Js.JNumber 1e27%float) = "1e+21M"%string
  /\ ~ exists (negative : bool) (n : Z),
        Formatting.formatNumber (Js.JNumber 1e27%float)
        = (Reference.twoDecimals negative n +:+ "M")%string.
Proof.
  assert (Hvalue : Formatting.formatNumber (Js.JNumber 1e27%float)
                   = "1e+21M"%string) by (vm_compute; reflexivity).
  split; [reflexivity|]. split; [reflexivity|]. split; [exact Hvalue|].
  intros [negative [n Hn]]. rewrite Hvalue in Hn.
  apply (f_equal list_ascii_of_string) in Hn.
  unfold Reference.twoDecimals in Hn.
  rewrite !chars_append, list_ascii_of_string_of_list_ascii in Hn.
  assert (Hpoint : In "."%char (list_ascii_of_string "1e+21M")).
  { rewrite Hn. apply in_or_app. left. apply in_or_app. right.
    apply in_or_app. right. now left. }
  simpl in Hpoint.
  destruct Hpoint as [H|[H|[H|[H|[H|[H|[]]]]]]]; discriminate H.
Qed.
